(** * K-means clustering of climate stations: a shallow embedding of
    [clustering.py] and the properties of its specification.

    Python integers are unbounded, so they are [Z]; list positions are
    [nat].  An exception is a value of [exn] carried by the [result]
    monad.  Two idealisations of the floating point operations are made
    and used throughout:

    - [math.sqrt] is kept symbolic: a distance is stored by its radicand
      (type [distance]), its value is the real number [dist_val], and
      comparisons between distances compare radicands.  The square root
      is strictly increasing, and on the integers below [2^51] so is its
      double precision rounding, so [min] picks the same element.
    - [int(round(float(x)/n))] is the exact quotient rounded half away
      from zero (Python 2's [round]); for [|x| < 2^52] the double
      precision quotient cannot reach or cross a half integer that the
      exact quotient does not, so both agree.

    The theorems on the indices and the values that these operations
    give take the two ranges as hypotheses ([sqrt_range],
    [round_range]); the last section shows that a run on bounded data
    stays inside them.

    The distortion is computed exactly as well: [dist(u, v)**2] is the
    radicand and the mean is a rational number.  The double that the
    program prints is the rounding of a nearby number, the square of a
    rounded square root, so the theorems use only whether
    [compute_distortion] returns or raises, never its value; the
    descent of k-means is stated on the integer sum of the squared
    distances ([cost]).

    An integer too large for a double makes [float] and [math.sqrt]
    raise [OverflowError]; [exn] has no such constructor, and such
    inputs are outside the model. *)

From Stdlib Require Import ZArith List Lia String Bool Arith QArith Reals Lra.
Import ListNotations.
Local Open Scope Z_scope.

(** ** Exceptions and the result monad *)

Inductive exn : Type :=
| IndexError
| TypeError
| ValueError
| ZeroDivisionError.

Inductive result (A : Type) : Type :=
| Ok (a : A)
| Raise (e : exn).

Arguments Ok {A} a.
Arguments Raise {A} e.

Definition bind {A B : Type} (m : result A) (f : A -> result B) : result B :=
  match m with
  | Ok a => f a
  | Raise e => Raise e
  end.

Notation "x <- m ;; k" := (bind m (fun x => k))
  (at level 61, m at next level, right associativity).

(** [[f(x) for x in l]], evaluated left to right, stopping at the first
    exception. *)
Fixpoint mapM {A B : Type} (f : A -> result B) (l : list A) : result (list B) :=
  match l with
  | [] => Ok []
  | x :: l' =>
      y <- f x ;;
      ys <- mapM f l' ;;
      Ok (y :: ys)
  end.

(** [reduce(f, l, a)]. *)
Fixpoint foldM {A B : Type} (f : A -> B -> result A) (l : list B) (a : A) : result A :=
  match l with
  | [] => Ok a
  | x :: l' =>
      a' <- f a x ;;
      foldM f l' a'
  end.

(** ** Python list primitives *)

(** [l[i]] for a position [i >= 0]. *)
Definition py_get {A : Type} (l : list A) (i : nat) : result A :=
  match nth_error l i with
  | Some x => Ok x
  | None => Raise IndexError
  end.

(** [l[i] = x] for a position [i >= 0]. *)
Fixpoint py_set {A : Type} (l : list A) (i : nat) (x : A) : result (list A) :=
  match l, i with
  | [], _ => Raise IndexError
  | _ :: l', O => Ok (x :: l')
  | y :: l', S i' =>
      r <- py_set l' i' x ;;
      Ok (y :: r)
  end.

(** [enumerate(l)]. *)
Definition enumerate {A : Type} (l : list A) : list (nat * A) :=
  combine (seq 0 (List.length l)) l.

(** [sum(l)]: accumulation from the left, starting at 0. *)
Definition py_sum (l : list Z) : Z := fold_left Z.add l 0.

(** [int(round(float(x)/n))]: the quotient rounded to the nearest
    integer, a half going away from zero; division by zero raises. *)
Definition round_half_away (x n : Z) : Z :=
  Z.sgn x * Z.sgn n * ((2 * Z.abs x + Z.abs n) / (2 * Z.abs n)).

Definition py_round_div (x n : Z) : result Z :=
  if n =? 0 then Raise ZeroDivisionError else Ok (round_half_away x n).

(** ** Records of the clustering input

    A row of [monthly_data] is the Python list [[sid] + v + min_data[sid]]:
    the station identifier followed by the feature values.  [row[1:]] is
    [feats], [len(row)] is [row_len] and [row_get] is [row[j]] taken as
    a number: position 0 holds the identifier, a string. *)

Record station_row : Type := Row { sid : string; feats : list Z }.

Definition row_len (r : station_row) : nat := S (List.length (feats r)).

Definition row_get (r : station_row) (j : nat) : result Z :=
  match j with
  | O => Raise TypeError
  | S j' => py_get (feats r) j'
  end.

(** ** Distance *)

Record distance : Type := Sqrt { radicand : Z }.

Definition sqdist (u v : list Z) : Z :=
  py_sum (map (fun p => (fst p - snd p) ^ 2) (combine u v)).

(** [dist(u, v)]: [math.sqrt(sum((x - y)**2 for x,y in zip(u,v)))]. *)
Definition dist (u v : list Z) : distance := Sqrt (sqdist u v).

Definition dist_val (d : distance) : R := sqrt (IZR (radicand d)).

Definition dist_ltb (a b : distance) : bool := radicand a <? radicand b.

(** [d**2]. *)
Definition dist_sq (d : distance) : Z := radicand d.

(** ** Assignment phase *)

(** The scan of [min(..., key=lambda p: p[1])]: the running minimum is
    replaced only by a strictly smaller key, so the first minimal pair
    wins. *)
Fixpoint min_scan (best : nat * distance) (l : list (nat * distance)) : nat * distance :=
  match l with
  | [] => best
  | p :: l' => min_scan (if dist_ltb (snd p) (snd best) then p else best) l'
  end.

Definition py_min_by_snd (l : list (nat * distance)) : result (nat * distance) :=
  match l with
  | [] => Raise ValueError
  | p :: l' => Ok (min_scan p l')
  end.

Definition closest (centroids : list (list Z)) (row : station_row) : result nat :=
  p <- py_min_by_snd (enumerate (map (fun c => dist (feats row) c) centroids)) ;;
  Ok (fst p).

Definition find_closest_centroids (monthly_data : list station_row)
    (centroids : list (list Z)) : result (list nat) :=
  mapM (closest centroids) monthly_data.

(** ** Update phase *)

(** [row[j] += x]. *)
Definition add_at (row : list Z) (j : nat) (x : Z) : result (list Z) :=
  old <- py_get row j ;;
  py_set row j (old + x).

(** The body of [fn]: [agg[centroid]] is one list object, updated in
    place at position 0 and then at positions [1 .. n-1]. *)
Definition fn (n : nat) (indices : list nat) (agg : list (list Z))
    (t : nat * station_row) : result (list (list Z)) :=
  let (i, ls) := t in
  centroid <- py_get indices i ;;
  acc <- py_get agg centroid ;;
  acc <- add_at acc 0 1 ;;
  acc <- foldM (fun a j => x <- row_get ls j ;; add_at a j x) (seq 1 (n - 1)) acc ;;
  py_set agg centroid acc.

(** [[[0]*n for x in range(k)]]: [k] distinct rows, no aliasing. *)
Definition zero_sums (n k : nat) : list (list Z) := repeat (repeat 0 n) k.

Definition mean_row (row : list Z) : result (list Z) :=
  match row with
  | [] => Raise IndexError
  | cnt :: xs => mapM (fun x => py_round_div x cnt) xs
  end.

(** [row[0]] used as a truth value; a row of the sums has
    [n >= 1] entries. *)
Definition row_nonempty (row : list Z) : bool :=
  match row with
  | [] => false
  | cnt :: _ => negb (cnt =? 0)
  end.

Definition compute_centroids (monthly_data : list station_row)
    (indices : list nat) (k : nat) : result (list (list Z)) :=
  first <- py_get monthly_data 0 ;;
  let n := row_len first in
  sums <- foldM (fn n indices) (enumerate monthly_data) (zero_sums n k) ;;
  mapM mean_row (filter row_nonempty sums).

(** ** Distortion

    The sum of the squared distances is exact; the mean is the rational
    number [j / len(monthly_data)]. *)
Definition compute_distortion (monthly_data : list station_row)
    (centroids : list (list Z)) (indices : list nat) : result Q :=
  terms <- mapM (fun t : nat * station_row =>
                   idx <- py_get indices (fst t) ;;
                   c <- py_get centroids idx ;;
                   Ok (dist_sq (dist (feats (snd t)) c)))
                (enumerate monthly_data) ;;
  match monthly_data with
  | [] => Raise ZeroDivisionError
  | _ :: _ => Ok (Qmake (py_sum terms) (Pos.of_nat (List.length monthly_data)))
  end.

(** ** Feature aggregation

    A line of the observation file is taken parsed: [row[:11]] is
    [station_id], [int(row[11:15])] is [yr] and [parse_monthly_values(row)]
    is [monthly]. *)

Record observation : Type :=
  Obs { station_id : string; yr : Z; monthly : list Z }.

Definition MIN_YEAR : Z := 1981.
Definition MAX_YEAR : Z := 2010.
Definition MIN_NUM_VALUES : nat := 20.
Definition MISSING : Z := -9999.

(** [zip] applied to the rows of [ls] as its arguments: the columns of [ls], as many as the shortest row has;
    no column at all when [ls] is empty. *)
Fixpoint zip_star (ls : list (list Z)) : list (list Z) :=
  match ls with
  | [] => []
  | l :: ls' =>
      match ls' with
      | [] => map (fun x => [x]) l
      | _ :: _ => map (fun p => fst p :: snd p) (combine l (zip_star ls'))
      end
  end.

Definition present (x : Z) : bool := negb (x =? MISSING).

Definition avg_monthly_values (ls : list (list Z)) : result (list Z) :=
  let vals := map (filter present) (zip_star ls) in
  mapM (fun l => py_round_div (py_sum l) (Z.of_nat (List.length l))) vals.

(** [station_id in station_ids]. *)
Definition in_ids (station_ids : list string) (s : string) : bool :=
  existsb (String.eqb s) station_ids.

(** The state of the generator between two lines of the file: the
    current station, its values collected so far (in file order) and the
    pairs yielded so far. *)
Record gen_state : Type :=
  Gen { curr_station : string;
        curr_values : list (list Z);
        yielded : list (string * list Z) }.

Definition data_gen_row (station_ids : list string) (st : gen_state)
    (row : observation) : result gen_state :=
  st1 <- (if negb (String.eqb (station_id row) (curr_station st)) then
            ys <- (if negb (String.eqb (curr_station st) EmptyString)
                      && (MIN_NUM_VALUES <? List.length (curr_values st))%nat
                   then
                     v <- avg_monthly_values (curr_values st) ;;
                     Ok (yielded st ++ [(curr_station st, v)])
                   else Ok (yielded st)) ;;
            Ok (Gen (station_id row) [] ys)
          else Ok st) ;;
  if in_ids station_ids (station_id row)
     && (MIN_YEAR <=? yr row) && (yr row <=? MAX_YEAR)
  then Ok (Gen (curr_station st1) (curr_values st1 ++ [monthly row]) (yielded st1))
  else Ok st1.

(** [data_gen] run to exhaustion, as [dict(data_gen(...))] does: all the
    pairs it yields, or the exception that stops it.  Nothing follows
    the loop over the lines. *)
Definition data_gen (rows : list observation) (station_ids : list string)
    : result (list (string * list Z)) :=
  st <- foldM (data_gen_row station_ids) rows (Gen EmptyString [] []) ;;
  Ok (yielded st).

(** ** Initial centroids

    The random source is an arbitrary sequence of raw draws;
    [random.randint(a, b)] consumes one and maps it into [[a, b]]. *)

Definition rng : Type := nat -> Z.

Definition randint (a b : Z) (g : rng) : Z * rng :=
  (a + g O mod (b - a + 1), fun n => g (S n)).

Definition base : list Z :=
  [1522; 1582; 1752; 1972; 2082; 2252; 2082; 2302; 2472; 2022; 1582; 1522;
    610;  670;  720;  830;  890; 1060; 1220; 1330; 1280; 1170; 1000;  610].

Definition initial_centroid (g : rng) : list Z * rng :=
  let (shift, g') := randint (-800) 800 g in
  (map (fun x => x + shift) base, g').

(** [[initial_centroid() for y in range(k)]]. *)
Fixpoint initial_centroids (k : nat) (g : rng) : list (list Z) * rng :=
  match k with
  | O => ([], g)
  | S k' =>
      let (c, g1) := initial_centroid g in
      let (cs, g2) := initial_centroids k' g1 in
      (c :: cs, g2)
  end.

(** ** The clustering loop of [main] *)

Record loop_state : Type :=
  Loop { centroids : list (list Z);
         indices : list nat;
         printed : list Q }.

Definition iteration (verbose : bool) (monthly_data : list station_row)
    (k : nat) (st : loop_state) : result loop_state :=
  idx <- find_closest_centroids monthly_data (centroids st) ;;
  cs <- compute_centroids monthly_data idx k ;;
  if verbose then
    d <- compute_distortion monthly_data cs idx ;;
    Ok (Loop cs idx (printed st ++ [d]))
  else Ok (Loop cs idx (printed st)).

(** [for i in range(iters)]. *)
Fixpoint kmeans_loop (verbose : bool) (monthly_data : list station_row)
    (k iters : nat) (st : loop_state) : result loop_state :=
  match iters with
  | O => Ok st
  | S m =>
      st' <- iteration verbose monthly_data k st ;;
      kmeans_loop verbose monthly_data k m st'
  end.

Definition K : nat := 13.
Definition ITERATIONS : nat := 100.

Definition run_kmeans (verbose : bool) (monthly_data : list station_row)
    (g : rng) : result loop_state :=
  let cs := fst (initial_centroids K g) in
  kmeans_loop verbose monthly_data K ITERATIONS (Loop cs [] []).

(** ** Specification-side notions

    These follow the words of the specification, to be compared with
    the functions above. *)

(** The readings at calendar position [m] over the years [ls] that are
    not the missing-value sentinel. *)
Definition readings_at (ls : list (list Z)) (m : nat) : list Z :=
  filter present (map (fun l => nth m l 0) ls).

(** [r] is the mean of [xs] rounded to the nearest integer: it lies
    within one half of the mean. *)
Definition is_rounded_mean (xs : list Z) (r : Z) : Prop :=
  xs <> [] /\
  Z.abs (2 * py_sum xs - 2 * Z.of_nat (List.length xs) * r) <= Z.of_nat (List.length xs).

(** The centroid got from [base] by the shift [s]. *)
Definition shifted (s : Z) : list Z := map (fun x => x + s) base.

(** The feature parts of the records assigned to cluster [c], in the
    order of the records. *)
Definition members (monthly_data : list station_row) (idx : list nat) (c : nat)
    : list (list Z) :=
  map (fun p => feats (fst p))
      (filter (fun p => Nat.eqb (snd p) c) (combine monthly_data idx)).

(** The sum of the vectors [vs] at component [j]. *)
Definition component_sum (vs : list (list Z)) (j : nat) : Z :=
  py_sum (map (fun v => nth j v 0) vs).

(** The mean of the vectors [vs] of dimension [d], component by
    component, each rounded to the nearest integer. *)
Definition cluster_mean (d : nat) (vs : list (list Z)) : list Z :=
  map (fun j => round_half_away (component_sum vs j) (Z.of_nat (List.length vs)))
      (seq 0 d).

(** The clusters among [0 .. k-1] that have a record. *)
Definition occupied (monthly_data : list station_row) (idx : list nat) (k : nat)
    : list nat :=
  filter (fun c => negb (Nat.eqb (List.length (members monthly_data idx c)) 0)) (seq 0 k).

(** The records all have the feature dimension [d]. *)
Definition uniform (d : nat) (monthly_data : list station_row) : Prop :=
  forall r, In r monthly_data -> List.length (feats r) = d.

(** The first [len(monthly_data)] indices exist and are below [k]. *)
Definition assignment_below (k : nat) (monthly_data : list station_row)
    (idx : list nat) : Prop :=
  forall i, (i < List.length monthly_data)%nat ->
    exists c, nth_error idx i = Some c /\ (c < k)%nat.

(** ** Auxiliary notions of the proofs *)

(** What [fn] adds to the row of one cluster for one record. *)
Definition zip_add (sums v : list Z) : list Z :=
  map (fun p => fst p + snd p) (combine sums v).

Definition bump (row v : list Z) : list Z :=
  match row with
  | [] => []
  | cnt :: sums => (cnt + 1) :: zip_add sums v
  end.

(** A random source whose first draws give the shifts [ss]. *)
Definition draws_for (ss : list Z) : rng := fun n => nth n ss 0 + 800.

(** The observations of one station for the years [y, y+1, ...]. *)
Definition station_years (s : string) (v : list Z) (y : Z) (n : nat) : list observation :=
  map (fun i => Obs s (y + Z.of_nat i) v) (seq 0 n).

(** What holds of the centroid list at the start of an iteration. *)
Definition loop_inv (k : nat) (st : loop_state) : Prop :=
  centroids st <> [] /\ (List.length (centroids st) <= k)%nat.

(** The sum of the squared distances of the records to the centroids
    that [idx] gives them: the numerator of the distortion. *)
Definition cost (monthly_data : list station_row) (cs : list (list Z))
    (idx : list nat) : Z :=
  py_sum (map (fun p => sqdist (feats (fst p)) (nth (snd p) cs []))
              (combine monthly_data idx)).

(** The same sum for the vectors [vs] of one cluster and its centroid. *)
Definition cluster_cost (vs : list (list Z)) (y : list Z) : Z :=
  py_sum (map (fun v => sqdist v y) vs).

(** The computation raises no other exception than [IndexError]. *)
Definition only_index_error {A : Type} (m : result A) : Prop :=
  forall e, m = Raise e -> e = IndexError.

(** The lines of the observation file that count: an eligible station
    and a year of the window. *)
Definition kept (station_ids : list string) (row : observation) : bool :=
  in_ids station_ids (station_id row)
  && (MIN_YEAR <=? yr row) && (yr row <=? MAX_YEAR).

(** The readings of the lines of [grp] that count, in file order. *)
Definition group_values (station_ids : list string) (grp : list observation)
    : list (list Z) :=
  map monthly (filter (kept station_ids) grp).

(** [l1] does not end with a line of station [s]. *)
Definition ends_other (s : string) (l1 : list observation) : Prop :=
  l1 = [] \/ exists l x, l1 = l ++ [x] /\ station_id x <> s.

(** In the file [rows], [grp] is a whole run of lines of station [s],
    followed by the line [r] of another station. *)
Definition closed_group (rows : list observation) (s : string)
    (grp : list observation) : Prop :=
  exists l1 r l2,
    rows = l1 ++ grp ++ r :: l2 /\
    ends_other s l1 /\
    grp <> [] /\
    (forall x, In x grp -> station_id x = s) /\
    station_id r <> s.

(** What [data_gen] keeps while it reads the lines [done]: the lines
    since the last change of station are [grp], the values at hand are
    those of [grp] that count, and every pair yielded so far comes from
    a closed group of [done]. *)
Definition gen_inv (station_ids : list string) (done : list observation)
    (st : gen_state) : Prop :=
  (exists l1 grp,
     done = l1 ++ grp /\
     (grp = [] -> l1 = [] /\ curr_station st = EmptyString) /\
     ends_other (curr_station st) l1 /\
     (forall x, In x grp -> station_id x = curr_station st) /\
     curr_values st = group_values station_ids grp) /\
  forall s v, In (s, v) (yielded st) ->
    exists grp,
      closed_group done s grp /\
      s <> EmptyString /\
      (MIN_NUM_VALUES < List.length (group_values station_ids grp))%nat /\
      avg_monthly_values (group_values station_ids grp) = Ok v.

(** ** The lines of the files

    A file is the list of its lines.  The builtins [int] and [float]
    applied to a slice of a line are parameters, [py_int] and
    [py_float]: they return a number or raise.  A float that [float]
    returns is taken as the rational number it is (the infinities and
    the not-a-number value are left aside), so that comparisons are
    exact. *)

(** [s[a:b]] for [0 <= a <= b]: the characters from position [a] up to
    position [b], as far as the string goes. *)
Definition py_slice (s : string) (a b : nat) : string := substring a (b - a) s.

(** [xrange(a, b, step)] for a positive [step]. *)
Definition xrange (a b step : nat) : list nat :=
  map (fun i => (a + i * step)%nat) (seq 0 ((b - a + step - 1) / step)).

Definition parse_monthly_values (py_int : string -> result Z) (row : string)
    : result (list Z) :=
  mapM (fun n => py_int (py_slice row n (n + 5))) (xrange 19 115 8).

(** The body of the loop of [data_gen] on a line of the file: the year
    is read on every line, the readings only on the lines that count. *)
Definition data_gen_line (py_int : string -> result Z) (station_ids : list string)
    (st : gen_state) (row : string) : result gen_state :=
  let station := py_slice row 0 11 in
  y <- py_int (py_slice row 11 15) ;;
  st1 <- (if negb (String.eqb station (curr_station st)) then
            ys <- (if negb (String.eqb (curr_station st) EmptyString)
                      && (MIN_NUM_VALUES <? List.length (curr_values st))%nat
                   then
                     v <- avg_monthly_values (curr_values st) ;;
                     Ok (yielded st ++ [(curr_station st, v)])
                   else Ok (yielded st)) ;;
            Ok (Gen station [] ys)
          else Ok st) ;;
  if in_ids station_ids station && (MIN_YEAR <=? y) && (y <=? MAX_YEAR)
  then
    vals <- parse_monthly_values py_int row ;;
    Ok (Gen (curr_station st1) (curr_values st1 ++ [vals]) (yielded st1))
  else Ok st1.

(** [data_gen] on the lines of a file, run to exhaustion. *)
Definition data_gen_lines (py_int : string -> result Z) (lines : list string)
    (station_ids : list string) : result (list (string * list Z)) :=
  st <- foldM (data_gen_line py_int station_ids) lines (Gen EmptyString [] []) ;;
  Ok (yielded st).

(** What [data_gen] reads of one line: the station, the year and, on a
    line that counts, the readings (none otherwise). *)
Definition observe (py_int : string -> result Z) (station_ids : list string)
    (row : string) : result observation :=
  let station := py_slice row 0 11 in
  y <- py_int (py_slice row 11 15) ;;
  if in_ids station_ids station && (MIN_YEAR <=? y) && (y <=? MAX_YEAR)
  then
    vals <- parse_monthly_values py_int row ;;
    Ok (Obs station y vals)
  else Ok (Obs station y []).

(** ** Station metadata *)

Record station_meta : Type :=
  Meta { meta_id : string; lat : Q; lon : Q }.

Definition parse_id_lat_lon (py_float : string -> result Q) (row : string)
    : result station_meta :=
  la <- py_float (py_slice row 12 20) ;;
  lo <- py_float (py_slice row 21 30) ;;
  Ok (Meta (py_slice row 0 11) la lo).

Definition USA_COUNTRY_CODE : string := "425".
Definition MAX_LAT : Q := 49.
Definition MIN_LON : Q := -130.

(** [a < b] on floats. *)
Definition Qltb (a b : Q) : bool :=
  Qnum a * Zpos (Qden b) <? Qnum b * Zpos (Qden a).

(** A dictionary with string keys: the pairs of its keys and values,
    each key once.  The order in which Python enumerates a dictionary
    is not specified; the model keeps the order of first insertion, and
    the theorems on dictionaries speak of lookups and membership
    only. *)
Definition dict (V : Type) : Type := list (string * V).

(** [d.get(k)]: the value of [k], if [k in d]. *)
Fixpoint dict_get {V : Type} (d : dict V) (k : string) : option V :=
  match d with
  | [] => None
  | (k', v) :: d' => if String.eqb k k' then Some v else dict_get d' k
  end.

(** [k in d]. *)
Definition dict_mem {V : Type} (d : dict V) (k : string) : bool :=
  match dict_get d k with
  | Some _ => true
  | None => false
  end.

(** [d[k] = v]. *)
Fixpoint dict_set {V : Type} (d : dict V) (k : string) (v : V) : dict V :=
  match d with
  | [] => [(k, v)]
  | (k', v') :: d' =>
      if String.eqb k k' then (k, v) :: d' else (k', v') :: dict_set d' k v
  end.

(** [del d[k]] for a key of [d]. *)
Definition dict_del {V : Type} (d : dict V) (k : string) : dict V :=
  filter (fun p => negb (String.eqb k (fst p))) d.

(** [dict(pairs)]: a later pair replaces an earlier one of the same
    key. *)
Definition dict_of {V : Type} (pairs : list (string * V)) : dict V :=
  fold_left (fun d p => dict_set d (fst p) (snd p)) pairs [].

(** [d.keys()]. *)
Definition dict_keys {V : Type} (d : dict V) : list string := map fst d.

(** The three filters of [get_stationid_dict]. *)
Definition continental_usa (r : station_meta) : bool :=
  String.eqb (py_slice (meta_id r) 0 3) USA_COUNTRY_CODE
  && (Qltb (lat r) MAX_LAT && Qltb MIN_LON (lon r)).

(** The lines are parsed one after the other as the dictionary is
    built; a line that does not parse stops everything. *)
Definition get_stationid_dict (py_float : string -> result Q) (lines : list string)
    : result (dict (Q * Q)) :=
  rows <- mapM (parse_id_lat_lon py_float) lines ;;
  Ok (dict_of (map (fun r => (meta_id r, (lat r, lon r)))
                   (filter continental_usa rows))).

(** ** The data of [main] *)

(** The loop that deletes from [stationid_latlons] the stations absent
    from the metadata of the minima. *)
Definition common_stations (max_meta min_meta : dict (Q * Q)) : dict (Q * Q) :=
  fold_left (fun d k => if dict_mem min_meta k then d else dict_del d k)
            (dict_keys max_meta) max_meta.

(** [[[sid] + v + min_data[sid] for sid,v in ... if sid in min_data]]. *)
Definition assemble (max_data min_data : dict (list Z)) : list station_row :=
  flat_map (fun p =>
              match dict_get min_data (fst p) with
              | Some w => [Row (fst p) (snd p ++ w)]
              | None => []
              end)
           max_data.

(** [main] up to the clustering: the coordinates of the stations and
    the records to cluster. *)
Definition main_data (py_int : string -> result Z) (py_float : string -> result Q)
    (max_inv min_inv max_dat min_dat : list string)
    : result (dict (Q * Q) * list station_row) :=
  max_meta <- get_stationid_dict py_float max_inv ;;
  min_meta <- get_stationid_dict py_float min_inv ;;
  let stationid_latlons := common_stations max_meta min_meta in
  max_pairs <- data_gen_lines py_int max_dat (dict_keys stationid_latlons) ;;
  min_pairs <- data_gen_lines py_int min_dat (dict_keys stationid_latlons) ;;
  Ok (stationid_latlons, assemble (dict_of max_pairs) (dict_of min_pairs)).

(** A parser of unsigned decimal numbers, to have an instance of
    [py_int] at hand. *)
Fixpoint digits_value (s : string) (acc : Z) : result Z :=
  match s with
  | EmptyString => Ok acc
  | String c s' =>
      let n := Ascii.nat_of_ascii c in
      if ((48 <=? n) && (n <=? 57))%nat
      then digits_value s' (10 * acc + Z.of_nat (n - 48))
      else Raise ValueError
  end.

Definition digits_int (s : string) : result Z :=
  match s with
  | EmptyString => Raise ValueError
  | _ => digits_value s 0
  end.

(** A line of an observation file for the instance [digits_int]: the
    station, the year, the element and 12 readings of 5 digits, each
    followed by 3 flags. *)
Definition sample_line (station year : string) : string :=
  (station ++ year ++ "TMAX"
   ++ "00100   00110   00120   00130   00140   00150   "
   ++ "00160   00170   00180   00190   00200   00210   ")%string.

(** The lines of one station for the years 1981 to 2001 and one line
    of the next station. *)
Definition sample_file : list string :=
  map (sample_line "42500000001")
      ["1981"; "1982"; "1983"; "1984"; "1985"; "1986"; "1987"; "1988"; "1989";
       "1990"; "1991"; "1992"; "1993"; "1994"; "1995"; "1996"; "1997"; "1998";
       "1999"; "2000"; "2001"]%string
  ++ [sample_line "42500000002" "1981"].

(** An instance of [py_float] on unsigned whole numbers, and lines of a
    metadata file for it: the station, the latitude in columns 12 to
    19 and the longitude in columns 21 to 29. *)
Definition digits_float (s : string) : result Q :=
  z <- digits_int s ;;
  Ok (inject_Z z).

Definition sample_meta_line (station : string) : string :=
  (station ++ " 00000045 000000100 NAME")%string.

(** The indices of the state are one per record, each below [k]. *)
Definition indices_fit (k : nat) (monthly_data : list station_row)
    (st : loop_state) : Prop :=
  List.length (indices st) = List.length monthly_data /\
  forall c, In c (indices st) -> (c < k)%nat.

(** Twelve readings, and the observations of one station over 21
    years followed by one observation of the next station. *)
Definition sample_values : list Z :=
  [10; 20; 30; 40; 50; 60; 70; 80; 90; 100; 110; 120].

Definition sample_observations : list observation :=
  station_years "42500000001" sample_values 1981 21
  ++ [Obs "42500000002" 1981 sample_values].

(** ** The range in which the double precision operations are exact

    The engine hands two kinds of integers to double precision
    arithmetic: the radicand of a distance to [math.sqrt], and the sum
    of a cluster or of a calendar position to [float] before the
    division and [round].  The theorems on the values that come out of
    these operations are stated for integers in the ranges below, where
    the doubles order and round as the exact numbers do. *)

(** A radicand whose double precision square root is ordered as the
    radicand is. *)
Definition sqrt_range (s : Z) : Prop := s < 2 ^ 51.

(** A dividend whose double precision quotient rounds as the exact
    quotient does. *)
Definition round_range (x : Z) : Prop := Z.abs x < 2 ^ 52.

(** Every distance between a record and a centroid has its radicand in
    [sqrt_range]. *)
Definition distances_in_range (monthly_data : list station_row)
    (cs : list (list Z)) : Prop :=
  forall row c, In row monthly_data -> In c cs ->
    sqrt_range (sqdist (feats row) c).

(** Every component sum of every cluster is in [round_range]. *)
Definition sums_in_range (d k : nat) (monthly_data : list station_row)
    (idx : list nat) : Prop :=
  forall c j, (c < k)%nat -> (j < d)%nat ->
    round_range (component_sum (members monthly_data idx c) j).

(** Every component sum of a cluster is at most [B] times the number
    of records of the cluster, in absolute value. *)
Definition sums_in_range_by (B : Z) (d : nat) (monthly_data : list station_row)
    (idx : list nat) : Prop :=
  forall c j, (j < d)%nat ->
    Z.abs (component_sum (members monthly_data idx c) j)
    <= Z.of_nat (List.length (members monthly_data idx c)) * B.

(** Every component of the vector is at most [B] in absolute value. *)
Definition within (B : Z) (v : list Z) : Prop :=
  forall x, In x v -> Z.abs x <= B.

(** ** Examples from the test suite *)

Example test_find_closest_centroids :
  find_closest_centroids
    [Row EmptyString [0; 1]; Row EmptyString [3; 1]; Row EmptyString [6; 1]]
    [[0; 0]; [3; 4]; [6; 0]] = Ok [0%nat; 1%nat; 2%nat].
Proof. reflexivity. Qed.

Example test_compute_centroids :
  compute_centroids
    [Row EmptyString [0; 1]; Row EmptyString [3; 3]; Row EmptyString [6; 1]]
    [0%nat; 1%nat; 0%nat] 2 = Ok [[3; 1]; [3; 3]].
Proof. reflexivity. Qed.

(** ** Basic facts: the monad, sums, positions *)

Lemma bind_ok {A B : Type} (m : result A) (f : A -> result B) (b : B) :
  bind m f = Ok b -> exists a, m = Ok a /\ f a = Ok b.
Proof.
  destruct m as [a|e]; simpl; intros H; [eauto | discriminate].
Qed.

Lemma mapM_total {A B : Type} (f : A -> result B) (g : A -> B) (l : list A) :
  (forall x, In x l -> f x = Ok (g x)) -> mapM f l = Ok (map g l).
Proof.
  induction l as [|x l IH]; intros H; simpl; [reflexivity|].
  rewrite (H x (or_introl eq_refl)); simpl.
  rewrite IH; [reflexivity|].
  intros y Hy; apply H; right; exact Hy.
Qed.

Lemma mapM_length {A B : Type} (f : A -> result B) (l : list A) (r : list B) :
  mapM f l = Ok r -> List.length r = List.length l.
Proof.
  revert r; induction l as [|x l IH]; simpl; intros r H.
  - injection H as <-; reflexivity.
  - apply bind_ok in H as (y & _ & H).
    apply bind_ok in H as (ys & Hys & H).
    injection H as <-; simpl; f_equal; apply IH; exact Hys.
Qed.

Lemma mapM_nth {A B : Type} (f : A -> result B) (l : list A) (r : list B) :
  mapM f l = Ok r ->
  forall i x, nth_error l i = Some x ->
  exists y, nth_error r i = Some y /\ f x = Ok y.
Proof.
  revert r; induction l as [|a l IH]; simpl; intros r H i x Hi.
  - destruct i; discriminate.
  - apply bind_ok in H as (y & Hy & H).
    apply bind_ok in H as (ys & Hys & H).
    injection H as <-.
    destruct i as [|i]; simpl in *.
    + injection Hi as <-; eauto.
    + eapply IH; eauto.
Qed.

Lemma fold_left_add_shift (l : list Z) (a : Z) :
  fold_left Z.add l a = a + fold_left Z.add l 0.
Proof.
  revert a; induction l as [|x l IH]; intros a; simpl; [lia|].
  rewrite (IH (a + x)), (IH x); lia.
Qed.

Lemma py_sum_nil : py_sum [] = 0.
Proof. reflexivity. Qed.

Lemma py_sum_cons (x : Z) (l : list Z) : py_sum (x :: l) = x + py_sum l.
Proof.
  unfold py_sum; simpl; apply fold_left_add_shift.
Qed.

Lemma py_sum_app (l1 l2 : list Z) : py_sum (l1 ++ l2) = py_sum l1 + py_sum l2.
Proof.
  induction l1 as [|x l1 IH]; [reflexivity|].
  simpl app; rewrite !py_sum_cons, IH; lia.
Qed.

Lemma py_sum_nonneg (l : list Z) : (forall x, In x l -> 0 <= x) -> 0 <= py_sum l.
Proof.
  induction l as [|x l IH]; intros H; [rewrite py_sum_nil; lia|].
  rewrite py_sum_cons.
  assert (0 <= x) by (apply H; left; reflexivity).
  assert (0 <= py_sum l) by (apply IH; intros y Hy; apply H; right; exact Hy).
  lia.
Qed.

Lemma sqdist_nil_l (v : list Z) : sqdist [] v = 0.
Proof. reflexivity. Qed.

Lemma sqdist_nil_r (u : list Z) : sqdist u [] = 0.
Proof. destruct u; reflexivity. Qed.

Lemma sqdist_cons (x y : Z) (u v : list Z) :
  sqdist (x :: u) (y :: v) = (x - y) ^ 2 + sqdist u v.
Proof.
  unfold sqdist; simpl combine; simpl map; rewrite py_sum_cons; reflexivity.
Qed.

Lemma sqdist_nonneg (u v : list Z) : 0 <= sqdist u v.
Proof.
  revert v; induction u as [|x u IH]; intros v; [rewrite sqdist_nil_l; lia|].
  destruct v as [|y v]; [rewrite sqdist_nil_r; lia|].
  rewrite sqdist_cons; specialize (IH v); nia.
Qed.

(** The order of distances is the order of their radicands. *)
Lemma dist_val_le (a b : distance) :
  0 <= radicand a -> radicand a <= radicand b -> (dist_val a <= dist_val b)%R.
Proof.
  intros Ha Hab; unfold dist_val.
  apply sqrt_le_1_alt, IZR_le; exact Hab.
Qed.

Lemma dist_val_eq (a b : distance) :
  0 <= radicand a -> 0 <= radicand b ->
  dist_val a = dist_val b -> radicand a = radicand b.
Proof.
  intros Ha Hb H; unfold dist_val in H.
  apply eq_IZR, sqrt_inj; [apply IZR_le; exact Ha | apply IZR_le; exact Hb | exact H].
Qed.

Lemma test_dist : dist_val (dist [3; 4] [0; 0]) = 5%R /\ dist_val (dist [0; 0] [3; 4]) = 5%R.
Proof.
  assert (H : sqrt 25 = 5%R).
  { replace 25%R with (5 * 5)%R by lra. apply sqrt_square; lra. }
  split; unfold dist_val;
    match goal with |- sqrt (IZR ?z) = _ =>
      let v := eval vm_compute in z in change z with v end; exact H.
Qed.

(** ** The assignment phase picks the first nearest centroid *)

Lemma enumerate_cons {A : Type} (x : A) (l : list A) :
  enumerate (x :: l) = (O, x) :: combine (seq 1 (List.length l)) l.
Proof. reflexivity. Qed.

(** The scan over positions [s, s+1, ...], started with a pair found at
    an earlier position. *)
Lemma min_scan_enum (ds : list distance) :
  forall (s : nat) (best : nat * distance),
  (fst best < s)%nat ->
  let p := min_scan best (combine (seq s (List.length ds)) ds) in
  (p = best \/
   ((s <= fst p)%nat /\ nth_error ds (fst p - s) = Some (snd p) /\
    radicand (snd p) < radicand (snd best))) /\
  radicand (snd p) <= radicand (snd best) /\
  (forall j d, nth_error ds j = Some d ->
     radicand (snd p) <= radicand d /\
     (radicand d = radicand (snd p) -> (fst p <= s + j)%nat)).
Proof.
  induction ds as [|d ds IH]; intros s best Hs; simpl; cbv zeta.
  - split; [left; reflexivity|]. split; [lia|].
    intros [|j] d' H; discriminate.
  - set (best' := if dist_ltb d (snd best) then (s, d) else best).
    assert (Hs' : (fst best' < S s)%nat).
    { unfold best'; destruct (dist_ltb _ _); simpl; lia. }
    pose proof (IH (S s) best' Hs') as IH'; cbv zeta in IH'.
    destruct IH' as (Hp & Hle & Hall).
    set (p := min_scan best' (combine (seq (S s) (List.length ds)) ds)) in *.
    assert (Hb : radicand (snd best') <= radicand (snd best) /\
                 radicand (snd best') <= radicand d /\
                 (best' = best \/
                  (best' = (s, d) /\ radicand d < radicand (snd best)))).
    { unfold best', dist_ltb; simpl.
      destruct (Z.ltb_spec (radicand d) (radicand (snd best))); simpl.
      - repeat split; try lia. right; split; [reflexivity | lia].
      - repeat split; try lia. left; reflexivity. }
    destruct Hb as (Hb1 & Hb2 & Hb3).
    split; [|split].
    + destruct Hp as [Hp | (Hp1 & Hp2 & Hp3)].
      * destruct Hb3 as [Hb3 | (Hb3 & Hb4)].
        -- left; congruence.
        -- right; rewrite Hp, Hb3; simpl.
           rewrite Nat.sub_diag; simpl; repeat split; [lia | exact Hb4].
      * right; split; [lia|]. split; [|lia].
        replace (fst p - s)%nat with (S (fst p - S s)) by lia. exact Hp2.
    + lia.
    + intros [|j] d' Hd'; simpl in Hd'.
      * injection Hd' as <-. split; [lia|].
        intros Heq.
        destruct Hp as [Hp | (Hp1 & Hp2 & Hp3)]; [|lia].
        rewrite Hp; lia.
      * destruct (Hall j d' Hd') as (H1 & H2).
        split; [exact H1|]. intros Heq; specialize (H2 Heq); lia.
Qed.

Lemma py_min_by_snd_enumerate (ds : list distance) :
  ds <> [] ->
  exists p, py_min_by_snd (enumerate ds) = Ok p /\
    nth_error ds (fst p) = Some (snd p) /\
    (forall j d, nth_error ds j = Some d ->
       radicand (snd p) <= radicand d /\
       (radicand d = radicand (snd p) -> (fst p <= j)%nat)).
Proof.
  destruct ds as [|d0 ds]; [congruence|]; intros _.
  rewrite enumerate_cons; simpl py_min_by_snd.
  eexists; split; [reflexivity|].
  assert (H0 : (fst (O, d0) < 1)%nat) by (simpl; lia).
  pose proof (min_scan_enum ds 1 (O, d0) H0) as Hscan; cbv zeta in Hscan.
  destruct Hscan as (Hp & Hle & Hall).
  set (p := min_scan (O, d0) (combine (seq 1 (List.length ds)) ds)) in *.
  simpl in Hle, Hp.
  split.
  - destruct Hp as [Hp | (Hp1 & Hp2 & Hp3)].
    + rewrite Hp; reflexivity.
    + replace (fst p) with (S (fst p - 1)) by lia. exact Hp2.
  - intros [|j] d Hd; simpl in Hd.
    + injection Hd as <-. split; [lia|]. intros Heq.
      destruct Hp as [Hp | (Hp1 & Hp2 & Hp3)]; [rewrite Hp; simpl; lia | lia].
    + destruct (Hall j d Hd) as (H1 & H2). split; [exact H1|].
      intros Heq; specialize (H2 Heq); lia.
Qed.

Lemma closest_spec (cs : list (list Z)) (row : station_row) :
  cs <> [] ->
  exists j c, closest cs row = Ok j /\ nth_error cs j = Some c /\
    (forall j' c', nth_error cs j' = Some c' ->
       sqdist (feats row) c <= sqdist (feats row) c' /\
       (sqdist (feats row) c' = sqdist (feats row) c -> (j <= j')%nat)).
Proof.
  intros Hcs; unfold closest.
  destruct (py_min_by_snd_enumerate (map (fun c => dist (feats row) c) cs))
    as (p & Hmin & Hnth & Hall).
  { destruct cs; [congruence | discriminate]. }
  rewrite Hmin; simpl.
  rewrite nth_error_map in Hnth.
  destruct (nth_error cs (fst p)) as [c|] eqn:Hc; [|discriminate].
  injection Hnth as Hd.
  exists (fst p), c; split; [reflexivity|]. split; [exact Hc|].
  intros j' c' Hc'.
  specialize (Hall j' (dist (feats row) c')).
  rewrite nth_error_map, Hc' in Hall; specialize (Hall eq_refl).
  rewrite <- Hd in Hall; simpl in Hall. exact Hall.
Qed.

Lemma closest_lt (cs : list (list Z)) (row : station_row) (j : nat) :
  closest cs row = Ok j -> (j < List.length cs)%nat.
Proof.
  intros H.
  destruct cs as [|c0 cs]; [discriminate|].
  destruct (closest_spec (c0 :: cs) row) as (j' & c & Hj & Hc & _); [discriminate|].
  rewrite Hj in H; injection H as <-.
  apply nth_error_Some; congruence.
Qed.

Lemma find_closest_centroids_ok (data : list station_row) (cs : list (list Z)) :
  cs <> [] ->
  exists idx, find_closest_centroids data cs = Ok idx /\
    List.length idx = List.length data.
Proof.
  intros Hcs; unfold find_closest_centroids.
  induction data as [|r data (idx & IH & Hlen)]; simpl.
  - exists []; split; reflexivity.
  - destruct (closest_spec cs r Hcs) as (j & c & Hj & _).
    rewrite Hj, IH; simpl. exists (j :: idx); split; [reflexivity | simpl; lia].
Qed.

(** C3: with at least one centroid, [find_closest_centroids] returns one
    index per record: the index of a centroid at minimum Euclidean
    distance from the record's feature part, and the smallest such index
    when several centroids are at that distance; the points [0,1], [3,1],
    [6,1] against the centroids [0,0], [3,4], [6,0] get [0,1,2].  (The
    lengths need not agree for this: [dist] compares what [zip] pairs.)
    The sums of squares handed to [math.sqrt] are below [2^51], where
    the double precision square roots that [min] compares are ordered
    as the radicands are. *)
Theorem find_closest_centroids_nearest_first :
  (forall (monthly_data : list station_row) (cs : list (list Z)),
     cs <> [] ->
     distances_in_range monthly_data cs ->
     exists idx,
       find_closest_centroids monthly_data cs = Ok idx /\
       List.length idx = List.length monthly_data /\
       forall i row, nth_error monthly_data i = Some row ->
         exists j c,
           nth_error idx i = Some j /\ nth_error cs j = Some c /\
           forall j' c', nth_error cs j' = Some c' ->
             (dist_val (dist (feats row) c) <= dist_val (dist (feats row) c'))%R /\
             (dist_val (dist (feats row) c') = dist_val (dist (feats row) c) ->
              (j <= j')%nat)) /\
  find_closest_centroids
    [Row EmptyString [0; 1]; Row EmptyString [3; 1]; Row EmptyString [6; 1]]
    [[0; 0]; [3; 4]; [6; 0]] = Ok [0%nat; 1%nat; 2%nat].
Proof.
  split; [|reflexivity].
  intros data cs Hcs _.
  destruct (find_closest_centroids_ok data cs Hcs) as (idx & Hidx & Hlen).
  exists idx; split; [exact Hidx|]. split; [exact Hlen|].
  intros i row Hrow.
  destruct (mapM_nth _ _ _ Hidx i row Hrow) as (j & Hj & Hcl).
  destruct (closest_spec cs row Hcs) as (j0 & c & Hj0 & Hc & Hall).
  rewrite Hj0 in Hcl; injection Hcl as ->.
  exists j, c; split; [exact Hj|]. split; [exact Hc|].
  intros j' c' Hc'; destruct (Hall j' c' Hc') as (H1 & H2).
  split.
  - apply dist_val_le; simpl; [apply sqdist_nonneg | exact H1].
  - intros Heq; apply H2.
    apply (dist_val_eq (dist (feats row) c') (dist (feats row) c));
      simpl; auto using sqdist_nonneg.
Qed.

Lemma find_closest_centroids_nearest_first_witness :
  exists idx,
    find_closest_centroids [Row EmptyString [5; 5]] [[0; 0]; [5; 4]; [5; 6]] = Ok idx /\
    List.length idx = 1%nat /\
    forall i row, nth_error [Row EmptyString [5; 5]] i = Some row ->
      exists j c,
        nth_error idx i = Some j /\ nth_error [[0; 0]; [5; 4]; [5; 6]] j = Some c /\
        forall j' c', nth_error [[0; 0]; [5; 4]; [5; 6]] j' = Some c' ->
          (dist_val (dist (feats row) c) <= dist_val (dist (feats row) c'))%R /\
          (dist_val (dist (feats row) c') = dist_val (dist (feats row) c) ->
           (j <= j')%nat).
Proof.
  apply (proj1 find_closest_centroids_nearest_first
           [Row EmptyString [5; 5]] [[0; 0]; [5; 4]; [5; 6]]).
  - discriminate.
  - intros row c [<- | []] [<- | [<- | [<- | []]]]; reflexivity.
Defined.

(** ** No check of dimensions *)

Lemma sqdist_firstn (u v : list Z) :
  let m := Nat.min (List.length u) (List.length v) in
  sqdist u v = sqdist (firstn m u) (firstn m v).
Proof.
  revert v; induction u as [|x u IH]; intros v; simpl; [reflexivity|].
  destruct v as [|y v]; simpl; [reflexivity|].
  rewrite !sqdist_cons; f_equal; apply IH.
Qed.

(** C6, as stated, fails: records of three, one and two components
    against centroids of two components are assigned without any
    error, and the whole loop runs on them. *)
Lemma dimension_mismatch_undetected :
  let monthly_data := [Row "a" [0; 1; 5]; Row "b" [3]; Row "c" [6; 0]] in
  let cs := [[0; 1]; [3; 4]] in
  find_closest_centroids monthly_data cs = Ok [0%nat; 1%nat; 1%nat] /\
  dist [0; 1; 5] [0; 1] = Sqrt 0 /\
  (exists st,
     kmeans_loop false [Row "a" [0; 1]; Row "b" [3; 4; 9]] 2 ITERATIONS (Loop cs [] [])
     = Ok st).
Proof.
  split; [reflexivity|]. split; [reflexivity|].
  eexists; vm_compute; reflexivity.
Qed.

(** C6, amended: the engine checks no lengths and has no dimension
    error.  [dist] measures its arguments over their common prefix, the
    pairs that [zip] forms, and [find_closest_centroids] returns an
    assignment, one index per record, whenever there is a centroid at
    all, whatever the lengths. *)
Theorem dist_truncates_no_dimension_error :
  (forall u v : list Z,
     let m := Nat.min (List.length u) (List.length v) in
     dist u v = dist (firstn m u) (firstn m v)) /\
  (forall (monthly_data : list station_row) (cs : list (list Z)),
     cs <> [] ->
     exists idx, find_closest_centroids monthly_data cs = Ok idx /\
       List.length idx = List.length monthly_data).
Proof.
  split.
  - intros u v m; unfold dist; f_equal; apply sqdist_firstn.
  - apply find_closest_centroids_ok.
Qed.

Lemma dist_truncates_no_dimension_error_witness :
  exists idx,
    find_closest_centroids [Row "a" [0; 1; 5]; Row "b" [3]] [[0; 1]; [3; 4]] = Ok idx /\
    List.length idx = 2%nat.
Proof.
  apply (proj2 dist_truncates_no_dimension_error
           [Row "a" [0; 1; 5]; Row "b" [3]] [[0; 1]; [3; 4]]).
  discriminate.
Defined.

(** ** Rounding *)

Lemma round_half_away_nearest (x n : Z) :
  0 < n -> Z.abs (2 * x - 2 * n * round_half_away x n) <= n.
Proof.
  intros Hn; unfold round_half_away.
  rewrite (Z.sgn_pos n Hn), (Z.abs_eq n) by lia.
  pose proof (Z.div_mod (2 * Z.abs x + n) (2 * n) ltac:(lia)) as Hdm.
  pose proof (Z.mod_pos_bound (2 * Z.abs x + n) (2 * n) ltac:(lia)) as Hb.
  set (q := (2 * Z.abs x + n) / (2 * n)) in *.
  destruct (Z.sgn_spec x) as [(Hx & ->) | [(Hx & ->) | (Hx & ->)]]; lia.
Qed.

(** A half goes away from zero. *)
Lemma round_half_away_tie (q n : Z) :
  0 < n ->
  round_half_away ((2 * q + 1) * n) (2 * n) = (if 0 <=? q then q + 1 else q).
Proof.
  intros Hn; unfold round_half_away.
  rewrite (Z.sgn_pos (2 * n)), (Z.abs_eq (2 * n)) by lia.
  destruct (Z.leb_spec 0 q).
  - rewrite Z.sgn_pos, Z.abs_eq by nia.
    replace (2 * ((2 * q + 1) * n) + 2 * n) with ((q + 1) * (2 * (2 * n))) by ring.
    rewrite Z.div_mul by lia. lia.
  - rewrite Z.sgn_neg, Z.abs_neq by nia.
    replace (2 * - ((2 * q + 1) * n) + 2 * n) with ((- q) * (2 * (2 * n))) by ring.
    rewrite Z.div_mul by lia. lia.
Qed.

Lemma py_round_div_pos (x n : Z) :
  0 < n -> py_round_div x n = Ok (round_half_away x n).
Proof.
  intros Hn; unfold py_round_div.
  destruct (Z.eqb_spec n 0); [lia | reflexivity].
Qed.

(** ** Monthly averages *)

Lemma map_nth_seq (l : list Z) :
  l = map (fun m => nth m l 0) (seq 0 (List.length l)).
Proof.
  induction l as [|x l IH]; simpl; [reflexivity|].
  f_equal. rewrite <- seq_shift, map_map. exact IH.
Qed.

Lemma combine_map_same {A B C : Type} (f : A -> B) (g : A -> C) (l : list A) :
  combine (map f l) (map g l) = map (fun a => (f a, g a)) l.
Proof.
  induction l as [|a l IH]; simpl; [reflexivity | f_equal; exact IH].
Qed.

(** On rows of one length [d], [zip_star] gives the [d] columns. *)
Lemma zip_star_columns (d : nat) (ls : list (list Z)) :
  ls <> [] ->
  (forall l, In l ls -> List.length l = d) ->
  zip_star ls = map (fun m => map (fun l => nth m l 0) ls) (seq 0 d).
Proof.
  induction ls as [|l ls IH]; [congruence|]; intros _ Hlen.
  assert (Hl : List.length l = d) by (apply Hlen; left; reflexivity).
  destruct ls as [|l' ls].
  - simpl. rewrite (map_nth_seq l) at 1. rewrite Hl, map_map. reflexivity.
  - change (zip_star (l :: l' :: ls))
      with (map (fun p => fst p :: snd p) (combine l (zip_star (l' :: ls)))).
    rewrite IH; [| discriminate | intros x Hx; apply Hlen; right; exact Hx].
    rewrite (map_nth_seq l) at 1. rewrite Hl, combine_map_same, map_map.
    reflexivity.
Qed.

Lemma avg_monthly_values_columns (d : nat) (ls : list (list Z)) :
  ls <> [] ->
  (forall l, In l ls -> List.length l = d) ->
  avg_monthly_values ls =
  mapM (fun m => py_round_div (py_sum (readings_at ls m))
                   (Z.of_nat (List.length (readings_at ls m))))
       (seq 0 d).
Proof.
  intros Hne Hlen; unfold avg_monthly_values.
  rewrite (zip_star_columns d ls Hne Hlen), map_map.
  generalize (seq 0 d); intros s.
  induction s as [|m s IH]; simpl; [reflexivity|].
  rewrite IH; reflexivity.
Qed.

(** C7: when every year of a station has 12 readings and every calendar
    position has a reading that is not the sentinel -9999,
    [avg_monthly_values] returns 12 values, and the value at position
    [m] is the mean of the non-sentinel readings at [m] over the years,
    rounded to the nearest integer (a half away from zero); the sentinel
    readings enter neither the sum nor the count.  The sum of each
    position is below [2^52] in absolute value, where the double
    precision quotient rounds as the exact one. *)
Theorem avg_monthly_values_rounded_means (ls : list (list Z)) :
  (forall l, In l ls -> List.length l = 12%nat) ->
  (forall m, (m < 12)%nat -> exists l, In l ls /\ nth m l 0 <> MISSING) ->
  (forall m, (m < 12)%nat -> round_range (py_sum (readings_at ls m))) ->
  exists v,
    avg_monthly_values ls = Ok v /\
    List.length v = 12%nat /\
    forall m, (m < 12)%nat ->
      exists r,
        nth_error v m = Some r /\
        r = round_half_away (py_sum (readings_at ls m))
              (Z.of_nat (List.length (readings_at ls m))) /\
        is_rounded_mean (readings_at ls m) r /\
        (forall x, In x (readings_at ls m) <->
           x <> MISSING /\ exists l, In l ls /\ nth m l 0 = x).
Proof.
  intros Hlen Hsome _.
  assert (Hne : ls <> []).
  { destruct (Hsome O ltac:(lia)) as (l & Hl & _). intros ->; exact Hl. }
  assert (Hin : forall m x, In x (readings_at ls m) <->
            x <> MISSING /\ exists l, In l ls /\ nth m l 0 = x).
  { intros m x; unfold readings_at. rewrite filter_In, in_map_iff.
    unfold present. rewrite negb_true_iff, Z.eqb_neq.
    split.
    - intros ((l & Hl1 & Hl2) & Hx); split; [exact Hx | exists l; split; assumption].
    - intros (Hx & l & Hl1 & Hl2); split; [exists l; split; assumption | exact Hx]. }
  assert (Hpos : forall m, (m < 12)%nat ->
            0 < Z.of_nat (List.length (readings_at ls m))).
  { intros m Hm. destruct (Hsome m Hm) as (l & Hl & Hx).
    assert (Hr : In (nth m l 0) (readings_at ls m)) by (apply Hin; eauto).
    destruct (readings_at ls m); [contradiction | simpl; lia]. }
  rewrite (avg_monthly_values_columns 12 ls Hne Hlen).
  rewrite (mapM_total _
             (fun m => round_half_away (py_sum (readings_at ls m))
                         (Z.of_nat (List.length (readings_at ls m))))).
  2:{ intros m Hm; apply in_seq in Hm. apply py_round_div_pos, Hpos; lia. }
  eexists; split; [reflexivity|].
  split; [rewrite length_map, length_seq; reflexivity|].
  intros m Hm. eexists; split.
  - rewrite nth_error_map, nth_error_seq.
    destruct (Nat.ltb_spec m 12); [reflexivity | lia].
  - split; [reflexivity|]. split; [|apply Hin].
    split.
    + specialize (Hpos m Hm). destruct (readings_at ls m); [simpl in Hpos; lia | discriminate].
    + apply round_half_away_nearest, Hpos, Hm.
Qed.

Lemma avg_monthly_values_rounded_means_witness :
  exists v,
    avg_monthly_values
      [[10; 20; 30; 40; 50; 60; 70; 80; 90; 100; 110; 120];
       [11; -9999; 31; 41; 51; 61; 71; 81; 91; 101; 111; 123]] = Ok v /\
    nth_error v 0 = Some 11 /\ nth_error v 1 = Some 20 /\ nth_error v 11 = Some 122.
Proof.
  destruct (avg_monthly_values_rounded_means
              [[10; 20; 30; 40; 50; 60; 70; 80; 90; 100; 110; 120];
               [11; -9999; 31; 41; 51; 61; 71; 81; 91; 101; 111; 123]])
    as (v & Hv & _ & _).
  - intros l [<- | [<- | []]]; reflexivity.
  - intros m Hm; eexists; split; [left; reflexivity|].
    do 12 (destruct m as [|m]; [discriminate|]). lia.
  - intros m Hm.
    do 12 (destruct m as [|m]; [reflexivity|]). lia.
  - exists v; split; [exact Hv|].
    vm_compute in Hv; injection Hv as <-. repeat split; reflexivity.
Defined.

(** ** Division by zero in the aggregation *)

Lemma mapM_raises {A B : Type} (f : A -> result B) (e : exn) (l : list A) :
  (forall x e', In x l -> f x = Raise e' -> e' = e) ->
  (exists x, In x l /\ f x = Raise e) ->
  mapM f l = Raise e.
Proof.
  intros Honly (x & Hx & Hfx).
  induction l as [|a l IH]; [contradiction|]; simpl.
  destruct (f a) as [b|e'] eqn:Hfa; simpl.
  - destruct Hx as [-> | Hx]; [congruence|].
    rewrite IH; [reflexivity | | exact Hx].
    intros y e0 Hy; apply Honly; right; exact Hy.
  - f_equal; apply (Honly a); [left; reflexivity | exact Hfa].
Qed.

(** C8: for a station that passed the minimum count, with 12 readings in
    every year, if some calendar position has only sentinel readings,
    [avg_monthly_values] raises the division by zero and returns no
    vector. *)
Theorem avg_monthly_values_division_by_zero (ls : list (list Z)) :
  (MIN_NUM_VALUES < List.length ls)%nat ->
  (forall l, In l ls -> List.length l = 12%nat) ->
  (exists m, (m < 12)%nat /\ forall l, In l ls -> nth m l 0 = MISSING) ->
  avg_monthly_values ls = Raise ZeroDivisionError.
Proof.
  intros Hcount Hlen (m & Hm & Hall).
  assert (Hne : ls <> []) by (intros ->; simpl in Hcount; lia).
  rewrite (avg_monthly_values_columns 12 ls Hne Hlen).
  apply mapM_raises.
  - intros x e' _ H; unfold py_round_div in H.
    destruct (_ =? 0); [congruence | discriminate].
  - exists m; split; [apply in_seq; lia|].
    assert (Hr : readings_at ls m = []).
    { unfold readings_at. clear Hcount Hlen Hne.
      induction ls as [|l ls IH]; simpl; [reflexivity|].
      rewrite (Hall l (or_introl eq_refl)); simpl.
      apply IH; intros l' Hl'; apply Hall; right; exact Hl'. }
    rewrite Hr; reflexivity.
Qed.

(** In [data_gen] the error comes up when the station is handed over,
    that is when the first line of the next station is read. *)
Example data_gen_division_by_zero :
  let v := [1; 2; 3; 4; 5; -9999; 7; 8; 9; 10; 11; 12] in
  data_gen (station_years "42500000001" v 1981 21 ++ [Obs "42500000002" 1981 v])
           ["42500000001"%string]
  = Raise ZeroDivisionError.
Proof. vm_compute; reflexivity. Qed.

Lemma avg_monthly_values_division_by_zero_witness :
  avg_monthly_values
    (repeat [1; 2; 3; 4; 5; -9999; 7; 8; 9; 10; 11; 12] 21)
  = Raise ZeroDivisionError.
Proof.
  apply avg_monthly_values_division_by_zero.
  - simpl; unfold MIN_NUM_VALUES; lia.
  - intros l Hl; apply repeat_spec in Hl; subst l; reflexivity.
  - exists 5%nat; split; [lia|].
    intros l Hl; apply repeat_spec in Hl; subst l; reflexivity.
Defined.

(** ** Initial centroids *)

Lemma randint_range (a b : Z) (g : rng) :
  a <= b -> a <= fst (randint a b g) <= b.
Proof.
  intros Hab; unfold randint; simpl.
  pose proof (Z.mod_pos_bound (g O) (b - a + 1) ltac:(lia)); lia.
Qed.

Lemma initial_centroids_length (k : nat) :
  forall g, List.length (fst (initial_centroids k g)) = k.
Proof.
  induction k as [|k IH]; intros g; simpl; [reflexivity|].
  specialize (IH (fun n => g (S n))).
  destruct (initial_centroids k _); simpl in *; congruence.
Qed.

Lemma initial_centroids_nth (k : nat) :
  forall g i, (i < k)%nat ->
  nth_error (fst (initial_centroids k g)) i =
  Some (shifted (fst (randint (-800) 800 (fun n => g (i + n)%nat)))).
Proof.
  induction k as [|k IH]; intros g i Hi; [lia|]; simpl.
  specialize (IH (fun n => g (S n))).
  destruct (initial_centroids k _) as [cs g2] eqn:E; simpl in *.
  destruct i as [|i]; simpl; [reflexivity|].
  apply IH; lia.
Qed.

(** C9: the initializer returns exactly [k] centroids; each has the 24
    components of the base vector and is the base vector with one shift
    added to every component; the shift of the [i]-th centroid is the
    [i]-th draw of the random source, mapped into [-800, 800], and every
    choice of [k] shifts in that range comes from some random source. *)
Theorem initial_centroids_shifted_base :
  (forall (k : nat) (g : rng),
     List.length (fst (initial_centroids k g)) = k /\
     forall i, (i < k)%nat ->
       exists s c,
         nth_error (fst (initial_centroids k g)) i = Some c /\
         s = -800 + g i mod 1601 /\
         -800 <= s <= 800 /\
         List.length c = 24%nat /\
         List.length c = List.length base /\
         c = map (fun x => x + s) base) /\
  (forall ss : list Z,
     (forall s, In s ss -> -800 <= s <= 800) ->
     fst (initial_centroids (List.length ss) (draws_for ss)) = map shifted ss).
Proof.
  split.
  - intros k g; split; [apply initial_centroids_length|].
    intros i Hi.
    exists (-800 + g i mod 1601), (shifted (-800 + g i mod 1601)).
    split; [|split; [reflexivity|split; [|split; [reflexivity|split; reflexivity]]]].
    + rewrite (initial_centroids_nth k g i Hi). unfold randint; cbn [fst].
      rewrite Nat.add_0_r. reflexivity.
    + pose proof (Z.mod_pos_bound (g i) 1601 ltac:(lia)); lia.
  - intros ss Hss.
    apply nth_error_ext; intros i.
    destruct (Nat.lt_ge_cases i (List.length ss)) as [Hi | Hi].
    + rewrite (initial_centroids_nth _ _ i Hi), nth_error_map.
      destruct (nth_error ss i) as [s|] eqn:Hs;
        [| apply nth_error_None in Hs; lia].
      unfold randint, draws_for; cbn [fst]; rewrite Nat.add_0_r.
      rewrite (nth_error_nth _ _ 0 Hs).
      assert (-800 <= s <= 800) by (apply Hss; eapply nth_error_In; eauto).
      change (800 - -800 + 1) with 1601.
      rewrite Z.mod_small by lia. cbn [option_map]. do 2 f_equal. lia.
    + rewrite (proj2 (nth_error_None _ _)), (proj2 (nth_error_None _ _));
        [reflexivity | rewrite length_map; exact Hi
        | rewrite initial_centroids_length; exact Hi].
Qed.

Lemma initial_centroids_shifted_base_witness :
  fst (initial_centroids 3 (draws_for [-800; 0; 800])) =
  [shifted (-800); shifted 0; shifted 800].
Proof.
  apply (proj2 initial_centroids_shifted_base [-800; 0; 800]).
  intros s [<- | [<- | [<- | []]]]; lia.
Defined.

(** ** The last station of the observation file *)

(** A file that holds one station yields nothing, however many of its
    lines count: the values of the current station are only handed over
    when a line of another station follows. *)
Lemma data_gen_single_station (ids : list string) (s : string)
    (rows : list observation) :
  (forall r, In r rows -> station_id r = s) ->
  data_gen rows ids = Ok [].
Proof.
  intros Hall; unfold data_gen.
  assert (H : forall st, yielded st = [] ->
            (curr_station st = EmptyString \/ curr_station st = s) ->
            exists st', foldM (data_gen_row ids) rows st = Ok st' /\ yielded st' = []).
  { induction rows as [|r rows IH]; intros st Hy Hc; simpl.
    - exists st; split; [reflexivity | exact Hy].
    - assert (Hr : station_id r = s) by (apply Hall; left; reflexivity).
      assert (Hstep : exists st1, data_gen_row ids st r = Ok st1 /\
                yielded st1 = [] /\ curr_station st1 = s).
      { unfold data_gen_row; rewrite Hr.
        destruct (String.eqb_spec s (curr_station st)) as [He | He]; simpl.
        - destruct (in_ids ids s && _ && _); eexists; simpl; eauto.
        - destruct Hc as [Hc | Hc]; [|congruence].
          rewrite Hc, String.eqb_refl; simpl.
          destruct (in_ids ids s && _ && _); eexists; simpl; eauto. }
      destruct Hstep as (st1 & Hst1 & Hy1 & Hc1).
      rewrite Hst1; simpl.
      apply IH; [intros r' Hr'; apply Hall; right; exact Hr' | exact Hy1 | right; exact Hc1]. }
  destruct (H (Gen EmptyString [] [])) as (st' & Hst' & Hy'); [reflexivity | left; reflexivity |].
  rewrite Hst'; simpl; rewrite Hy'; reflexivity.
Qed.

(** C2 at its failing input: an eligible station with 21 lines in the
    years 1981 to 2001, alone in the file, is not emitted; the same
    station followed by a line of another station is. *)
Theorem data_gen_drops_last_station :
  let v := [10; 20; 30; 40; 50; 60; 70; 80; 90; 100; 110; 120] in
  data_gen (station_years "42500000001" v 1981 21) ["42500000001"%string] = Ok [] /\
  data_gen (station_years "42500000001" v 1981 21 ++ [Obs "42500000002" 1981 v])
           ["42500000001"%string]
  = Ok [("42500000001"%string, v)].
Proof.
  split; vm_compute; reflexivity.
Qed.

(** ** The update phase: the accumulation *)

Lemma py_get_ok {A : Type} (l : list A) (i : nat) (x : A) :
  nth_error l i = Some x -> py_get l i = Ok x.
Proof. unfold py_get; intros ->; reflexivity. Qed.

Lemma py_get_inv {A : Type} (l : list A) (i : nat) (x : A) :
  py_get l i = Ok x -> nth_error l i = Some x.
Proof. unfold py_get; destruct (nth_error l i); congruence. Qed.

Lemma py_set_app {A : Type} (pre rest : list A) (x y : A) :
  py_set (pre ++ x :: rest) (List.length pre) y = Ok (pre ++ y :: rest).
Proof.
  induction pre as [|a pre IH]; simpl; [reflexivity|].
  rewrite IH; reflexivity.
Qed.

Lemma py_set_spec {A : Type} (l : list A) (i : nat) (y : A) :
  (i < List.length l)%nat ->
  exists l', py_set l i y = Ok l' /\ List.length l' = List.length l /\
    forall j, nth_error l' j = if Nat.eqb j i then Some y else nth_error l j.
Proof.
  revert i; induction l as [|a l IH]; intros i Hi; simpl in Hi; [lia|].
  destruct i as [|i]; simpl.
  - eexists; split; [reflexivity|]. split; [reflexivity|].
    intros [|j]; reflexivity.
  - destruct (IH i ltac:(lia)) as (l' & Hset & Hlen & Hnth).
    rewrite Hset; simpl. eexists; split; [reflexivity|].
    split; [simpl; lia|].
    intros [|j]; simpl; [reflexivity | apply Hnth].
Qed.

Lemma inner_loop (get : nat -> result Z) :
  forall (fs rest pre : list Z),
  List.length rest = List.length fs ->
  (forall j x, nth_error fs j = Some x -> get (List.length pre + j)%nat = Ok x) ->
  foldM (fun a j => x <- get j ;; add_at a j x)
        (seq (List.length pre) (List.length fs)) (pre ++ rest)
  = Ok (pre ++ zip_add rest fs).
Proof.
  induction fs as [|f fs IH]; intros rest pre Hlen Hget.
  - destruct rest; [reflexivity | discriminate].
  - destruct rest as [|r rest]; [discriminate|].
    cbn [List.length seq foldM].
    pose proof (Hget O f eq_refl) as H0. rewrite Nat.add_0_r in H0.
    rewrite H0; cbn [bind]. unfold add_at.
    rewrite (py_get_ok (pre ++ r :: rest) _ r)
      by (rewrite nth_error_app2, Nat.sub_diag by lia; reflexivity).
    cbn [bind]. rewrite py_set_app; cbn [bind].
    change (pre ++ (r + f) :: rest) with (pre ++ [r + f] ++ rest).
    rewrite app_assoc.
    replace (S (List.length pre)) with (List.length (pre ++ [r + f]))
      by (rewrite length_app; simpl; lia).
    rewrite IH.
    + rewrite <- app_assoc; reflexivity.
    + simpl in Hlen; lia.
    + intros j x Hj. rewrite length_app; cbn [List.length].
      replace (List.length pre + 1 + j)%nat with (List.length pre + S j)%nat by lia.
      apply Hget; exact Hj.
Qed.

Lemma fn_ok (d : nat) (indices : list nat) (agg : list (list Z))
    (i c : nat) (ls : station_row) (row : list Z) :
  nth_error indices i = Some c ->
  nth_error agg c = Some row ->
  List.length row = S d ->
  List.length (feats ls) = d ->
  exists agg',
    fn (S d) indices agg (i, ls) = Ok agg' /\
    List.length agg' = List.length agg /\
    forall c', nth_error agg' c' =
      if Nat.eqb c' c then Some (bump row (feats ls)) else nth_error agg c'.
Proof.
  intros Hi Hc Hrow Hls.
  destruct row as [|cnt sums]; [discriminate|].
  unfold fn. rewrite (py_get_ok _ _ _ Hi); simpl.
  rewrite (py_get_ok _ _ _ Hc); simpl.
  replace (d - 0)%nat with (List.length (feats ls)) by lia.
  pose proof (inner_loop (row_get ls) (feats ls) sums [cnt + 1]) as Hin.
  cbn [List.length app] in Hin. rewrite Hin.
  - simpl. apply py_set_spec. apply nth_error_Some; congruence.
  - simpl in Hrow; lia.
  - intros j x Hj. cbn [Nat.add row_get]. apply py_get_ok; exact Hj.
Qed.

Lemma members_cons (r : station_row) (data : list station_row) (c0 : nat)
    (idx : list nat) (c : nat) :
  members (r :: data) (c0 :: idx) c =
  if Nat.eqb c0 c then feats r :: members data idx c else members data idx c.
Proof.
  unfold members; simpl. destruct (Nat.eqb c0 c); reflexivity.
Qed.

Lemma bump_length (d : nat) (row v : list Z) :
  List.length row = S d -> List.length v = d -> List.length (bump row v) = S d.
Proof.
  destruct row as [|cnt sums]; [discriminate|]; simpl; intros H1 H2.
  unfold zip_add; rewrite length_map, length_combine; lia.
Qed.

Lemma foldM_fn_spec (d k : nat) :
  forall (data : list station_row) (idx pre : list nat) (agg : list (list Z)),
  uniform d data ->
  (forall i, (i < List.length data)%nat ->
     exists c, nth_error idx i = Some c /\ (c < k)%nat) ->
  List.length agg = k ->
  (forall row, In row agg -> List.length row = S d) ->
  exists agg',
    foldM (fn (S d) (pre ++ idx))
          (combine (seq (List.length pre) (List.length data)) data) agg = Ok agg' /\
    List.length agg' = k /\
    forall c, (c < k)%nat ->
      exists row, nth_error agg c = Some row /\
        nth_error agg' c = Some (fold_left bump (members data idx c) row).
Proof.
  induction data as [|r data IH]; intros idx pre agg Hu Hidx Hk Hrows.
  - exists agg; split; [reflexivity|]. split; [exact Hk|].
    intros c Hc.
    destruct (nth_error agg c) as [row|] eqn:E;
      [| apply nth_error_None in E; lia].
    exists row; split; reflexivity.
  - destruct (Hidx O ltac:(simpl; lia)) as (c0 & Hc0 & Hc0k).
    destruct idx as [|c0' idx]; [discriminate|].
    simpl in Hc0; injection Hc0 as ->.
    destruct (nth_error agg c0) as [row0|] eqn:Hrow0;
      [| apply nth_error_None in Hrow0; lia].
    destruct (fn_ok d (pre ++ c0 :: idx) agg (List.length pre) c0 r row0)
      as (agg1 & Hfn & Hlen1 & Hnth1).
    { rewrite nth_error_app2, Nat.sub_diag by lia; reflexivity. }
    { exact Hrow0. }
    { apply Hrows; eapply nth_error_In; eauto. }
    { apply Hu; left; reflexivity. }
    cbn [List.length seq combine foldM].
    rewrite Hfn; cbn [bind].
    destruct (IH idx (pre ++ [c0]) agg1) as (agg' & Hfold & Hlen' & Hnth').
    + intros x Hx; apply Hu; right; exact Hx.
    + intros i Hi. destruct (Hidx (S i) ltac:(simpl; lia)) as (c & Hc & Hck).
      exists c; split; [exact Hc | exact Hck].
    + lia.
    + intros row Hrow. apply In_nth_error in Hrow as (c & Hc).
      rewrite Hnth1 in Hc. destruct (Nat.eqb c c0).
      * injection Hc as <-. apply bump_length.
        -- apply Hrows; eapply nth_error_In; eauto.
        -- apply Hu; left; reflexivity.
      * apply Hrows; eapply nth_error_In; eauto.
    + rewrite <- app_assoc in Hfold; simpl in Hfold.
      rewrite length_app in Hfold; simpl in Hfold.
      rewrite Nat.add_1_r in Hfold.
      exists agg'; split; [exact Hfold|]. split; [exact Hlen'|].
      intros c Hc. destruct (Hnth' c Hc) as (row1 & Hrow1 & Hres).
      rewrite Hnth1 in Hrow1. rewrite members_cons.
      destruct (Nat.eqb_spec c c0) as [-> | Hne].
      * injection Hrow1 as <-. rewrite Nat.eqb_refl.
        exists row0; split; [exact Hrow0 | exact Hres].
      * destruct (Nat.eqb_spec c0 c); [congruence|].
        exists row1; split; [exact Hrow1 | exact Hres].
Qed.

Lemma nth_zip_add (sums : list Z) :
  forall (v : list Z) (j : nat),
  List.length sums = List.length v ->
  nth j (zip_add sums v) 0 = nth j sums 0 + nth j v 0.
Proof.
  induction sums as [|s sums IH]; intros [|x v] j Hlen; try discriminate.
  - destruct j; reflexivity.
  - destruct j as [|j]; simpl; [reflexivity|].
    apply IH; simpl in Hlen; lia.
Qed.

Lemma zip_add_length (sums v : list Z) :
  List.length sums = List.length v -> List.length (zip_add sums v) = List.length sums.
Proof.
  intros H; unfold zip_add; rewrite length_map, length_combine; lia.
Qed.

Lemma component_sum_cons (v : list Z) (vs : list (list Z)) (j : nat) :
  component_sum (v :: vs) j = nth j v 0 + component_sum vs j.
Proof. unfold component_sum; simpl map; apply py_sum_cons. Qed.

Lemma fold_bump (d : nat) (vs : list (list Z)) :
  forall (cnt : Z) (sums : list Z),
  List.length sums = d ->
  (forall v, In v vs -> List.length v = d) ->
  fold_left bump vs (cnt :: sums) =
  (cnt + Z.of_nat (List.length vs)) ::
    map (fun j => nth j sums 0 + component_sum vs j) (seq 0 d).
Proof.
  induction vs as [|v vs IH]; intros cnt sums Hs Hvs.
  - simpl fold_left. f_equal; [simpl; lia|].
    rewrite (map_nth_seq sums) at 1. rewrite Hs.
    apply map_ext; intros j; unfold component_sum; simpl; rewrite py_sum_nil; lia.
  - assert (Hv : List.length v = d) by (apply Hvs; left; reflexivity).
    simpl fold_left.
    rewrite IH.
    + f_equal; [simpl List.length; lia|].
      apply map_ext; intros j.
      rewrite nth_zip_add, component_sum_cons by lia. lia.
    + rewrite zip_add_length; lia.
    + intros x Hx; apply Hvs; right; exact Hx.
Qed.

Lemma members_uniform (d : nat) (data : list station_row) (idx : list nat) (c : nat) :
  uniform d data -> forall v, In v (members data idx c) -> List.length v = d.
Proof.
  intros Hu v Hv; unfold members in Hv.
  apply in_map_iff in Hv as ((r & j) & <- & Hin).
  apply filter_In in Hin as (Hin & _).
  apply in_combine_l in Hin. apply Hu; exact Hin.
Qed.

Lemma nth_repeat_zero (j d : nat) : nth j (repeat 0 d) 0 = 0.
Proof.
  revert j; induction d as [|d IH]; intros [|j]; simpl; auto.
Qed.

(** The sums after the accumulation: for each cluster, the number of
    its records followed by the sums of their components. *)
Lemma sums_spec (d k : nat) (data : list station_row) (idx : list nat) :
  uniform d data ->
  assignment_below k data idx ->
  foldM (fn (S d) idx) (enumerate data) (zero_sums (S d) k) =
  Ok (map (fun c => Z.of_nat (List.length (members data idx c)) ::
                    map (component_sum (members data idx c)) (seq 0 d))
          (seq 0 k)).
Proof.
  intros Hu Hidx.
  destruct (foldM_fn_spec d k data idx [] (zero_sums (S d) k) Hu Hidx)
    as (agg' & Hfold & Hlen & Hnth).
  { unfold zero_sums; apply repeat_length. }
  { intros row Hrow; unfold zero_sums in Hrow.
    apply repeat_spec in Hrow; subst row; apply repeat_length. }
  simpl in Hfold. unfold enumerate. rewrite Hfold. f_equal.
  apply nth_error_ext; intros c.
  destruct (Nat.lt_ge_cases c k) as [Hc | Hc].
  - destruct (Hnth c Hc) as (row & Hrow & Hres).
    rewrite Hres, nth_error_map, nth_error_seq.
    destruct (Nat.ltb_spec c k); [|lia]. simpl option_map. f_equal.
    unfold zero_sums in Hrow.
    rewrite nth_error_repeat in Hrow by exact Hc.
    injection Hrow as <-. simpl repeat.
    rewrite (fold_bump d).
    + f_equal. apply map_ext; intros j. rewrite nth_repeat_zero; lia.
    + apply repeat_length.
    + apply members_uniform; exact Hu.
  - rewrite (proj2 (nth_error_None _ _)), (proj2 (nth_error_None _ _));
      [reflexivity | rewrite length_map, length_seq; exact Hc | lia].
Qed.

Lemma filter_map_comm {A B : Type} (f : B -> bool) (g : A -> B) (l : list A) :
  filter f (map g l) = map g (filter (fun a => f (g a)) l).
Proof.
  induction l as [|a l IH]; simpl; [reflexivity|].
  destruct (f (g a)); simpl; rewrite IH; reflexivity.
Qed.

(** The update phase computed by [compute_centroids]: the rounded means
    of the occupied clusters, in the order of the cluster indices. *)
Lemma compute_centroids_spec (d k : nat) (data : list station_row) (idx : list nat) :
  data <> [] ->
  uniform d data ->
  assignment_below k data idx ->
  compute_centroids data idx k =
  Ok (map (fun c => cluster_mean d (members data idx c)) (occupied data idx k)).
Proof.
  intros Hne Hu Hidx. unfold compute_centroids.
  destruct data as [|first rest]; [congruence|].
  change (py_get (first :: rest) 0) with (Ok first); cbn [bind]. unfold row_len.
  rewrite (Hu first (or_introl eq_refl)).
  rewrite (sums_spec d k _ idx Hu Hidx); cbn [bind].
  rewrite filter_map_comm.
  set (data := first :: rest) in *.
  assert (Hfilter :
    filter (fun c => row_nonempty
                       (Z.of_nat (List.length (members data idx c)) ::
                        map (component_sum (members data idx c)) (seq 0 d)))
           (seq 0 k) = occupied data idx k).
  { unfold occupied. apply filter_ext; intros c. simpl.
    destruct (members data idx c); reflexivity. }
  rewrite Hfilter.
  assert (Hocc : forall c, In c (occupied data idx k) ->
            0 < Z.of_nat (List.length (members data idx c))).
  { intros c Hc; unfold occupied in Hc. apply filter_In in Hc as (_ & Hc).
    destruct (members data idx c); [discriminate | simpl; lia]. }
  generalize dependent (occupied data idx k); intros occ _ Hocc.
  induction occ as [|c occ IH]; [reflexivity|].
  cbn [map mapM mean_row].
  rewrite (mapM_total _ (fun x => round_half_away x
                                    (Z.of_nat (List.length (members data idx c))))).
  2:{ intros x _; apply py_round_div_pos, Hocc; left; reflexivity. }
  cbn [bind]. rewrite IH by (intros c' Hc'; apply Hocc; right; exact Hc').
  cbn [bind]. unfold cluster_mean at 1. rewrite map_map. reflexivity.
Qed.

Lemma occupied_In (data : list station_row) (idx : list nat) (k c : nat) :
  In c (occupied data idx k) <-> (c < k)%nat /\ members data idx c <> [].
Proof.
  unfold occupied; rewrite filter_In, in_seq.
  destruct (members data idx c); simpl; split; intros (H1 & H2);
    (split; [lia | congruence]).
Qed.

Lemma occupied_length_le (data : list station_row) (idx : list nat) (k : nat) :
  (List.length (occupied data idx k) <= k)%nat.
Proof.
  unfold occupied.
  match goal with |- (List.length (filter ?f ?l) <= _)%nat =>
    pose proof (filter_length_le f l) as H end.
  rewrite length_seq in H; exact H.
Qed.

Lemma cluster_mean_length (d : nat) (vs : list (list Z)) :
  List.length (cluster_mean d vs) = d.
Proof. unfold cluster_mean; rewrite length_map, length_seq; reflexivity. Qed.

Lemma cluster_mean_nth (d : nat) (vs : list (list Z)) (j : nat) :
  (j < d)%nat ->
  nth_error (cluster_mean d vs) j =
  Some (round_half_away (component_sum vs j) (Z.of_nat (List.length vs))).
Proof.
  intros Hj; unfold cluster_mean. rewrite nth_error_map, nth_error_seq.
  destruct (Nat.ltb_spec j d); [reflexivity | lia].
Qed.

(** C4: on a non-empty dataset of records of one dimension [d], with an
    index below [k] for every record, [compute_centroids] returns, for
    the non-empty clusters in the order of their indices, the mean of the
    feature parts of the records of the cluster, component by component,
    each rounded to the nearest integer; the points [0,1] and [6,1] in
    cluster 0 and [3,3] in cluster 1 give [[3,1],[3,3]].  The component
    sums of the clusters are below [2^52] in absolute value, where the
    double precision quotient rounds as the exact one. *)
Theorem compute_centroids_rounded_means :
  (forall (d k : nat) (monthly_data : list station_row) (idx : list nat),
     monthly_data <> [] ->
     uniform d monthly_data ->
     assignment_below k monthly_data idx ->
     sums_in_range d k monthly_data idx ->
     exists cs,
       compute_centroids monthly_data idx k = Ok cs /\
       List.length cs = List.length (occupied monthly_data idx k) /\
       forall p c, nth_error (occupied monthly_data idx k) p = Some c ->
         exists v,
           nth_error cs p = Some v /\ List.length v = d /\
           forall j, (j < d)%nat ->
             exists r,
               nth_error v j = Some r /\
               is_rounded_mean
                 (map (fun x => nth j x 0) (members monthly_data idx c)) r) /\
  compute_centroids
    [Row EmptyString [0; 1]; Row EmptyString [3; 3]; Row EmptyString [6; 1]]
    [0%nat; 1%nat; 0%nat] 2 = Ok [[3; 1]; [3; 3]].
Proof.
  split; [|reflexivity].
  intros d k data idx Hne Hu Hidx _.
  rewrite (compute_centroids_spec d k data idx Hne Hu Hidx).
  eexists; split; [reflexivity|]. split; [apply length_map|].
  intros p c Hp.
  exists (cluster_mean d (members data idx c)).
  split; [rewrite nth_error_map, Hp; reflexivity|].
  split; [apply cluster_mean_length|].
  intros j Hj. eexists; split; [apply cluster_mean_nth; exact Hj|].
  assert (Hc : members data idx c <> []).
  { apply (occupied_In data idx k c). eapply nth_error_In; eauto. }
  split.
  - destruct (members data idx c); [congruence | discriminate].
  - rewrite length_map. apply round_half_away_nearest.
    destruct (members data idx c); [congruence | simpl; lia].
Qed.

Lemma compute_centroids_rounded_means_witness :
  exists cs,
    compute_centroids
      [Row "a" [0; 2]; Row "b" [3; 3]; Row "c" [7; 1]] [2%nat; 0%nat; 2%nat] 3 = Ok cs /\
    List.length cs = 2%nat.
Proof.
  destruct (proj1 compute_centroids_rounded_means 2%nat 3%nat
              [Row "a" [0; 2]; Row "b" [3; 3]; Row "c" [7; 1]] [2%nat; 0%nat; 2%nat])
    as (cs & Hcs & Hlen & _).
  - discriminate.
  - intros r [<- | [<- | [<- | []]]]; reflexivity.
  - intros i Hi; simpl in Hi.
    destruct i as [|[|[|i]]]; [| | | lia]; eexists; (split; [reflexivity | lia]).
  - intros c j Hc Hj.
    destruct c as [|[|[|c]]]; [| | | lia];
      (destruct j as [|[|j]]; [| | lia]); reflexivity.
  - exists cs; split; [exact Hcs | exact Hlen].
Defined.



(** ** The loop invariant *)

Lemma mapM_nth_inv {A B : Type} (f : A -> result B) (l : list A) (r : list B) :
  mapM f l = Ok r ->
  forall i y, nth_error r i = Some y ->
  exists x, nth_error l i = Some x /\ f x = Ok y.
Proof.
  revert r; induction l as [|a l IH]; simpl; intros r H i y Hi.
  - injection H as <-. destruct i; discriminate.
  - apply bind_ok in H as (b & Hb & H).
    apply bind_ok in H as (ys & Hys & H).
    injection H as <-.
    destruct i as [|i]; simpl in *.
    + injection Hi as <-; eauto.
    + eapply IH; eauto.
Qed.

Lemma find_closest_centroids_below (data : list station_row) (cs : list (list Z))
    (idx : list nat) :
  find_closest_centroids data cs = Ok idx ->
  List.length idx = List.length data /\
  forall i c, nth_error idx i = Some c -> (c < List.length cs)%nat.
Proof.
  intros H; split; [eapply mapM_length; exact H|].
  intros i c Hc.
  destruct (mapM_nth_inv _ _ _ H i c Hc) as (row & _ & Hrow).
  eapply closest_lt; exact Hrow.
Qed.

Lemma find_closest_centroids_assignment (data : list station_row)
    (cs : list (list Z)) (idx : list nat) (k : nat) :
  find_closest_centroids data cs = Ok idx ->
  (List.length cs <= k)%nat ->
  assignment_below k data idx.
Proof.
  intros H Hk i Hi.
  destruct (find_closest_centroids_below data cs idx H) as (Hlen & Hlt).
  destruct (nth_error idx i) as [c|] eqn:Hc;
    [| apply nth_error_None in Hc; lia].
  exists c; split; [reflexivity|]. specialize (Hlt i c Hc); lia.
Qed.

Lemma occupied_nonempty (data : list station_row) (idx : list nat) (k : nat) :
  data <> [] -> assignment_below k data idx -> occupied data idx k <> [].
Proof.
  intros Hne Hidx.
  destruct data as [|r data]; [congruence|].
  destruct (Hidx O ltac:(simpl; lia)) as (c & Hc & Hck).
  destruct idx as [|c' idx]; [discriminate|]. injection Hc as ->.
  assert (Hin : In c (occupied (r :: data) (c :: idx) k)).
  { apply occupied_In; split; [exact Hck|].
    rewrite members_cons, Nat.eqb_refl; discriminate. }
  intros E; rewrite E in Hin; exact Hin.
Qed.

Lemma iteration_inv (d k : nat) (verbose : bool) (data : list station_row)
    (st st' : loop_state) :
  data <> [] -> uniform d data ->
  loop_inv k st ->
  iteration verbose data k st = Ok st' ->
  loop_inv k st'.
Proof.
  intros Hne Hu (Hcs & Hk) H. unfold iteration in H.
  apply bind_ok in H as (idx & Hidx & H).
  apply bind_ok in H as (cs & Hcomp & H).
  pose proof (find_closest_centroids_assignment _ _ _ k Hidx Hk) as Hbelow.
  rewrite (compute_centroids_spec d k data idx Hne Hu Hbelow) in Hcomp.
  injection Hcomp as <-.
  assert (Hinv : loop_inv k (Loop (map (fun c => cluster_mean d (members data idx c))
                                       (occupied data idx k)) idx [])).
  { split; simpl.
    - pose proof (occupied_nonempty data idx k Hne Hbelow) as Ho.
      destruct (occupied data idx k); [congruence | discriminate].
    - rewrite length_map; apply occupied_length_le. }
  destruct verbose.
  - apply bind_ok in H as (q & _ & H). injection H as <-. exact Hinv.
  - injection H as <-. exact Hinv.
Qed.

Lemma iteration_quiet_ok (d k : nat) (data : list station_row) (st : loop_state) :
  data <> [] -> uniform d data ->
  loop_inv k st ->
  exists st', iteration false data k st = Ok st'.
Proof.
  intros Hne Hu (Hcs & Hk). unfold iteration.
  destruct (find_closest_centroids_ok data (centroids st) Hcs) as (idx & Hidx & _).
  rewrite Hidx; cbn [bind].
  pose proof (find_closest_centroids_assignment _ _ _ k Hidx Hk) as Hbelow.
  rewrite (compute_centroids_spec d k data idx Hne Hu Hbelow); cbn [bind].
  eexists; reflexivity.
Qed.

Lemma kmeans_loop_inv (d k : nat) (verbose : bool) (data : list station_row) :
  data <> [] -> uniform d data ->
  forall (t : nat) (st st' : loop_state),
  loop_inv k st ->
  kmeans_loop verbose data k t st = Ok st' ->
  loop_inv k st'.
Proof.
  intros Hne Hu t; induction t as [|t IH]; intros st st' Hinv H; simpl in H.
  - injection H as <-; exact Hinv.
  - apply bind_ok in H as (st1 & Hst1 & H).
    apply (IH st1 st'); [|exact H].
    eapply iteration_inv; eauto.
Qed.

Lemma kmeans_loop_quiet_ok (d k : nat) (data : list station_row) :
  data <> [] -> uniform d data ->
  forall (t : nat) (st : loop_state),
  loop_inv k st ->
  exists st', kmeans_loop false data k t st = Ok st'.
Proof.
  intros Hne Hu t; induction t as [|t IH]; intros st Hinv; simpl.
  - eexists; reflexivity.
  - destruct (iteration_quiet_ok d k data st Hne Hu Hinv) as (st1 & Hst1).
    rewrite Hst1; cbn [bind]. apply IH.
    eapply iteration_inv; eauto.
Qed.

(** C10: the invariant of the loop.  Started with [k >= 1] centroids on
    a non-empty dataset of records of one dimension, the state after any
    number of iterations has between 1 and [k] centroids; the indices
    that [find_closest_centroids] returns against them are one per record
    and below the number of centroids, hence below [k], the number of
    rows that [compute_centroids] allocates, and [compute_centroids] runs
    on them without an index error.  The run that prints no distortion
    reaches every iteration. *)
Theorem kmeans_loop_invariant (d k : nat) (monthly_data : list station_row)
    (cs0 : list (list Z)) :
  monthly_data <> [] ->
  uniform d monthly_data ->
  List.length cs0 = k ->
  (1 <= k)%nat ->
  forall t : nat,
    (exists st, kmeans_loop false monthly_data k t (Loop cs0 [] []) = Ok st) /\
    forall (verbose : bool) (st : loop_state),
      kmeans_loop verbose monthly_data k t (Loop cs0 [] []) = Ok st ->
      (1 <= List.length (centroids st) <= k)%nat /\
      exists idx cs',
        find_closest_centroids monthly_data (centroids st) = Ok idx /\
        List.length idx = List.length monthly_data /\
        (forall i c, nth_error idx i = Some c ->
           (c < List.length (centroids st))%nat /\ (c < k)%nat) /\
        compute_centroids monthly_data idx k = Ok cs'.
Proof.
  intros Hne Hu Hlen Hk t.
  assert (Hinit : loop_inv k (Loop cs0 [] [])).
  { split; simpl; [|lia]. destruct cs0; [simpl in Hlen; lia | discriminate]. }
  split; [eapply kmeans_loop_quiet_ok; eauto|].
  intros verbose st Hst.
  destruct (kmeans_loop_inv d k verbose monthly_data Hne Hu t _ _ Hinit Hst)
    as (Hcs & Hle).
  split.
  { destruct (centroids st); [congruence | simpl in *; lia]. }
  destruct (find_closest_centroids_ok monthly_data (centroids st) Hcs)
    as (idx & Hidx & Hl).
  pose proof (find_closest_centroids_assignment _ _ _ k Hidx Hle) as Hbelow.
  exists idx; eexists. split; [exact Hidx|]. split; [exact Hl|].
  split.
  - intros i c Hc.
    destruct (find_closest_centroids_below _ _ _ Hidx) as (_ & Hlt).
    specialize (Hlt i c Hc). lia.
  - apply (compute_centroids_spec d k monthly_data idx Hne Hu Hbelow).
Qed.

Lemma kmeans_loop_invariant_witness :
  exists st,
    kmeans_loop false [Row "a" [0; 1]; Row "b" [6; 1]; Row "c" [3; 3]] 2 5
      (Loop [[0; 0]; [3; 4]] [] []) = Ok st.
Proof.
  apply (kmeans_loop_invariant 2 2 [Row "a" [0; 1]; Row "b" [6; 1]; Row "c" [3; 3]]
           [[0; 0]; [3; 4]]).
  - discriminate.
  - intros r [<- | [<- | [<- | []]]]; reflexivity.
  - reflexivity.
  - lia.
Defined.

(** ** The distortion report *)

(** C1 at its failing input: one station whose profile is the base
    vector, and a random source whose first shift is -800 and whose
    other shifts are 0.  The station is nearest to centroid 1, cluster 0
    gets no record and is dropped, the new centroid list has one entry,
    and the report of the distortion looks up entry 1 of it: an index
    error in the first iteration, where the run without the report ends
    normally. *)
Theorem distortion_report_index_error :
  let monthly_data := [Row "42572494000" base] in
  let g := draws_for [-800] in
  find_closest_centroids monthly_data (fst (initial_centroids K g)) = Ok [1%nat] /\
  compute_centroids monthly_data [1%nat] K = Ok [base] /\
  compute_distortion monthly_data [base] [1%nat] = Raise IndexError /\
  run_kmeans true monthly_data g = Raise IndexError /\
  run_kmeans false monthly_data g = Ok (Loop [base] [0%nat] []).
Proof.
  repeat split; vm_compute; reflexivity.
Qed.

(** ** The cost of an assignment

    The two halves of the classical argument, on the integer sum of the
    squared distances: the assignment phase does not raise the cost for
    the centroids at hand, and the rounded mean is the best integer
    centroid of a cluster, so the update phase does not raise it
    either. *)

Lemma py_sum_map_le {A : Type} (f g : A -> Z) (l : list A) :
  (forall x, In x l -> f x <= g x) -> py_sum (map f l) <= py_sum (map g l).
Proof.
  induction l as [|a l IH]; intros H; cbn [map]; [lia|].
  rewrite !py_sum_cons.
  assert (f a <= g a) by (apply H; left; reflexivity).
  assert (py_sum (map f l) <= py_sum (map g l))
    by (apply IH; intros x Hx; apply H; right; exact Hx).
  lia.
Qed.

Lemma py_sum_map_add {A : Type} (f g : A -> Z) (l : list A) :
  py_sum (map (fun x => f x + g x) l) = py_sum (map f l) + py_sum (map g l).
Proof.
  induction l as [|a l IH]; cbn [map]; [reflexivity|].
  rewrite !py_sum_cons, IH; lia.
Qed.

Lemma py_sum_map_zero {A : Type} (l : list A) : py_sum (map (fun _ => 0) l) = 0.
Proof.
  induction l as [|a l IH]; cbn [map]; [reflexivity|].
  rewrite py_sum_cons, IH; reflexivity.
Qed.

Lemma py_sum_exchange {A B : Type} (F : A -> B -> Z) (vs : list A) (s : list B) :
  py_sum (map (fun v => py_sum (map (fun j => F v j) s)) vs) =
  py_sum (map (fun j => py_sum (map (fun v => F v j) vs)) s).
Proof.
  induction vs as [|v vs IH]; cbn [map].
  - rewrite py_sum_nil. symmetry; apply py_sum_map_zero.
  - rewrite py_sum_cons, IH.
    rewrite <- py_sum_map_add. f_equal.
    apply map_ext; intros j. rewrite py_sum_cons; reflexivity.
Qed.

Lemma sqdist_seq (d : nat) :
  forall v y : list Z,
  List.length v = d -> List.length y = d ->
  sqdist v y = py_sum (map (fun j => (nth j v 0 - nth j y 0) ^ 2) (seq 0 d)).
Proof.
  induction d as [|d IH]; intros v y Hv Hy.
  - destruct v; [reflexivity | discriminate].
  - destruct v as [|a v]; [discriminate|]. destruct y as [|b y]; [discriminate|].
    rewrite sqdist_cons. cbn [seq map]. rewrite py_sum_cons.
    f_equal. rewrite <- seq_shift, map_map. cbn [nth].
    apply IH; simpl in *; lia.
Qed.

Lemma sum_squares_shift (a : Z) (xs : list Z) :
  py_sum (map (fun x => (x - a) ^ 2) xs) =
  py_sum (map (fun x => x ^ 2) xs) - 2 * a * py_sum xs
  + Z.of_nat (List.length xs) * a ^ 2.
Proof.
  induction xs as [|x xs IH]; [cbn [map List.length]; rewrite !py_sum_nil; lia|].
  cbn [map]; rewrite !py_sum_cons, IH.
  cbn [List.length]; rewrite Nat2Z.inj_succ. ring.
Qed.

(** Among the integers, one nearest to the mean gives the least sum of
    squares. *)
Lemma nearest_minimises (n s r y : Z) :
  0 < n -> Z.abs (2 * s - 2 * n * r) <= n ->
  n * r ^ 2 - 2 * r * s <= n * y ^ 2 - 2 * y * s.
Proof.
  intros Hn He.
  set (e := 2 * s - 2 * n * r) in *.
  set (t := y - r).
  assert (Ht : Z.abs t <= t ^ 2) by nia.
  assert (Hprod : e * t <= n * t ^ 2).
  { assert (e * t <= Z.abs e * Z.abs t) by nia. nia. }
  assert (Hid : 2 * ((n * y ^ 2 - 2 * y * s) - (n * r ^ 2 - 2 * r * s))
                = 2 * (n * t ^ 2 - e * t)) by (unfold t, e; ring).
  lia.
Qed.

Lemma rounded_mean_minimises (xs : list Z) (y : Z) :
  xs <> [] ->
  py_sum (map (fun x => (x - round_half_away (py_sum xs) (Z.of_nat (List.length xs))) ^ 2) xs)
  <= py_sum (map (fun x => (x - y) ^ 2) xs).
Proof.
  intros Hne. rewrite !sum_squares_shift.
  assert (Hn : 0 < Z.of_nat (List.length xs))
    by (destruct xs; [congruence | simpl; lia]).
  pose proof (round_half_away_nearest (py_sum xs) _ Hn) as Hr.
  pose proof (nearest_minimises _ _ _ y Hn Hr). lia.
Qed.

Lemma cluster_cost_columns (d : nat) (vs : list (list Z)) (y : list Z) :
  (forall v, In v vs -> List.length v = d) ->
  List.length y = d ->
  cluster_cost vs y =
  py_sum (map (fun j => py_sum (map (fun x => (x - nth j y 0) ^ 2)
                                    (map (fun v => nth j v 0) vs)))
              (seq 0 d)).
Proof.
  intros Hvs Hy. unfold cluster_cost.
  rewrite (map_ext_in _ (fun v => py_sum (map (fun j => (nth j v 0 - nth j y 0) ^ 2)
                                              (seq 0 d)))).
  2:{ intros v Hv. apply sqdist_seq; [apply Hvs; exact Hv | exact Hy]. }
  rewrite (py_sum_exchange (fun v j => (nth j v 0 - nth j y 0) ^ 2)).
  f_equal. apply map_ext; intros j. rewrite map_map; reflexivity.
Qed.

(** The update phase is optimal for each cluster. *)
Lemma cluster_mean_minimises (d : nat) (vs : list (list Z)) (y : list Z) :
  vs <> [] ->
  (forall v, In v vs -> List.length v = d) ->
  List.length y = d ->
  cluster_cost vs (cluster_mean d vs) <= cluster_cost vs y.
Proof.
  intros Hne Hvs Hy.
  rewrite (cluster_cost_columns d vs y Hvs Hy).
  rewrite (cluster_cost_columns d vs _ Hvs (cluster_mean_length d vs)).
  apply py_sum_map_le; intros j Hj. apply in_seq in Hj.
  rewrite (nth_error_nth _ _ 0 (cluster_mean_nth d vs j ltac:(lia))).
  unfold component_sum.
  replace (Z.of_nat (List.length vs))
    with (Z.of_nat (List.length (map (fun v => nth j v 0) vs)))
    by (rewrite length_map; reflexivity).
  apply rounded_mean_minimises.
  destruct vs; [congruence | discriminate].
Qed.

Lemma cost_cons (r : station_row) (data : list station_row) (c : nat)
    (idx : list nat) (cs : list (list Z)) :
  cost (r :: data) cs (c :: idx) = sqdist (feats r) (nth c cs []) + cost data cs idx.
Proof. unfold cost; cbn [combine map fst snd]; apply py_sum_cons. Qed.

Lemma assignment_below_tail (k : nat) (r : station_row) (data : list station_row)
    (c : nat) (idx : list nat) :
  assignment_below k (r :: data) (c :: idx) ->
  (c < k)%nat /\ assignment_below k data idx.
Proof.
  intros H; split.
  - destruct (H O ltac:(simpl; lia)) as (c' & Hc' & Hlt).
    injection Hc' as <-; exact Hlt.
  - intros i Hi. apply (H (S i)); simpl; lia.
Qed.

Lemma assignment_below_nil (k : nat) (r : station_row) (data : list station_row) :
  ~ assignment_below k (r :: data) [].
Proof.
  intros H. destruct (H O ltac:(simpl; lia)) as (c & Hc & _). discriminate.
Qed.

Lemma py_sum_add_at (a : Z) (f : nat -> Z) (c0 : nat) (l : list nat) :
  NoDup l ->
  py_sum (map (fun c => if Nat.eqb c0 c then a + f c else f c) l) =
  (if existsb (Nat.eqb c0) l then a else 0) + py_sum (map f l).
Proof.
  induction l as [|c l IH]; intros Hnd; cbn [map existsb]; [reflexivity|].
  apply NoDup_cons_iff in Hnd as (Hnin & Hnd).
  rewrite !py_sum_cons, (IH Hnd).
  destruct (Nat.eqb_spec c0 c) as [-> | Hne]; cbn [orb]; [|lia].
  assert (E : existsb (Nat.eqb c) l = false).
  { apply not_true_is_false; intros E. apply existsb_exists in E as (x & Hx & Hxc).
    apply Nat.eqb_eq in Hxc; subst x; contradiction. }
  rewrite E; lia.
Qed.

(** The cost, cluster by cluster. *)
Lemma cost_by_cluster (k : nat) (cs : list (list Z)) :
  forall (data : list station_row) (idx : list nat),
  assignment_below k data idx ->
  cost data cs idx =
  py_sum (map (fun c => cluster_cost (members data idx c) (nth c cs [])) (seq 0 k)).
Proof.
  induction data as [|r data IH]; intros idx Hidx.
  - unfold cost, members, cluster_cost; cbn [combine map filter].
    rewrite py_sum_nil. symmetry; apply py_sum_map_zero.
  - destruct idx as [|c0 idx]; [exfalso; eapply assignment_below_nil; eauto|].
    apply assignment_below_tail in Hidx as (Hc0 & Hidx).
    rewrite cost_cons, (IH idx Hidx).
    rewrite (map_ext
               (fun c => cluster_cost (members (r :: data) (c0 :: idx) c) (nth c cs []))
               (fun c => if Nat.eqb c0 c
                         then sqdist (feats r) (nth c0 cs [])
                              + cluster_cost (members data idx c) (nth c cs [])
                         else cluster_cost (members data idx c) (nth c cs []))).
    2:{ intros c. rewrite members_cons.
        destruct (Nat.eqb_spec c0 c) as [-> | Hne]; [|reflexivity].
        unfold cluster_cost; cbn [map]; apply py_sum_cons. }
    rewrite (py_sum_add_at _ (fun c => cluster_cost (members data idx c) (nth c cs [])))
      by apply seq_NoDup.
    assert (E : existsb (Nat.eqb c0) (seq 0 k) = true).
    { apply existsb_exists. exists c0; split; [apply in_seq; lia | apply Nat.eqb_refl]. }
    rewrite E; reflexivity.
Qed.

Lemma members_nonempty (data : list station_row) :
  forall (idx : list nat) (c : nat),
  members data idx c <> [] ->
  exists i, (i < List.length data)%nat /\ nth_error idx i = Some c.
Proof.
  induction data as [|r data IH]; intros idx c H.
  - unfold members in H; simpl in H; congruence.
  - destruct idx as [|c0 idx].
    + unfold members in H; simpl in H; congruence.
    + rewrite members_cons in H.
      destruct (Nat.eqb_spec c0 c) as [-> | Hne].
      * exists O; split; [simpl; lia | reflexivity].
      * destruct (IH idx c H) as (i & Hi & Hnth).
        exists (S i); split; [simpl; lia | exact Hnth].
Qed.

Lemma filter_all_true {A : Type} (f : A -> bool) (l : list A) :
  (forall x, In x l -> f x = true) -> filter f l = l.
Proof.
  induction l as [|a l IH]; intros H; simpl; [reflexivity|].
  rewrite (H a (or_introl eq_refl)), IH; [reflexivity|].
  intros x Hx; apply H; right; exact Hx.
Qed.

Lemma filter_all_false {A : Type} (f : A -> bool) (l : list A) :
  (forall x, In x l -> f x = false) -> filter f l = [].
Proof.
  induction l as [|a l IH]; intros H; simpl; [reflexivity|].
  rewrite (H a (or_introl eq_refl)), IH; [reflexivity|].
  intros x Hx; apply H; right; exact Hx.
Qed.

(** When every index in use is below the number of occupied clusters,
    the occupied clusters are the first ones, and dropping the empty
    clusters renumbers nothing. *)
Lemma occupied_prefix (data : list station_row) (idx : list nat) (k : nat) :
  assignment_below (List.length (occupied data idx k)) data idx ->
  occupied data idx k = seq 0 (List.length (occupied data idx k)).
Proof.
  intros Hbelow.
  set (occ := occupied data idx k) in *. set (m := List.length occ) in *.
  assert (Hnd : NoDup occ) by (apply NoDup_filter, seq_NoDup).
  assert (Hsub : incl occ (seq 0 m)).
  { intros c Hc. apply occupied_In in Hc as (_ & Hc).
    destruct (members_nonempty data idx c Hc) as (i & Hi & Hnth).
    destruct (Hbelow i Hi) as (c' & Hc' & Hlt).
    rewrite Hnth in Hc'; injection Hc' as <-. apply in_seq; lia. }
  assert (Hsup : incl (seq 0 m) occ).
  { apply NoDup_length_incl; [exact Hnd | rewrite length_seq; unfold m; lia | exact Hsub]. }
  assert (Hmk : (m <= k)%nat) by apply occupied_length_le.
  unfold occ at 1, occupied.
  replace k with (m + (k - m))%nat at 1 by lia.
  rewrite seq_app, filter_app.
  rewrite filter_all_true, filter_all_false; [apply app_nil_r | |].
  - intros c Hc. apply in_seq in Hc.
    apply not_true_is_false; intros E.
    assert (Hin : In c occ).
    { apply filter_In; split; [apply in_seq; lia | exact E]. }
    apply Hsub, in_seq in Hin. lia.
  - intros c Hc. apply Hsup in Hc.
    apply filter_In in Hc as (_ & Hc); exact Hc.
Qed.

(** The assignment phase is optimal for the centroids at hand. *)
Lemma find_closest_centroids_minimises (cs : list (list Z)) :
  forall (data : list station_row) (idx' idx : list nat),
  find_closest_centroids data cs = Ok idx' ->
  assignment_below (List.length cs) data idx ->
  cost data cs idx' <= cost data cs idx.
Proof.
  induction data as [|r data IH]; intros idx' idx H Hidx.
  - unfold cost; simpl; lia.
  - destruct idx as [|c idx]; [exfalso; eapply assignment_below_nil; eauto|].
    apply assignment_below_tail in Hidx as (Hc & Hidx).
    unfold find_closest_centroids in H; cbn [mapM] in H.
    apply bind_ok in H as (j & Hj & H).
    apply bind_ok in H as (js & Hjs & H).
    injection H as <-.
    rewrite !cost_cons.
    specialize (IH js idx Hjs Hidx).
    assert (Hcs : cs <> []) by (intros ->; simpl in Hc; lia).
    destruct (closest_spec cs r Hcs) as (j0 & c0 & Hj0 & Hc0 & Hall).
    rewrite Hj0 in Hj; injection Hj as ->.
    destruct (nth_error cs c) as [y|] eqn:Hy;
      [| apply nth_error_None in Hy; lia].
    destruct (Hall c y Hy) as (Hle & _).
    rewrite (nth_error_nth _ _ [] Hc0), (nth_error_nth _ _ [] Hy). lia.
Qed.

Lemma distortion_terms (cs : list (list Z)) :
  forall (data : list station_row) (idx pre : list nat) (terms : list Z),
  mapM (fun t : nat * station_row =>
          i <- py_get (pre ++ idx) (fst t) ;;
          c <- py_get cs i ;;
          Ok (dist_sq (dist (feats (snd t)) c)))
       (combine (seq (List.length pre) (List.length data)) data) = Ok terms ->
  assignment_below (List.length cs) data idx /\
  terms = map (fun p => sqdist (feats (fst p)) (nth (snd p) cs [])) (combine data idx).
Proof.
  induction data as [|r data IH]; intros idx pre terms H.
  - simpl in H; injection H as <-. split; [intros i Hi; simpl in Hi; lia | reflexivity].
  - cbn [List.length seq combine mapM fst snd] in H.
    apply bind_ok in H as (q & Hq & H).
    apply bind_ok in Hq as (i & Hi & Hq).
    apply bind_ok in Hq as (c & Hc & Hq).
    apply bind_ok in H as (ts & Hts & H).
    injection H as <-. injection Hq as <-.
    apply py_get_inv in Hi, Hc.
    rewrite nth_error_app2, Nat.sub_diag in Hi by lia.
    destruct idx as [|i' idx]; [discriminate|]. injection Hi as ->.
    replace (pre ++ i :: idx) with ((pre ++ [i]) ++ idx) in Hts
      by (rewrite <- app_assoc; reflexivity).
    replace (S (List.length pre)) with (List.length (pre ++ [i])) in Hts
      by (rewrite length_app; simpl; lia).
    destruct (IH idx (pre ++ [i]) ts Hts) as (Hbelow & ->).
    split.
    + intros [|n] Hn.
      * exists i; split; [reflexivity | apply nth_error_Some; congruence].
      * apply Hbelow; simpl in Hn; lia.
    + cbn [combine map fst snd]. rewrite (nth_error_nth _ _ [] Hc). reflexivity.
Qed.

Lemma compute_distortion_ok (data : list station_row) (cs : list (list Z))
    (idx : list nat) (q : Q) :
  compute_distortion data cs idx = Ok q ->
  assignment_below (List.length cs) data idx /\
  q = Qmake (cost data cs idx) (Pos.of_nat (List.length data)).
Proof.
  intros H; unfold compute_distortion in H.
  apply bind_ok in H as (terms & Hterms & H).
  destruct (distortion_terms cs data idx [] terms Hterms) as (Hbelow & ->).
  split; [exact Hbelow|].
  destruct data; [discriminate|]. injection H as <-. reflexivity.
Qed.

(** The update phase does not raise the cost, compared with integer
    centroids of the dimension of the data, when the indices still fit
    the new list. *)
Lemma compute_centroids_minimises (d k : nat) (data : list station_row)
    (idx : list nat) (cs : list (list Z)) :
  uniform d data ->
  (forall c, In c cs -> List.length c = d) ->
  assignment_below (List.length cs) data idx ->
  assignment_below (List.length (occupied data idx k)) data idx ->
  cost data (map (fun c => cluster_mean d (members data idx c)) (occupied data idx k)) idx
  <= cost data cs idx.
Proof.
  intros Hu Hdim Hcs Hocc.
  pose proof (occupied_prefix data idx k Hocc) as Hpre.
  set (m := List.length (occupied data idx k)) in *.
  rewrite (cost_by_cluster m _ data idx Hocc), (cost_by_cluster m cs data idx Hocc).
  apply py_sum_map_le; intros c Hc.
  assert (Hin : In c (occupied data idx k)) by (rewrite Hpre; exact Hc).
  apply in_seq in Hc.
  apply occupied_In in Hin as (_ & Hne).
  destruct (members_nonempty data idx c Hne) as (i & Hi & Hnth).
  destruct (Hcs i Hi) as (c' & Hc' & Hlt).
  rewrite Hnth in Hc'; injection Hc' as <-.
  destruct (nth_error cs c) as [y|] eqn:Hy; [| apply nth_error_None in Hy; lia].
  rewrite (nth_error_nth _ _ [] Hy).
  rewrite Hpre.
  assert (Hmean : nth_error (map (fun c => cluster_mean d (members data idx c)) (seq 0 m)) c
                  = Some (cluster_mean d (members data idx c))).
  { rewrite nth_error_map, nth_error_seq.
    destruct (Nat.ltb_spec c m); [reflexivity | lia]. }
  rewrite (nth_error_nth _ _ [] Hmean).
  apply cluster_mean_minimises.
  - exact Hne.
  - apply members_uniform; exact Hu.
  - apply Hdim; eapply nth_error_In; eauto.
Qed.

(** ** When the report succeeds *)

Lemma distortion_terms_ok (cs : list (list Z)) :
  forall (data : list station_row) (idx pre : list nat),
  assignment_below (List.length cs) data idx ->
  exists terms,
    mapM (fun t : nat * station_row =>
            i <- py_get (pre ++ idx) (fst t) ;;
            c <- py_get cs i ;;
            Ok (dist_sq (dist (feats (snd t)) c)))
         (combine (seq (List.length pre) (List.length data)) data) = Ok terms.
Proof.
  induction data as [|r data IH]; intros idx pre Hidx.
  - exists []; reflexivity.
  - destruct idx as [|i idx]; [exfalso; eapply assignment_below_nil; eauto|].
    apply assignment_below_tail in Hidx as (Hi & Hidx).
    cbn [List.length seq combine mapM fst snd].
    rewrite (py_get_ok (pre ++ i :: idx) _ i)
      by (rewrite nth_error_app2, Nat.sub_diag by lia; reflexivity).
    cbn [bind].
    destruct (nth_error cs i) as [c|] eqn:Hc; [| apply nth_error_None in Hc; lia].
    rewrite (py_get_ok _ _ _ Hc); cbn [bind].
    destruct (IH idx (pre ++ [i]) Hidx) as (ts & Hts).
    rewrite <- app_assoc, length_app in Hts; cbn [app List.length] in Hts.
    rewrite Nat.add_1_r in Hts. rewrite Hts; cbn [bind].
    eexists; reflexivity.
Qed.

Lemma compute_distortion_defined (data : list station_row) (cs : list (list Z))
    (idx : list nat) :
  data <> [] ->
  assignment_below (List.length cs) data idx ->
  exists q, compute_distortion data cs idx = Ok q.
Proof.
  intros Hne Hidx; unfold compute_distortion, enumerate.
  destruct (distortion_terms_ok cs data idx [] Hidx) as (ts & Hts).
  cbn [app List.length] in Hts. rewrite Hts; cbn [bind].
  destruct data; [congruence | eexists; reflexivity].
Qed.

Lemma members_of_record (data : list station_row) :
  forall (idx : list nat) (i c : nat),
  (i < List.length data)%nat -> nth_error idx i = Some c ->
  members data idx c <> [].
Proof.
  induction data as [|r data IH]; intros idx i c Hi Hc; [simpl in Hi; lia|].
  destruct idx as [|c0 idx]; [destruct i; discriminate|].
  rewrite members_cons.
  destruct (Nat.eqb_spec c0 c) as [-> | Hne]; [discriminate|].
  destruct i as [|i]; simpl in Hc; [congruence|].
  apply (IH idx i c); [simpl in Hi; lia | exact Hc].
Qed.

(** X9: after an update phase the report of the distortion succeeds
    exactly when the occupied clusters are the first ones: an empty
    cluster before an occupied one makes it fail. *)
Lemma distortion_report_defined (d k : nat) (data : list station_row)
    (idx : list nat) (cs' : list (list Z)) :
  data <> [] ->
  uniform d data ->
  assignment_below k data idx ->
  compute_centroids data idx k = Ok cs' ->
  (exists q, compute_distortion data cs' idx = Ok q) <->
  occupied data idx k = seq 0 (List.length (occupied data idx k)).
Proof.
  intros Hne Hu Hidx Hcs'.
  rewrite (compute_centroids_spec d k data idx Hne Hu Hidx) in Hcs'.
  injection Hcs' as <-.
  split.
  - intros (q & Hq). apply occupied_prefix.
    destruct (compute_distortion_ok _ _ _ _ Hq) as (Hfit & _).
    rewrite length_map in Hfit; exact Hfit.
  - intros Hpre. apply compute_distortion_defined; [exact Hne|].
    rewrite length_map. intros i Hi.
    destruct (Hidx i Hi) as (c & Hc & Hck).
    exists c; split; [exact Hc|].
    assert (Hin : In c (occupied data idx k)).
    { apply occupied_In; split; [exact Hck|].
      eapply members_of_record; eauto. }
    rewrite Hpre in Hin. apply in_seq in Hin; lia.
Qed.

Lemma distortion_report_defined_witness :
  (exists q,
     compute_distortion [Row "a" [0; 1]; Row "b" [6; 1]] [[0; 1]; [6; 1]]
       [0%nat; 1%nat] = Ok q) <->
  occupied [Row "a" [0; 1]; Row "b" [6; 1]] [0%nat; 1%nat] 3 =
  seq 0 (List.length (occupied [Row "a" [0; 1]; Row "b" [6; 1]] [0%nat; 1%nat] 3)).
Proof.
  apply (distortion_report_defined 2 3).
  - discriminate.
  - intros r [<- | [<- | []]]; reflexivity.
  - intros i Hi; simpl in Hi.
    destruct i as [|[|i]]; [| | lia]; eexists; (split; [reflexivity | lia]).
  - reflexivity.
Defined.

(** ** Further properties of the distance and of the rounding *)

Lemma sqdist_sym (u : list Z) : forall v, sqdist u v = sqdist v u.
Proof.
  induction u as [|x u IH]; intros [|y v];
    rewrite ?sqdist_nil_l, ?sqdist_nil_r; try reflexivity.
  rewrite !sqdist_cons, IH. f_equal. ring.
Qed.

Lemma sqdist_refl (u : list Z) : sqdist u u = 0.
Proof.
  induction u as [|x u IH]; [reflexivity|].
  rewrite sqdist_cons, IH, Z.sub_diag. reflexivity.
Qed.

Lemma sqdist_zero (u : list Z) :
  forall v, List.length u = List.length v -> sqdist u v = 0 -> u = v.
Proof.
  induction u as [|x u IH]; intros [|y v] Hlen H; try discriminate; [reflexivity|].
  rewrite sqdist_cons in H.
  pose proof (sqdist_nonneg u v) as Hn.
  assert (Hx : (x - y) ^ 2 = 0) by nia.
  assert (x = y) by nia.
  f_equal; [assumption|]. apply IH; [simpl in Hlen; lia | lia].
Qed.

(** X1: the distance is symmetric, is zero from a vector to itself, is
    never negative, and between vectors of one length it is zero only
    when they are equal. *)
Theorem dist_symmetric_zero :
  (forall u v, dist u v = dist v u) /\
  (forall u, dist_val (dist u u) = 0%R) /\
  (forall u v, (0 <= dist_val (dist u v))%R) /\
  (forall u v, List.length u = List.length v ->
     dist_val (dist u v) = 0%R -> u = v).
Proof.
  split; [|split; [|split]].
  - intros u v; unfold dist; f_equal; apply sqdist_sym.
  - intros u; unfold dist_val; simpl. rewrite sqdist_refl. apply sqrt_0.
  - intros u v; apply sqrt_pos.
  - intros u v Hlen H. apply sqdist_zero; [exact Hlen|].
    unfold dist_val in H; simpl in H.
    apply sqrt_eq_0 in H; [| apply IZR_le, sqdist_nonneg].
    apply eq_IZR; exact H.
Qed.

Lemma dist_symmetric_zero_witness : [3; 4] = [3; 4].
Proof.
  apply (proj2 (proj2 (proj2 dist_symmetric_zero)) [3; 4] [3; 4]).
  - reflexivity.
  - apply (proj1 (proj2 dist_symmetric_zero)).
Defined.

Lemma round_half_away_half (x n q : Z) :
  0 < n -> 2 * x = (2 * q + 1) * n ->
  round_half_away x n = (if 0 <=? q then q + 1 else q).
Proof.
  intros Hn Hx; unfold round_half_away.
  rewrite (Z.sgn_pos n), (Z.abs_eq n) by lia.
  destruct (Z.leb_spec 0 q).
  - assert (0 < x) by nia.
    rewrite Z.sgn_pos, Z.abs_eq by lia.
    replace (2 * x + n) with ((q + 1) * (2 * n)) by lia.
    rewrite Z.div_mul by lia. lia.
  - assert (x < 0) by nia.
    rewrite Z.sgn_neg, Z.abs_neq by lia.
    replace (2 * - x + n) with ((- q) * (2 * n)) by lia.
    rewrite Z.div_mul by lia. lia.
Qed.

Lemma round_half_away_opp (x n : Z) :
  round_half_away (- x) n = - round_half_away x n.
Proof.
  unfold round_half_away. rewrite Z.sgn_opp, Z.abs_opp. ring.
Qed.

(** X2: for [x] below [2^52] in absolute value, where [float(x)] is
    [x] and the double precision quotient rounds as the exact one,
    [int(round(float(x)/n))] for a positive [n] is an integer within
    one half of [x/n]; when [x/n] is [q + 1/2] it is [q + 1] for
    [q >= 0] and [q] for [q < 0], away from zero; it is odd in [x]; and
    for [n = 0] the division raises. *)
Theorem py_round_div_half_away (x n : Z) :
  round_range x ->
  (0 < n ->
   exists r, py_round_div x n = Ok r /\
     Z.abs (2 * x - 2 * n * r) <= n /\
     (forall q, 2 * x = (2 * q + 1) * n -> r = (if 0 <=? q then q + 1 else q)) /\
     py_round_div (- x) n = Ok (- r)) /\
  py_round_div x 0 = Raise ZeroDivisionError.
Proof.
  intros _. split; [|reflexivity].
  intros Hn. exists (round_half_away x n).
  split; [apply py_round_div_pos; exact Hn|].
  split; [apply round_half_away_nearest; exact Hn|].
  split; [intros q Hq; apply round_half_away_half; assumption|].
  rewrite py_round_div_pos, round_half_away_opp by exact Hn. reflexivity.
Qed.

Lemma py_round_div_half_away_witness :
  exists r, py_round_div (-5) 2 = Ok r /\
    Z.abs (2 * (-5) - 2 * 2 * r) <= 2 /\
    (forall q, 2 * (-5) = (2 * q + 1) * 2 -> r = (if 0 <=? q then q + 1 else q)) /\
    py_round_div (- (-5)) 2 = Ok (- r).
Proof.
  assert (Hx : round_range (-5)) by reflexivity.
  apply (proj1 (py_round_div_half_away (-5) 2 Hx)). lia.
Defined.

(** ** Edge cases of the assignment phase *)

(** X3: without any centroid [find_closest_centroids] raises the
    [ValueError] of [min] on an empty sequence as soon as there is a
    record, and returns the empty list when there is none. *)
Theorem find_closest_centroids_no_centroid (monthly_data : list station_row) :
  find_closest_centroids monthly_data [] =
  match monthly_data with
  | [] => Ok []
  | _ :: _ => Raise ValueError
  end.
Proof. destruct monthly_data; reflexivity. Qed.

Lemma find_closest_centroids_not_later_copy (data : list station_row)
    (cs : list (list Z)) (idx : list nat) (i j : nat) (c : list Z) :
  find_closest_centroids data cs = Ok idx ->
  (i < j)%nat -> nth_error cs i = Some c -> nth_error cs j = Some c ->
  ~ In j idx.
Proof.
  intros H Hij Hi Hj Hin.
  apply In_nth_error in Hin as (n & Hn).
  destruct (mapM_nth_inv _ _ _ H n j Hn) as (row & _ & Hrow).
  assert (Hcs : cs <> []) by (intros ->; destruct i; discriminate).
  destruct (closest_spec cs row Hcs) as (j0 & c0 & Hj0 & Hc0 & Hall).
  rewrite Hj0 in Hrow; injection Hrow as ->.
  rewrite Hj in Hc0; injection Hc0 as <-.
  destruct (Hall i c Hi) as (_ & Htie). specialize (Htie eq_refl). lia.
Qed.

Lemma members_not_in (data : list station_row) :
  forall (idx : list nat) (c : nat), ~ In c idx -> members data idx c = [].
Proof.
  induction data as [|r data IH]; intros idx c Hc; [reflexivity|].
  destruct idx as [|c0 idx]; [reflexivity|].
  rewrite members_cons.
  destruct (Nat.eqb_spec c0 c) as [-> | Hne]; [exfalso; apply Hc; left; reflexivity|].
  apply IH; intros Hin; apply Hc; right; exact Hin.
Qed.

(** X4: a centroid equal to one with a smaller index never gets a
    record: ties go to the first.  Its cluster is empty and the update
    phase drops it, so the next iteration has fewer than [k]
    centroids. *)
Theorem duplicate_centroid_dropped (d k : nat) (monthly_data : list station_row)
    (cs : list (list Z)) (idx : list nat) (i j : nat) (c : list Z) :
  find_closest_centroids monthly_data cs = Ok idx ->
  (i < j)%nat -> (j < k)%nat ->
  nth_error cs i = Some c -> nth_error cs j = Some c ->
  ~ In j idx /\
  members monthly_data idx j = [] /\
  forall cs',
    monthly_data <> [] -> uniform d monthly_data -> (List.length cs <= k)%nat ->
    compute_centroids monthly_data idx k = Ok cs' ->
    (List.length cs' < k)%nat.
Proof.
  intros H Hij Hjk Hi Hj.
  pose proof (find_closest_centroids_not_later_copy _ _ _ _ _ _ H Hij Hi Hj) as Hnot.
  pose proof (members_not_in monthly_data idx j Hnot) as Hmem.
  split; [exact Hnot|]. split; [exact Hmem|].
  intros cs' Hne Hu Hk Hcs'.
  pose proof (find_closest_centroids_assignment _ _ _ k H Hk) as Hbelow.
  rewrite (compute_centroids_spec d k _ idx Hne Hu Hbelow) in Hcs'.
  injection Hcs' as <-. rewrite length_map.
  assert (Hnd : NoDup (occupied monthly_data idx k))
    by (apply NoDup_filter, seq_NoDup).
  assert (Hincl : incl (occupied monthly_data idx k) (remove Nat.eq_dec j (seq 0 k))).
  { intros x Hx. apply in_in_remove.
    - intros ->. apply occupied_In in Hx as (_ & Hx). congruence.
    - apply occupied_In in Hx as (Hx & _). apply in_seq; lia. }
  pose proof (NoDup_incl_length Hnd Hincl) as Hlen.
  assert (Hrem : (List.length (remove Nat.eq_dec j (seq 0 k)) < List.length (seq 0 k))%nat).
  { apply remove_length_lt. apply in_seq; lia. }
  rewrite length_seq in Hrem. lia.
Qed.

Lemma duplicate_centroid_dropped_witness :
  ~ In 1%nat [0%nat; 0%nat] /\
  members [Row "a" [0; 1]; Row "b" [6; 1]] [0%nat; 0%nat] 1 = [] /\
  forall cs',
    [Row "a" [0; 1]; Row "b" [6; 1]] <> [] ->
    uniform 2 [Row "a" [0; 1]; Row "b" [6; 1]] ->
    (List.length [[3; 3]; [3; 3]] <= 2)%nat ->
    compute_centroids [Row "a" [0; 1]; Row "b" [6; 1]] [0%nat; 0%nat] 2 = Ok cs' ->
    (List.length cs' < 2)%nat.
Proof.
  apply (duplicate_centroid_dropped 2 2 [Row "a" [0; 1]; Row "b" [6; 1]]
           [[3; 3]; [3; 3]] [0%nat; 0%nat] 0 1 [3; 3]).
  - reflexivity.
  - lia.
  - lia.
  - reflexivity.
  - reflexivity.
Defined.

(** ** Errors of the update phase *)

Lemma only_bind {A B : Type} (m : result A) (f : A -> result B) :
  only_index_error m -> (forall a, m = Ok a -> only_index_error (f a)) ->
  only_index_error (bind m f).
Proof.
  intros Hm Hf e H. destruct m as [a|e']; simpl in H.
  - eapply Hf; eauto.
  - injection H as <-. apply Hm; reflexivity.
Qed.

Lemma only_ok {A : Type} (a : A) : only_index_error (Ok a).
Proof. intros e H; discriminate. Qed.

Lemma only_py_get {A : Type} (l : list A) (i : nat) : only_index_error (py_get l i).
Proof.
  intros e H; unfold py_get in H. destruct (nth_error l i); congruence.
Qed.

Lemma only_py_set {A : Type} (l : list A) :
  forall (i : nat) (x : A), only_index_error (py_set l i x).
Proof.
  induction l as [|a l IH]; intros i x e H; simpl in H; [congruence|].
  destruct i as [|i]; [discriminate|].
  destruct (py_set l i x) as [r|e'] eqn:E; simpl in H; [discriminate|].
  injection H as <-. eapply IH; eauto.
Qed.

Lemma only_add_at (row : list Z) (j : nat) (x : Z) : only_index_error (add_at row j x).
Proof.
  unfold add_at. apply only_bind; [apply only_py_get|].
  intros old _; apply only_py_set.
Qed.

Lemma only_foldM {A B : Type} (f : A -> B -> result A) (l : list B) :
  (forall a x, In x l -> only_index_error (f a x)) ->
  forall a, only_index_error (foldM f l a).
Proof.
  induction l as [|x l IH]; intros Hf a; simpl; [apply only_ok|].
  apply only_bind; [apply Hf; left; reflexivity|].
  intros a' _; apply IH. intros a0 y Hy; apply Hf; right; exact Hy.
Qed.

Lemma only_fn (n : nat) (indices : list nat) (agg : list (list Z))
    (t : nat * station_row) :
  only_index_error (fn n indices agg t).
Proof.
  destruct t as [i ls]; unfold fn.
  apply only_bind; [apply only_py_get|]; intros c _.
  apply only_bind; [apply only_py_get|]; intros acc _.
  apply only_bind; [apply only_add_at|]; intros acc1 _.
  apply only_bind; [|intros acc2 _; apply only_py_set].
  apply only_foldM. intros a j Hj.
  apply in_seq in Hj. destruct j as [|j]; [lia|].
  apply only_bind; [apply only_py_get | intros x _; apply only_add_at].
Qed.

(** The means of the rows that pass the test of [row[0]] never fail. *)
Lemma mean_rows_ok (sums : list (list Z)) :
  exists cs, mapM mean_row (filter row_nonempty sums) = Ok cs.
Proof.
  induction sums as [|row sums (cs & IH)]; simpl; [eexists; reflexivity|].
  destruct row as [|cnt xs]; simpl; [exists cs; exact IH|].
  destruct (Z.eqb_spec cnt 0) as [E | E]; simpl; [exists cs; exact IH|].
  rewrite (mapM_total _ (fun x => round_half_away x cnt)).
  - cbn [bind]. rewrite IH; cbn [bind]. eexists; reflexivity.
  - intros x _. unfold py_round_div.
    destruct (Z.eqb_spec cnt 0); [contradiction | reflexivity].
Qed.

Lemma compute_centroids_only (data : list station_row) (idx : list nat) (k : nat) :
  only_index_error (compute_centroids data idx k).
Proof.
  unfold compute_centroids.
  apply only_bind; [apply only_py_get|]; intros first _.
  apply only_bind.
  - apply only_foldM. intros a t _; apply only_fn.
  - intros sums _. destruct (mean_rows_ok sums) as (cs & ->). apply only_ok.
Qed.

(** X5: whatever its arguments, [compute_centroids] never divides by
    zero, unlike [avg_monthly_values]: a row of sums is divided by its
    count only when it passes the test of [row[0]], so the count is not
    zero. *)
Theorem compute_centroids_never_divides_by_zero (monthly_data : list station_row)
    (idx : list nat) (k : nat) :
  compute_centroids monthly_data idx k <> Raise ZeroDivisionError.
Proof.
  intros H. apply compute_centroids_only in H. discriminate.
Qed.

Lemma py_set_length {A : Type} (l : list A) :
  forall (i : nat) (x : A) (l' : list A),
  py_set l i x = Ok l' -> List.length l' = List.length l.
Proof.
  induction l as [|a l IH]; intros i x l' H; simpl in H; [discriminate|].
  destruct i as [|i].
  - injection H as <-; reflexivity.
  - apply bind_ok in H as (r & Hr & H). injection H as <-.
    simpl; f_equal; eapply IH; eauto.
Qed.

Lemma foldM_ok_all {A : Type} (get : nat -> result Z)
    (g : A -> nat -> Z -> result A) (l : list nat) :
  forall a a',
  foldM (fun a j => x <- get j ;; g a j x) l a = Ok a' ->
  forall j, In j l -> exists x, get j = Ok x.
Proof.
  induction l as [|j0 l IH]; intros a a' H j Hj; [contradiction|].
  simpl in H. apply bind_ok in H as (a1 & H1 & H).
  apply bind_ok in H1 as (x & Hx & _).
  destruct Hj as [<- | Hj]; [eauto | eapply IH; eauto].
Qed.

Lemma fn_ok_inv (n : nat) (indices : list nat) (agg agg' : list (list Z))
    (i : nat) (ls : station_row) :
  fn n indices agg (i, ls) = Ok agg' ->
  List.length agg' = List.length agg /\
  (exists c, nth_error indices i = Some c /\ (c < List.length agg)%nat) /\
  (n - 1 <= List.length (feats ls))%nat.
Proof.
  intros H; unfold fn in H.
  apply bind_ok in H as (c & Hc & H). apply py_get_inv in Hc.
  apply bind_ok in H as (acc & Hacc & H). apply py_get_inv in Hacc.
  apply bind_ok in H as (acc1 & _ & H).
  apply bind_ok in H as (acc2 & Hfold & H).
  split; [eapply py_set_length; exact H|].
  split; [exists c; split; [exact Hc | apply nth_error_Some; congruence]|].
  destruct (Nat.eq_dec (n - 1) 0) as [E | E]; [lia|].
  destruct (foldM_ok_all (row_get ls) (fun a j x => add_at a j x) _ _ _ Hfold (n - 1)%nat)
    as (x & Hx).
  { apply in_seq; lia. }
  destruct (n - 1)%nat as [|m] eqn:Em; [congruence|].
  simpl in Hx. apply py_get_inv in Hx.
  assert (m < List.length (feats ls))%nat by (apply nth_error_Some; congruence).
  lia.
Qed.

Lemma foldM_fn_ok_inv (n : nat) :
  forall (data : list station_row) (idx pre : list nat) (agg agg' : list (list Z)),
  foldM (fn n (pre ++ idx))
        (combine (seq (List.length pre) (List.length data)) data) agg = Ok agg' ->
  assignment_below (List.length agg) data idx /\
  forall r, In r data -> (n - 1 <= List.length (feats r))%nat.
Proof.
  induction data as [|r data IH]; intros idx pre agg agg' H.
  - split; [intros i Hi; simpl in Hi; lia | intros r []].
  - cbn [List.length seq combine foldM] in H.
    apply bind_ok in H as (agg1 & H1 & H).
    apply fn_ok_inv in H1 as (Hlen & (c & Hc & Hck) & Hfe).
    rewrite nth_error_app2, Nat.sub_diag in Hc by lia.
    destruct idx as [|c' idx]; [discriminate|]. injection Hc as ->.
    replace (pre ++ c :: idx) with ((pre ++ [c]) ++ idx) in H
      by (rewrite <- app_assoc; reflexivity).
    replace (S (List.length pre)) with (List.length (pre ++ [c])) in H
      by (rewrite length_app; simpl; lia).
    destruct (IH idx (pre ++ [c]) agg1 agg' H) as (Hbelow & Hfeats).
    rewrite Hlen in Hbelow.
    split.
    + intros [|i] Hi; [exists c; split; [reflexivity | exact Hck]|].
      apply Hbelow; simpl in Hi; lia.
    + intros x [<- | Hx]; [exact Hfe | apply Hfeats; exact Hx].
Qed.

(** X6: when [compute_centroids] returns, the dataset is not empty,
    every record has an index, each below [k], and no record has fewer
    features than the first one; in every other case it raises
    [IndexError]. *)
Theorem compute_centroids_ok_requires (monthly_data : list station_row)
    (idx : list nat) (k : nat) :
  (forall cs,
     compute_centroids monthly_data idx k = Ok cs ->
     exists first rest,
       monthly_data = first :: rest /\
       assignment_below k monthly_data idx /\
       forall r, In r monthly_data ->
         (List.length (feats first) <= List.length (feats r))%nat) /\
  ((monthly_data = [] \/
    ~ assignment_below k monthly_data idx \/
    (exists first rest r, monthly_data = first :: rest /\ In r rest /\
       (List.length (feats r) < List.length (feats first))%nat)) ->
   compute_centroids monthly_data idx k = Raise IndexError).
Proof.
  assert (Hok : forall cs,
     compute_centroids monthly_data idx k = Ok cs ->
     exists first rest,
       monthly_data = first :: rest /\
       assignment_below k monthly_data idx /\
       forall r, In r monthly_data ->
         (List.length (feats first) <= List.length (feats r))%nat).
  { intros cs H. unfold compute_centroids in H.
    destruct monthly_data as [|first rest]; [discriminate|].
    change (py_get (first :: rest) 0) with (Ok first) in H; cbn [bind] in H.
    apply bind_ok in H as (sums & Hsums & _).
    destruct (foldM_fn_ok_inv _ (first :: rest) idx [] _ _ Hsums) as (Hbelow & Hfeats).
    unfold zero_sums in Hbelow; rewrite repeat_length in Hbelow.
    exists first, rest; split; [reflexivity|]. split; [exact Hbelow|].
    intros r Hr. specialize (Hfeats r Hr). unfold row_len in Hfeats. lia. }
  split; [exact Hok|].
  intros Hbad.
  destruct (compute_centroids monthly_data idx k) as [cs|e] eqn:E.
  - exfalso. destruct (Hok cs eq_refl) as (first & rest & Hd & Hbelow & Hfeats).
    destruct Hbad as [Hb | [Hb | (f' & rest' & r & Hd' & Hr & Hlt)]].
    + congruence.
    + contradiction.
    + rewrite Hd in Hd'; injection Hd' as <- <-.
      specialize (Hfeats r ltac:(rewrite Hd; right; exact Hr)). lia.
  - f_equal. apply (compute_centroids_only monthly_data idx k e E).
Qed.

Lemma compute_centroids_ok_requires_witness :
  compute_centroids [Row "a" [1; 2]; Row "b" [3]] [0%nat; 0%nat] 1 = Raise IndexError.
Proof.
  apply (proj2 (compute_centroids_ok_requires [Row "a" [1; 2]; Row "b" [3]]
                  [0%nat; 0%nat] 1)).
  right; right. exists (Row "a" [1; 2]), [Row "b" [3]], (Row "b" [3]).
  split; [reflexivity|]. split; [left; reflexivity | simpl; lia].
Defined.

(** ** The value and the errors of the distortion *)

Lemma only_mapM {A B : Type} (f : A -> result B) (l : list A) :
  (forall x, In x l -> only_index_error (f x)) ->
  only_index_error (mapM f l).
Proof.
  induction l as [|x l IH]; intros Hf; simpl; [apply only_ok|].
  apply only_bind; [apply Hf; left; reflexivity|]. intros y _.
  apply only_bind; [apply IH; intros z Hz; apply Hf; right; exact Hz|].
  intros ys _; apply only_ok.
Qed.

(** X7: when [compute_distortion] returns and when it raises.  It
    returns a value exactly when the dataset is not empty and every
    record has an index that exists in the centroid list; on a dataset
    that is not empty it raises [IndexError] otherwise, and on the empty
    dataset it divides by zero. *)
Theorem compute_distortion_returns_iff (monthly_data : list station_row)
    (cs : list (list Z)) (idx : list nat) :
  ((exists q, compute_distortion monthly_data cs idx = Ok q) <->
   monthly_data <> [] /\ assignment_below (List.length cs) monthly_data idx) /\
  (monthly_data <> [] ->
   ~ assignment_below (List.length cs) monthly_data idx ->
   compute_distortion monthly_data cs idx = Raise IndexError) /\
  compute_distortion [] cs idx = Raise ZeroDivisionError.
Proof.
  assert (Hiff : (exists q, compute_distortion monthly_data cs idx = Ok q) <->
            monthly_data <> [] /\ assignment_below (List.length cs) monthly_data idx).
  { split.
    - intros (q & Hq).
      destruct (compute_distortion_ok _ _ _ _ Hq) as (Hbelow & _).
      split; [|exact Hbelow].
      intros ->; discriminate.
    - intros (Hne & Hbelow). apply compute_distortion_defined; assumption. }
  split; [exact Hiff|]. split; [|reflexivity].
  intros Hne Hnot.
  destruct (compute_distortion monthly_data cs idx) as [q|e] eqn:E.
  - exfalso. apply Hnot. apply Hiff. exists q; reflexivity.
  - f_equal. revert E. unfold compute_distortion.
    destruct (mapM _ (enumerate monthly_data)) as [terms|e'] eqn:Et; cbn [bind].
    + destruct monthly_data; [congruence | discriminate].
    + intros E; injection E as <-.
      refine (only_mapM _ _ _ e' Et).
      intros t _.
      apply only_bind; [apply only_py_get|]; intros i _.
      apply only_bind; [apply only_py_get|]; intros c _.
      apply only_ok.
Qed.

Lemma compute_distortion_returns_iff_witness :
  exists q, compute_distortion [Row "a" [0; 1]; Row "b" [6; 1]] [[0; 0]; [6; 0]]
              [0%nat; 1%nat] = Ok q.
Proof.
  apply (proj1 (compute_distortion_returns_iff [Row "a" [0; 1]; Row "b" [6; 1]]
                  [[0; 0]; [6; 0]] [0%nat; 1%nat])).
  split; [discriminate|].
  intros i Hi; simpl in Hi.
  destruct i as [|[|i]]; [| | lia]; eexists; (split; [reflexivity | simpl; lia]).
Defined.

(** ** Runs of the loop *)

(** X11: with no station at all the first iteration fails: the
    assignment is the empty list and [compute_centroids] raises
    [IndexError] on [monthly_data[0]].  So does the whole run, with or
    without the report, whatever the random source. *)
Theorem kmeans_loop_empty_dataset :
  (forall (verbose : bool) (k t : nat) (st : loop_state),
     kmeans_loop verbose [] k (S t) st = Raise IndexError) /\
  (forall (verbose : bool) (g : rng), run_kmeans verbose [] g = Raise IndexError).
Proof.
  split.
  - intros verbose k t st. reflexivity.
  - intros verbose g. reflexivity.
Qed.

(** ** What [data_gen] yields *)

Lemma foldM_app {A B : Type} (f : A -> B -> result A) (l1 l2 : list B) (a : A) :
  foldM f (l1 ++ l2) a = (a1 <- foldM f l1 a ;; foldM f l2 a1).
Proof.
  revert a; induction l1 as [|x l1 IH]; intros a; simpl; [reflexivity|].
  destruct (f a x) as [a'|e]; simpl; [apply IH | reflexivity].
Qed.

Lemma group_values_app (ids : list string) (g1 g2 : list observation) :
  group_values ids (g1 ++ g2) = group_values ids g1 ++ group_values ids g2.
Proof. unfold group_values; rewrite filter_app, map_app; reflexivity. Qed.

Lemma group_values_single (ids : list string) (r : observation) :
  group_values ids [r] = if kept ids r then [monthly r] else [].
Proof. unfold group_values; simpl. destruct (kept ids r); reflexivity. Qed.

(** One line of the same station: its readings are appended when it
    counts. *)
Lemma data_gen_row_same (ids : list string) (st : gen_state) (r : observation) :
  station_id r = curr_station st ->
  data_gen_row ids st r =
  Ok (Gen (curr_station st) (curr_values st ++ group_values ids [r]) (yielded st)).
Proof.
  intros E. unfold data_gen_row. rewrite E, String.eqb_refl. cbn [negb bind].
  rewrite group_values_single. unfold kept. rewrite E.
  destruct (in_ids ids (curr_station st) && (MIN_YEAR <=? yr r) && (yr r <=? MAX_YEAR)).
  - reflexivity.
  - rewrite app_nil_r. destruct st; reflexivity.
Qed.

(** One line of another station: the station at hand is handed over
    when it has a name and more than 20 lines that count. *)
Lemma data_gen_row_change (ids : list string) (st : gen_state) (r : observation) :
  station_id r <> curr_station st ->
  data_gen_row ids st r =
  (ys <- (if negb (String.eqb (curr_station st) EmptyString)
             && (MIN_NUM_VALUES <? List.length (curr_values st))%nat
          then v <- avg_monthly_values (curr_values st) ;;
               Ok (yielded st ++ [(curr_station st, v)])
          else Ok (yielded st)) ;;
   Ok (Gen (station_id r) (group_values ids [r]) ys)).
Proof.
  intros E. unfold data_gen_row.
  destruct (String.eqb_spec (station_id r) (curr_station st)) as [E' | _]; [contradiction|].
  cbn [negb].
  destruct (if negb (String.eqb (curr_station st) EmptyString)
               && (MIN_NUM_VALUES <? List.length (curr_values st))%nat
            then v <- avg_monthly_values (curr_values st) ;;
                 Ok (yielded st ++ [(curr_station st, v)])
            else Ok (yielded st)) as [ys|e]; [|reflexivity].
  cbn [bind curr_station curr_values yielded].
  rewrite group_values_single. unfold kept.
  destruct (in_ids ids (station_id r) && (MIN_YEAR <=? yr r) && (yr r <=? MAX_YEAR));
    reflexivity.
Qed.

Lemma data_gen_row_station (ids : list string) (st st' : gen_state) (r : observation) :
  data_gen_row ids st r = Ok st' -> curr_station st' = station_id r.
Proof.
  intros H.
  destruct (String.eqb_spec (station_id r) (curr_station st)) as [E | E].
  - rewrite (data_gen_row_same ids st r E) in H. injection H as <-. simpl; congruence.
  - rewrite (data_gen_row_change ids st r E) in H.
    apply bind_ok in H as (ys & _ & H). injection H as <-. reflexivity.
Qed.

Lemma data_gen_row_yielded (ids : list string) (st st' : gen_state) (r : observation) :
  data_gen_row ids st r = Ok st' -> exists more, yielded st' = yielded st ++ more.
Proof.
  intros H.
  destruct (String.eqb_spec (station_id r) (curr_station st)) as [E | E].
  - rewrite (data_gen_row_same ids st r E) in H. injection H as <-.
    exists []; simpl; rewrite app_nil_r; reflexivity.
  - rewrite (data_gen_row_change ids st r E) in H.
    apply bind_ok in H as (ys & Hys & H). injection H as <-. simpl.
    destruct (negb _ && _).
    + apply bind_ok in Hys as (v & _ & Hys). injection Hys as <-. eexists; reflexivity.
    + injection Hys as <-. exists []; rewrite app_nil_r; reflexivity.
Qed.

Lemma foldM_data_gen_yielded (ids : list string) (rows : list observation) :
  forall st st', foldM (data_gen_row ids) rows st = Ok st' ->
  exists more, yielded st' = yielded st ++ more.
Proof.
  induction rows as [|r rows IH]; intros st st' H; simpl in H.
  - injection H as <-. exists []; rewrite app_nil_r; reflexivity.
  - apply bind_ok in H as (st1 & H1 & H).
    destruct (data_gen_row_yielded ids st st1 r H1) as (m1 & E1).
    destruct (IH st1 st' H) as (m2 & E2).
    exists (m1 ++ m2). rewrite E2, E1, app_assoc. reflexivity.
Qed.

Lemma foldM_data_gen_same (ids : list string) (grp : list observation) :
  forall st,
  (forall x, In x grp -> station_id x = curr_station st) ->
  foldM (data_gen_row ids) grp st =
  Ok (Gen (curr_station st) (curr_values st ++ group_values ids grp) (yielded st)).
Proof.
  induction grp as [|r grp IH]; intros st Hall; simpl.
  - unfold group_values; simpl. rewrite app_nil_r. destruct st; reflexivity.
  - rewrite (data_gen_row_same ids st r (Hall r (or_introl eq_refl))). cbn [bind].
    rewrite IH by (intros x Hx; simpl; apply Hall; right; exact Hx).
    cbn [curr_station curr_values yielded].
    change (r :: grp) with ([r] ++ grp).
    rewrite group_values_app, app_assoc. reflexivity.
Qed.

Lemma foldM_data_gen_last (ids : list string) (rows : list observation)
    (x : observation) (st st' : gen_state) :
  foldM (data_gen_row ids) (rows ++ [x]) st = Ok st' ->
  curr_station st' = station_id x.
Proof.
  intros H. rewrite foldM_app in H.
  apply bind_ok in H as (st1 & _ & H). simpl in H.
  apply bind_ok in H as (st2 & H2 & H). injection H as <-.
  eapply data_gen_row_station; exact H2.
Qed.

(** A closed group of a named station with more than 20 lines that
    count is handed over, with the averages of those lines. *)
Lemma data_gen_complete (ids : list string) (rows : list observation)
    (s : string) (grp : list observation) (out : list (string * list Z)) :
  closed_group rows s grp ->
  s <> EmptyString ->
  (MIN_NUM_VALUES < List.length (group_values ids grp))%nat ->
  data_gen rows ids = Ok out ->
  exists v, avg_monthly_values (group_values ids grp) = Ok v /\ In (s, v) out.
Proof.
  intros (l1 & r & l2 & Hrows & Hl1 & Hne & Hall & Hr) Hs Hcount H.
  unfold data_gen in H. apply bind_ok in H as (st & Hst & H). injection H as <-.
  rewrite Hrows, foldM_app in Hst.
  apply bind_ok in Hst as (st1 & Hst1 & Hst).
  assert (Hcurr1 : curr_station st1 <> s).
  { destruct Hl1 as [-> | (l & x & -> & Hx)].
    - simpl in Hst1. injection Hst1 as <-. simpl. congruence.
    - rewrite (foldM_data_gen_last ids l x _ _ Hst1). exact Hx. }
  destruct grp as [|g grp]; [congruence|].
  change ((g :: grp) ++ r :: l2) with ([g] ++ grp ++ [r] ++ l2) in Hst.
  rewrite foldM_app in Hst. apply bind_ok in Hst as (st2 & Hst2 & Hst).
  simpl in Hst2. apply bind_ok in Hst2 as (st2' & Hg & Hst2). injection Hst2 as ->.
  assert (Hgs : station_id g = s) by (apply Hall; left; reflexivity).
  rewrite data_gen_row_change in Hg by congruence.
  apply bind_ok in Hg as (ys & _ & Hg). injection Hg as <-.
  rewrite foldM_app in Hst. apply bind_ok in Hst as (st3 & Hst3 & Hst).
  rewrite foldM_data_gen_same in Hst3
    by (intros x Hx; simpl; rewrite Hgs; apply Hall; right; exact Hx).
  injection Hst3 as <-. cbn [curr_station curr_values yielded] in Hst.
  rewrite <- group_values_app in Hst. change ([g] ++ grp) with (g :: grp) in Hst.
  rewrite foldM_app in Hst. apply bind_ok in Hst as (st4 & Hst4 & Hst).
  simpl in Hst4. apply bind_ok in Hst4 as (st4' & Hr4 & Hst4). injection Hst4 as ->.
  rewrite data_gen_row_change in Hr4 by (simpl; congruence).
  cbn [curr_station curr_values yielded] in Hr4.
  rewrite Hgs in Hr4.
  destruct (String.eqb_spec s EmptyString) as [E | _]; [contradiction|].
  apply Nat.ltb_lt in Hcount. rewrite Hcount in Hr4. cbn [negb andb] in Hr4.
  apply bind_ok in Hr4 as (ys4 & Hys4 & Hr4).
  apply bind_ok in Hys4 as (v & Hv & Hys4). injection Hys4 as <-.
  injection Hr4 as <-.
  exists v; split; [exact Hv|].
  destruct (foldM_data_gen_yielded ids l2 _ _ Hst) as (more & ->).
  cbn [yielded]. apply in_or_app; left. apply in_or_app; right. left; reflexivity.
Qed.

Lemma closed_group_snoc (rows : list observation) (s : string)
    (grp : list observation) (r : observation) :
  closed_group rows s grp -> closed_group (rows ++ [r]) s grp.
Proof.
  intros (l1 & r0 & l2 & -> & H1 & H2 & H3 & H4).
  exists l1, r0, (l2 ++ [r]). repeat split; try assumption.
  rewrite <- !app_assoc. reflexivity.
Qed.

Lemma ends_other_snoc (s : string) (l : list observation) (x : observation) :
  station_id x <> s -> ends_other s (l ++ [x]).
Proof. intros H; right; exists l, x; split; [reflexivity | exact H]. Qed.

Lemma data_gen_row_inv (ids : list string) (done : list observation)
    (st st' : gen_state) (r : observation) :
  gen_inv ids done st ->
  data_gen_row ids st r = Ok st' ->
  gen_inv ids (done ++ [r]) st'.
Proof.
  intros ((l1 & grp & Hdone & Hnil & Hends & Hall & Hvals) & Hyield) H.
  assert (Hold : forall s v, In (s, v) (yielded st) ->
            exists grp0, closed_group (done ++ [r]) s grp0 /\ s <> EmptyString /\
              (MIN_NUM_VALUES < List.length (group_values ids grp0))%nat /\
              avg_monthly_values (group_values ids grp0) = Ok v).
  { intros s v Hin. destruct (Hyield s v Hin) as (g0 & Hc & Hrest).
    exists g0; split; [apply closed_group_snoc; exact Hc | exact Hrest]. }
  destruct (String.eqb_spec (station_id r) (curr_station st)) as [E | E].
  - rewrite (data_gen_row_same ids st r E) in H. injection H as <-.
    split; [|exact Hold].
    exists l1, (grp ++ [r]). cbn [curr_station curr_values].
    split; [rewrite Hdone, app_assoc; reflexivity|].
    split; [intros Habs; destruct grp; discriminate|].
    split; [exact Hends|].
    split.
    + intros x Hx. apply in_app_or in Hx as [Hx | [<- | []]]; [apply Hall; exact Hx | exact E].
    + rewrite Hvals, group_values_app. reflexivity.
  - rewrite (data_gen_row_change ids st r E) in H.
    apply bind_ok in H as (ys & Hys & H). injection H as <-.
    split.
    + exists done, [r]. cbn [curr_station curr_values].
      split; [reflexivity|]. split; [discriminate|].
      split.
      * destruct grp as [|g grp'] eqn:Eg.
        -- destruct (Hnil eq_refl) as (-> & _). rewrite Hdone. left; reflexivity.
        -- assert (Hcons : g :: grp' <> []) by discriminate.
           destruct (exists_last Hcons) as (l & x & El).
           rewrite Hdone, El, app_assoc. apply ends_other_snoc.
           rewrite (Hall x); [congruence|].
           rewrite El. apply in_or_app; right; left; reflexivity.
      * split; [intros x [<- | []]; reflexivity | reflexivity].
    + cbn [yielded]. intros s v Hin.
      destruct (negb (String.eqb (curr_station st) EmptyString)
                && (MIN_NUM_VALUES <? List.length (curr_values st))%nat) eqn:Hc.
      * apply bind_ok in Hys as (v0 & Hv0 & Hys). injection Hys as <-.
        apply in_app_or in Hin as [Hin | [Hin | []]]; [apply Hold; exact Hin|].
        injection Hin as <- <-.
        apply andb_prop in Hc as (Hname & Hcount).
        apply negb_true_iff in Hname. apply Nat.ltb_lt in Hcount.
        assert (Hs : curr_station st <> EmptyString)
          by (intros Es; rewrite Es in Hname; discriminate).
        exists grp. rewrite <- Hvals.
        split; [|split; [exact Hs | split; [exact Hcount | exact Hv0]]].
        exists l1, r, []. rewrite Hdone, <- app_assoc.
        split; [reflexivity|]. split; [exact Hends|].
        split; [|split; [exact Hall | exact E]].
        intros ->. destruct (Hnil eq_refl) as (_ & Hn). contradiction.
      * injection Hys as <-. apply Hold; exact Hin.
Qed.

Lemma foldM_data_gen_inv (ids : list string) (rows : list observation) :
  forall (done : list observation) (st st' : gen_state),
  gen_inv ids done st ->
  foldM (data_gen_row ids) rows st = Ok st' ->
  gen_inv ids (done ++ rows) st'.
Proof.
  induction rows as [|r rows IH]; intros done st st' Hinv H; simpl in H.
  - injection H as <-. rewrite app_nil_r; exact Hinv.
  - apply bind_ok in H as (st1 & H1 & H).
    change (r :: rows) with ([r] ++ rows). rewrite app_assoc.
    eapply IH; [|exact H]. eapply data_gen_row_inv; eauto.
Qed.

Lemma gen_inv_init (ids : list string) : gen_inv ids [] (Gen EmptyString [] []).
Proof.
  split.
  - exists [], []. split; [reflexivity|]. split; [intros _; split; reflexivity|].
    split; [left; reflexivity|]. split; [intros x [] | reflexivity].
  - intros s v [].
Qed.

Lemma data_gen_sound (ids : list string) (rows : list observation)
    (out : list (string * list Z)) (s : string) (v : list Z) :
  data_gen rows ids = Ok out ->
  In (s, v) out ->
  exists grp,
    closed_group rows s grp /\
    s <> EmptyString /\
    (MIN_NUM_VALUES < List.length (group_values ids grp))%nat /\
    avg_monthly_values (group_values ids grp) = Ok v.
Proof.
  intros H Hin. unfold data_gen in H.
  apply bind_ok in H as (st & Hst & H). injection H as <-.
  destruct (foldM_data_gen_inv ids rows [] _ st (gen_inv_init ids) Hst) as (_ & Hy).
  apply Hy; exact Hin.
Qed.

Lemma group_values_eligible (ids : list string) (s : string) (grp : list observation) :
  (forall x, In x grp -> station_id x = s) ->
  group_values ids grp <> [] ->
  in_ids ids s = true.
Proof.
  intros Hall Hne. unfold group_values in Hne.
  destruct (filter (kept ids) grp) as [|x l] eqn:E; [simpl in Hne; congruence|].
  assert (Hx : In x (filter (kept ids) grp)) by (rewrite E; left; reflexivity).
  apply filter_In in Hx as (Hx & Hk).
  unfold kept in Hk. apply andb_prop in Hk as (Hk & _). apply andb_prop in Hk as (Hk & _).
  rewrite <- (Hall x Hx). exact Hk.
Qed.

(** X12: every pair that [data_gen] yields comes from a whole run of
    lines of one station that is followed by a line of another station:
    the station has a non-empty name and is eligible, more than 20 of
    the lines of the run are of an eligible station in 1981-2010, and
    the vector is [avg_monthly_values] of the readings of exactly those
    lines. *)
Theorem data_gen_yields_closed_groups (rows : list observation)
    (station_ids : list string) (out : list (string * list Z)) :
  data_gen rows station_ids = Ok out ->
  forall s v, In (s, v) out ->
    s <> EmptyString /\
    in_ids station_ids s = true /\
    exists grp,
      closed_group rows s grp /\
      (20 < List.length (group_values station_ids grp))%nat /\
      avg_monthly_values (group_values station_ids grp) = Ok v.
Proof.
  intros H s v Hin.
  destruct (data_gen_sound station_ids rows out s v H Hin)
    as (grp & Hclosed & Hs & Hcount & Hv).
  split; [exact Hs|]. split.
  - destruct Hclosed as (l1 & r & l2 & _ & _ & _ & Hall & _).
    apply (group_values_eligible station_ids s grp Hall).
    intros E; rewrite E in Hcount; simpl in Hcount; unfold MIN_NUM_VALUES in Hcount; lia.
  - exists grp; repeat split; assumption.
Qed.

(** X13: conversely, a whole run of lines of a station with a non-empty
    name, followed by a line of another station, with more than 20
    lines that count, is yielded with its averages whenever [data_gen]
    ends without an exception. *)
Theorem data_gen_yields_every_closed_group (rows : list observation)
    (station_ids : list string) (out : list (string * list Z))
    (s : string) (grp : list observation) :
  data_gen rows station_ids = Ok out ->
  closed_group rows s grp ->
  s <> EmptyString ->
  (20 < List.length (group_values station_ids grp))%nat ->
  exists v, avg_monthly_values (group_values station_ids grp) = Ok v /\ In (s, v) out.
Proof.
  intros H Hclosed Hs Hcount.
  eapply data_gen_complete; eauto.
Qed.

Lemma station_years_station (s : string) (v : list Z) (y : Z) (n : nat) :
  forall x, In x (station_years s v y n) -> station_id x = s.
Proof.
  intros x Hx. unfold station_years in Hx.
  apply in_map_iff in Hx as (i & <- & _). reflexivity.
Qed.

Lemma data_gen_yields_closed_groups_witness :
  "42500000001"%string <> EmptyString /\
  in_ids ["42500000001"%string] "42500000001" = true /\
  exists grp,
    closed_group sample_observations "42500000001" grp /\
    (20 < List.length (group_values ["42500000001"%string] grp))%nat /\
    avg_monthly_values (group_values ["42500000001"%string] grp) = Ok sample_values.
Proof.
  apply (data_gen_yields_closed_groups sample_observations ["42500000001"%string]
           [("42500000001"%string, sample_values)]).
  - vm_compute; reflexivity.
  - left; reflexivity.
Defined.

Lemma data_gen_yields_every_closed_group_witness :
  exists w,
    avg_monthly_values
      (group_values ["42500000001"%string]
         (station_years "42500000001" sample_values 1981 21)) = Ok w /\
    In ("42500000001"%string, w) [("42500000001"%string, sample_values)].
Proof.
  apply (data_gen_yields_every_closed_group
           sample_observations ["42500000001"%string]
           [("42500000001"%string, sample_values)] "42500000001"
           (station_years "42500000001" sample_values 1981 21)).
  - vm_compute; reflexivity.
  - exists [], (Obs "42500000002" 1981 sample_values), [].
    split; [reflexivity|]. split; [left; reflexivity|].
    split; [discriminate|].
    split; [apply station_years_station | discriminate].
  - discriminate.
  - assert (E : List.length
                  (group_values ["42500000001"%string]
                     (station_years "42500000001" sample_values 1981 21)) = 21%nat)
      by (vm_compute; reflexivity).
    rewrite E; lia.
Defined.

Lemma closed_group_incl (rows : list observation) (s : string)
    (grp : list observation) :
  closed_group rows s grp -> incl grp rows.
Proof.
  intros (l1 & r & l2 & -> & _) x Hx.
  apply in_or_app; right. apply in_or_app; left. exact Hx.
Qed.

Lemma data_gen_twelve (rows : list observation)
    (station_ids : list string) (out : list (string * list Z)) :
  data_gen rows station_ids = Ok out ->
  (forall x, In x rows -> kept station_ids x = true ->
     List.length (monthly x) = 12%nat) ->
  forall s v, In (s, v) out -> List.length v = 12%nat.
Proof.
  intros H Hlen s v Hin.
  destruct (data_gen_sound station_ids rows out s v H Hin)
    as (grp & Hclosed & _ & Hcount & Hv).
  assert (Hne : group_values station_ids grp <> []).
  { intros E; rewrite E in Hcount; simpl in Hcount; lia. }
  assert (Hrows : forall l, In l (group_values station_ids grp) ->
            List.length l = 12%nat).
  { intros l Hl. unfold group_values in Hl.
    apply in_map_iff in Hl as (x & <- & Hx). apply filter_In in Hx as (Hx & Hk).
    apply Hlen; [apply (closed_group_incl rows s grp Hclosed); exact Hx | exact Hk]. }
  rewrite (avg_monthly_values_columns 12 _ Hne Hrows) in Hv.
  apply mapM_length in Hv. rewrite length_seq in Hv. exact Hv.
Qed.

(** X14: when the lines that count have 12 readings each, every vector
    that [data_gen] yields has 12 components. *)
Theorem data_gen_vectors_of_twelve (rows : list observation)
    (station_ids : list string) (out : list (string * list Z)) :
  data_gen rows station_ids = Ok out ->
  (forall x, In x rows -> kept station_ids x = true ->
     List.length (monthly x) = 12%nat) ->
  forall s v, In (s, v) out -> List.length v = 12%nat.
Proof. apply data_gen_twelve. Qed.

Lemma data_gen_vectors_of_twelve_witness :
  List.length [10; 20; 30; 40; 50; 60; 70; 80; 90; 100; 110; 120] = 12%nat.
Proof.
  apply (data_gen_vectors_of_twelve
           (station_years "42500000001"
              [10; 20; 30; 40; 50; 60; 70; 80; 90; 100; 110; 120] 1981 21
            ++ [Obs "42500000002" 1981 [1; 2; 3; 4; 5; 6; 7; 8; 9; 10; 11; 12]])
           ["42500000001"%string]
           [("42500000001"%string,
             [10; 20; 30; 40; 50; 60; 70; 80; 90; 100; 110; 120])]
           ltac:(vm_compute; reflexivity)) with (s := "42500000001"%string).
  - intros x Hx _. apply in_app_or in Hx as [Hx | [<- | []]]; [|reflexivity].
    unfold station_years in Hx. apply in_map_iff in Hx as (i & <- & _). reflexivity.
  - left; reflexivity.
Defined.

(** ** Reading the lines of the observation file *)

Lemma xrange_monthly :
  xrange 19 115 8 = map (fun i => (19 + i * 8)%nat) (seq 0 12).
Proof. reflexivity. Qed.

Lemma mapM_raise_first {A B : Type} (f : A -> result B) (l : list A) (e : exn) :
  mapM f l = Raise e ->
  exists i x,
    nth_error l i = Some x /\ f x = Raise e /\
    forall j y, (j < i)%nat -> nth_error l j = Some y -> exists z, f y = Ok z.
Proof.
  induction l as [|a l IH]; intros H; simpl in H; [discriminate|].
  destruct (f a) as [b|e'] eqn:Ha; cbn [bind] in H.
  - destruct (mapM f l) as [ys|e'] eqn:Hl; cbn [bind] in H; [discriminate|].
    injection H as ->.
    destruct (IH eq_refl) as (i & x & Hi & Hx & Hbefore).
    exists (S i), x. split; [exact Hi|]. split; [exact Hx|].
    intros [|j] y Hj Hy; simpl in Hy.
    + injection Hy as <-. eauto.
    + apply (Hbefore j y); [lia | exact Hy].
  - injection H as ->. exists O, a. split; [reflexivity|]. split; [exact Ha|].
    intros j y Hj; lia.
Qed.

Lemma mapM_ext_in {A B : Type} (f g : A -> result B) (l : list A) :
  (forall x, In x l -> f x = g x) -> mapM f l = mapM g l.
Proof.
  induction l as [|a l IH]; intros H; simpl; [reflexivity|].
  rewrite (H a (or_introl eq_refl)), IH; [reflexivity|].
  intros x Hx; apply H; right; exact Hx.
Qed.

Lemma monthly_field (row : string) (i : nat) :
  py_slice row (19 + i * 8) (19 + i * 8 + 5) = substring (19 + 8 * i) 5 row.
Proof.
  unfold py_slice. f_equal; lia.
Qed.

Lemma parse_monthly_values_length (py_int : string -> result Z) (row : string)
    (vals : list Z) :
  parse_monthly_values py_int row = Ok vals -> List.length vals = 12%nat.
Proof.
  unfold parse_monthly_values. rewrite xrange_monthly. intros H.
  apply mapM_length in H. rewrite length_map, length_seq in H. exact H.
Qed.

(** X15: [parse_monthly_values] returns 12 numbers or raises: the
    number at position [i] is [int] of the 5 characters that start at
    column [19 + 8*i]; the other columns of the line, the flags between
    the readings among them, are not read.  The exception it raises is
    the one of the first field that [int] refuses. *)
Theorem parse_monthly_values_fields (py_int : string -> result Z) (row : string) :
  (forall vals, parse_monthly_values py_int row = Ok vals ->
     List.length vals = 12%nat /\
     forall i, (i < 12)%nat ->
       py_int (substring (19 + 8 * i) 5 row) = Ok (nth i vals 0)) /\
  (forall e, parse_monthly_values py_int row = Raise e ->
     exists i, (i < 12)%nat /\
       py_int (substring (19 + 8 * i) 5 row) = Raise e /\
       forall j, (j < i)%nat ->
         exists x, py_int (substring (19 + 8 * j) 5 row) = Ok x) /\
  (forall row', (forall i, (i < 12)%nat ->
                   substring (19 + 8 * i) 5 row' = substring (19 + 8 * i) 5 row) ->
     parse_monthly_values py_int row' = parse_monthly_values py_int row).
Proof.
  unfold parse_monthly_values. rewrite xrange_monthly.
  assert (Hnth : forall i, (i < 12)%nat ->
            nth_error (map (fun i => (19 + i * 8)%nat) (seq 0 12)) i
            = Some (19 + i * 8)%nat).
  { intros i Hi. rewrite nth_error_map, nth_error_seq.
    destruct (Nat.ltb_spec i 12); [reflexivity | lia]. }
  split; [|split].
  - intros vals H.
    pose proof (mapM_length _ _ _ H) as Hlen.
    rewrite length_map, length_seq in Hlen. split; [exact Hlen|].
    intros i Hi.
    destruct (mapM_nth _ _ _ H i _ (Hnth i Hi)) as (y & Hy & Hf).
    rewrite (nth_error_nth _ _ 0 Hy), <- monthly_field. exact Hf.
  - intros e H.
    destruct (mapM_raise_first _ _ _ H) as (i & n & Hi & Hn & Hbefore).
    assert (Hlt : (i < 12)%nat).
    { assert (i < List.length (map (fun i => (19 + i * 8)%nat) (seq 0 12)))%nat
        by (apply nth_error_Some; congruence).
      rewrite length_map, length_seq in H0. exact H0. }
    rewrite (Hnth i Hlt) in Hi. injection Hi as <-.
    exists i. split; [exact Hlt|]. rewrite <- monthly_field. split; [exact Hn|].
    intros j Hj. rewrite <- monthly_field.
    apply (Hbefore j); [exact Hj | apply Hnth; lia].
  - intros row' Hrow. apply mapM_ext_in. intros n Hn.
    apply in_map_iff in Hn as (i & <- & Hi). apply in_seq in Hi.
    rewrite !monthly_field. f_equal. apply Hrow; lia.
Qed.

Lemma parse_monthly_values_fields_witness :
  List.length [100; 110; 120; 130; 140; 150; 160; 170; 180; 190; 200; 210] = 12%nat /\
  forall i, (i < 12)%nat ->
    digits_int (substring (19 + 8 * i) 5 (sample_line "42500000001" "1981"))
    = Ok (nth i [100; 110; 120; 130; 140; 150; 160; 170; 180; 190; 200; 210] 0).
Proof.
  apply (proj1 (parse_monthly_values_fields digits_int
                  (sample_line "42500000001" "1981"))).
  vm_compute; reflexivity.
Defined.

Lemma data_gen_line_observe (py_int : string -> result Z) (ids : list string)
    (st : gen_state) (row : string) (o : observation) :
  observe py_int ids row = Ok o ->
  data_gen_line py_int ids st row = data_gen_row ids st o.
Proof.
  intros H. unfold observe in H. unfold data_gen_line, data_gen_row.
  destruct (py_int (py_slice row 11 15)) as [y|e]; [|discriminate].
  cbn [bind] in *.
  destruct (in_ids ids (py_slice row 0 11) && (MIN_YEAR <=? y) && (y <=? MAX_YEAR)) eqn:K.
  - destruct (parse_monthly_values py_int row) as [vals|e]; [|discriminate].
    cbn [bind] in H. injection H as <-. cbn [station_id yr monthly].
    rewrite K.
    destruct (negb (String.eqb (py_slice row 0 11) (curr_station st))); [|reflexivity].
    destruct (bind _ _) as [st1|e]; reflexivity.
  - injection H as <-. cbn [station_id yr monthly]. rewrite K.
    destruct (negb (String.eqb (py_slice row 0 11) (curr_station st))); [|reflexivity].
    destruct (bind _ _) as [st1|e]; reflexivity.
Qed.

Lemma data_gen_line_ok (py_int : string -> result Z) (ids : list string)
    (st st' : gen_state) (row : string) :
  data_gen_line py_int ids st row = Ok st' ->
  exists o, observe py_int ids row = Ok o.
Proof.
  intros H. unfold data_gen_line in H. unfold observe.
  destruct (py_int (py_slice row 11 15)) as [y|e]; [|discriminate].
  cbn [bind] in *.
  apply bind_ok in H as (st1 & _ & H).
  destruct (in_ids ids (py_slice row 0 11) && (MIN_YEAR <=? y) && (y <=? MAX_YEAR)).
  - apply bind_ok in H as (vals & -> & _). cbn [bind]. eexists; reflexivity.
  - eexists; reflexivity.
Qed.

Lemma foldM_data_gen_line_observe (py_int : string -> result Z) (ids : list string)
    (lines : list string) :
  forall (obs : list observation) (st : gen_state),
  mapM (observe py_int ids) lines = Ok obs ->
  foldM (data_gen_line py_int ids) lines st = foldM (data_gen_row ids) obs st.
Proof.
  induction lines as [|row lines IH]; intros obs st H; simpl in H.
  - injection H as <-. reflexivity.
  - apply bind_ok in H as (o & Ho & H). apply bind_ok in H as (os & Hos & H).
    injection H as <-. simpl.
    rewrite (data_gen_line_observe py_int ids st row o Ho).
    destruct (data_gen_row ids st o) as [st1|e]; [|reflexivity].
    cbn [bind]. apply IH; exact Hos.
Qed.

Lemma foldM_data_gen_line_ok (py_int : string -> result Z) (ids : list string)
    (lines : list string) :
  forall st st' : gen_state,
  foldM (data_gen_line py_int ids) lines st = Ok st' ->
  exists obs, mapM (observe py_int ids) lines = Ok obs.
Proof.
  induction lines as [|row lines IH]; intros st st' H; simpl in H.
  - exists []; reflexivity.
  - apply bind_ok in H as (st1 & H1 & H).
    destruct (data_gen_line_ok py_int ids st st1 row H1) as (o & Ho).
    destruct (IH st1 st' H) as (os & Hos).
    exists (o :: os). simpl. rewrite Ho, Hos. reflexivity.
Qed.

Lemma data_gen_lines_refines (py_int : string -> result Z) (ids : list string)
    (lines : list string) (out : list (string * list Z)) :
  data_gen_lines py_int lines ids = Ok out <->
  exists obs, mapM (observe py_int ids) lines = Ok obs /\ data_gen obs ids = Ok out.
Proof.
  unfold data_gen_lines, data_gen. split.
  - intros H. apply bind_ok in H as (st & Hst & H).
    destruct (foldM_data_gen_line_ok py_int ids lines _ _ Hst) as (obs & Hobs).
    exists obs; split; [exact Hobs|].
    rewrite <- (foldM_data_gen_line_observe py_int ids lines obs _ Hobs), Hst.
    exact H.
  - intros (obs & Hobs & H).
    rewrite (foldM_data_gen_line_observe py_int ids lines obs _ Hobs). exact H.
Qed.

(** X16: on the lines of a file, [data_gen] does what it does on the
    observations read from them.  When every line can be read (the
    year, and the 12 readings on the lines of an eligible station in
    1981-2010), the two agree, errors included; and [data_gen] ends
    without an exception only if every line can be read. *)
Theorem data_gen_lines_as_observations (py_int : string -> result Z)
    (station_ids : list string) (lines : list string) :
  (forall obs, mapM (observe py_int station_ids) lines = Ok obs ->
     data_gen_lines py_int lines station_ids = data_gen obs station_ids) /\
  (forall out, data_gen_lines py_int lines station_ids = Ok out ->
     exists obs, mapM (observe py_int station_ids) lines = Ok obs /\
       data_gen obs station_ids = Ok out).
Proof.
  split.
  - intros obs Hobs. unfold data_gen_lines, data_gen.
    rewrite (foldM_data_gen_line_observe py_int station_ids lines obs _ Hobs).
    reflexivity.
  - intros out H. apply data_gen_lines_refines; exact H.
Qed.

Lemma data_gen_lines_as_observations_witness :
  data_gen_lines digits_int
    [sample_line "42500000001" "1981"; sample_line "42500000002" "1981"]
    ["42500000001"%string]
  = data_gen
      [Obs "42500000001" 1981 [100; 110; 120; 130; 140; 150; 160; 170; 180; 190; 200; 210];
       Obs "42500000002" 1981 []]
      ["42500000001"%string].
Proof.
  apply (proj1 (data_gen_lines_as_observations digits_int ["42500000001"%string]
                  [sample_line "42500000001" "1981"; sample_line "42500000002" "1981"])).
  vm_compute; reflexivity.
Defined.

Lemma observe_kept_twelve (py_int : string -> result Z) (ids : list string)
    (lines : list string) (obs : list observation) :
  mapM (observe py_int ids) lines = Ok obs ->
  forall x, In x obs -> kept ids x = true -> List.length (monthly x) = 12%nat.
Proof.
  intros H x Hx Hk.
  apply In_nth_error in Hx as (n & Hn).
  destruct (mapM_nth_inv _ _ _ H n x Hn) as (row & _ & Hrow).
  unfold observe in Hrow.
  apply bind_ok in Hrow as (y & _ & Hrow).
  destruct (in_ids ids (py_slice row 0 11) && (MIN_YEAR <=? y) && (y <=? MAX_YEAR)) eqn:K.
  - apply bind_ok in Hrow as (vals & Hvals & Hrow). injection Hrow as <-.
    cbn [monthly].
    apply (parse_monthly_values_length py_int row vals Hvals).
  - injection Hrow as <-. unfold kept in Hk. cbn [station_id yr] in Hk.
    rewrite K in Hk. discriminate.
Qed.

Lemma data_gen_eligible (rows : list observation) (ids : list string)
    (out : list (string * list Z)) (s : string) (v : list Z) :
  data_gen rows ids = Ok out -> In (s, v) out ->
  s <> EmptyString /\ in_ids ids s = true.
Proof.
  intros H Hin.
  destruct (data_gen_sound ids rows out s v H Hin)
    as (grp & Hclosed & Hs & Hcount & _).
  split; [exact Hs|].
  destruct Hclosed as (l1 & r & l2 & _ & _ & _ & Hall & _).
  apply (group_values_eligible ids s grp Hall).
  intros E; rewrite E in Hcount; simpl in Hcount; unfold MIN_NUM_VALUES in Hcount; lia.
Qed.

Lemma data_gen_lines_pairs (py_int : string -> result Z) (ids : list string)
    (lines : list string) (out : list (string * list Z)) :
  data_gen_lines py_int lines ids = Ok out ->
  forall s v, In (s, v) out ->
    List.length v = 12%nat /\ s <> EmptyString /\ in_ids ids s = true.
Proof.
  intros H s v Hin.
  apply data_gen_lines_refines in H as (obs & Hobs & H).
  split; [|eapply data_gen_eligible; eauto].
  eapply data_gen_twelve; eauto.
  eapply observe_kept_twelve; eauto.
Qed.

(** X17: whatever the file holds, every pair that [data_gen] yields
    from its lines has a vector of exactly 12 components and a station
    that is named and eligible. *)
Theorem data_gen_lines_vectors_of_twelve (py_int : string -> result Z)
    (station_ids : list string) (lines : list string)
    (out : list (string * list Z)) :
  data_gen_lines py_int lines station_ids = Ok out ->
  forall s v, In (s, v) out ->
    List.length v = 12%nat /\ s <> EmptyString /\ in_ids station_ids s = true.
Proof. apply data_gen_lines_pairs. Qed.

Lemma data_gen_lines_vectors_of_twelve_witness :
  List.length [100; 110; 120; 130; 140; 150; 160; 170; 180; 190; 200; 210] = 12%nat /\
  "42500000001"%string <> EmptyString /\
  in_ids ["42500000001"%string] "42500000001" = true.
Proof.
  apply (data_gen_lines_vectors_of_twelve digits_int ["42500000001"%string]
           sample_file
           [("42500000001"%string,
             [100; 110; 120; 130; 140; 150; 160; 170; 180; 190; 200; 210])]
           ltac:(vm_compute; reflexivity)).
  left; reflexivity.
Defined.

(** ** Dictionaries *)

Lemma dict_get_set {V : Type} (d : dict V) (k k' : string) (v : V) :
  dict_get (dict_set d k v) k' =
  if String.eqb k' k then Some v else dict_get d k'.
Proof.
  induction d as [|[k0 v0] d IH]; simpl.
  - destruct (String.eqb k' k); reflexivity.
  - destruct (String.eqb_spec k k0) as [-> | Hne]; simpl.
    + destruct (String.eqb k' k0); reflexivity.
    + rewrite IH.
      destruct (String.eqb_spec k' k0) as [-> | Hne'].
      * destruct (String.eqb_spec k0 k); [congruence | reflexivity].
      * reflexivity.
Qed.

Lemma dict_keys_set {V : Type} (d : dict V) (k : string) (v : V) :
  forall k', In k' (dict_keys (dict_set d k v)) <-> k' = k \/ In k' (dict_keys d).
Proof.
  induction d as [|[k0 v0] d IH]; intros k'; simpl.
  - split; [intros [<- | []]; left; reflexivity | intros [-> | []]; left; reflexivity].
  - destruct (String.eqb_spec k k0) as [-> | Hne]; simpl.
    + intuition (subst; auto).
    + rewrite IH. intuition (subst; auto).
Qed.

Lemma dict_set_NoDup {V : Type} (d : dict V) (k : string) (v : V) :
  NoDup (dict_keys d) -> NoDup (dict_keys (dict_set d k v)).
Proof.
  induction d as [|[k0 v0] d IH]; intros Hnd; simpl.
  - constructor; [intros [] | constructor].
  - apply NoDup_cons_iff in Hnd as (Hnin & Hnd).
    destruct (String.eqb_spec k k0) as [-> | Hne]; simpl.
    + constructor; assumption.
    + constructor; [|apply IH; exact Hnd].
      intros Hin. apply dict_keys_set in Hin as [-> | Hin]; [congruence | contradiction].
Qed.

Lemma dict_of_snoc {V : Type} (pairs : list (string * V)) (p : string * V) :
  dict_of (pairs ++ [p]) = dict_set (dict_of pairs) (fst p) (snd p).
Proof. unfold dict_of. rewrite fold_left_app. reflexivity. Qed.

Lemma dict_of_NoDup {V : Type} (pairs : list (string * V)) :
  NoDup (dict_keys (dict_of pairs)).
Proof.
  induction pairs as [|p pairs IH] using rev_ind; [constructor|].
  rewrite dict_of_snoc. apply dict_set_NoDup; exact IH.
Qed.

Lemma dict_get_In {V : Type} (d : dict V) (k : string) (v : V) :
  dict_get d k = Some v -> In (k, v) d.
Proof.
  induction d as [|[k0 v0] d IH]; simpl; [discriminate|].
  destruct (String.eqb_spec k k0) as [-> | Hne]; intros H.
  - injection H as <-. left; reflexivity.
  - right; apply IH; exact H.
Qed.

Lemma dict_In_get {V : Type} (d : dict V) (k : string) (v : V) :
  NoDup (dict_keys d) -> In (k, v) d -> dict_get d k = Some v.
Proof.
  induction d as [|[k0 v0] d IH]; intros Hnd Hin; [contradiction|].
  simpl in Hnd. apply NoDup_cons_iff in Hnd as (Hnin & Hnd). simpl.
  destruct Hin as [E | Hin].
  - injection E as -> ->. rewrite String.eqb_refl. reflexivity.
  - destruct (String.eqb_spec k k0) as [-> | Hne].
    + exfalso; apply Hnin. unfold dict_keys. apply in_map_iff.
      exists (k0, v); split; [reflexivity | exact Hin].
    + apply IH; assumption.
Qed.

Lemma dict_mem_keys {V : Type} (d : dict V) (k : string) :
  dict_mem d k = in_ids (dict_keys d) k.
Proof.
  unfold dict_mem, in_ids. induction d as [|[k0 v0] d IH]; simpl; [reflexivity|].
  destruct (String.eqb k k0); simpl; [reflexivity | exact IH].
Qed.

(** The value of a key in [dict(pairs)] is the one of the last pair
    with that key. *)
Lemma dict_of_get_snoc {V : Type} (pairs : list (string * V)) (p : string * V)
    (k : string) :
  dict_get (dict_of (pairs ++ [p])) k =
  if String.eqb k (fst p) then Some (snd p) else dict_get (dict_of pairs) k.
Proof. rewrite dict_of_snoc. apply dict_get_set. Qed.

Lemma dict_of_get_In {V : Type} (pairs : list (string * V)) (k : string) (v : V) :
  dict_get (dict_of pairs) k = Some v -> In (k, v) pairs.
Proof.
  induction pairs as [|p pairs IH] using rev_ind; [discriminate|].
  rewrite dict_of_get_snoc.
  destruct (String.eqb_spec k (fst p)) as [-> | Hne]; intros H.
  - injection H as <-. apply in_or_app; right; left. destruct p; reflexivity.
  - apply in_or_app; left. apply IH; exact H.
Qed.

Lemma dict_of_In_mem {V : Type} (pairs : list (string * V)) (k : string) (v : V) :
  In (k, v) pairs -> exists v', dict_get (dict_of pairs) k = Some v'.
Proof.
  induction pairs as [|p pairs IH] using rev_ind; [intros []|].
  intros Hin. rewrite dict_of_get_snoc.
  destruct (String.eqb_spec k (fst p)) as [-> | Hne]; [eexists; reflexivity|].
  apply in_app_or in Hin as [Hin | [E | []]]; [apply IH; exact Hin|].
  subst p; simpl in Hne; congruence.
Qed.

Lemma dict_get_filter_key {V : Type} (P : string -> bool) (d : dict V) (k : string) :
  dict_get (filter (fun p => P (fst p)) d) k =
  if P k then dict_get d k else None.
Proof.
  induction d as [|[k0 v0] d IH]; simpl; [destruct (P k); reflexivity|].
  destruct (P k0) eqn:E0; simpl.
  - destruct (String.eqb_spec k k0) as [-> | Hne]; [rewrite E0; reflexivity | exact IH].
  - destruct (String.eqb_spec k k0) as [-> | Hne]; [|exact IH].
    rewrite IH, E0. reflexivity.
Qed.

Lemma filter_filter {A : Type} (f g : A -> bool) (l : list A) :
  filter f (filter g l) = filter (fun x => g x && f x) l.
Proof.
  induction l as [|a l IH]; simpl; [reflexivity|].
  destruct (g a); simpl; [destruct (f a); rewrite IH; reflexivity | exact IH].
Qed.

Lemma common_stations_fold (min_meta : dict (Q * Q)) (ks : list string) :
  forall d : dict (Q * Q),
  fold_left (fun d k => if dict_mem min_meta k then d else dict_del d k) ks d =
  filter (fun p => dict_mem min_meta (fst p) || negb (in_ids ks (fst p))) d.
Proof.
  induction ks as [|k ks IH]; intros d; simpl.
  - symmetry. apply filter_all_true. intros x _. apply orb_true_r.
  - rewrite IH. destruct (dict_mem min_meta k) eqn:E.
    + apply filter_ext. intros [k0 v0]; simpl. unfold in_ids; simpl.
      destruct (String.eqb_spec k0 k) as [-> | Hne]; simpl; [|reflexivity].
      rewrite E. reflexivity.
    + unfold dict_del. rewrite filter_filter. apply filter_ext.
      intros [k0 v0]; simpl. unfold in_ids; simpl.
      rewrite (String.eqb_sym k0 k).
      destruct (String.eqb_spec k k0) as [<- | Hne]; simpl; [|reflexivity].
      rewrite E. reflexivity.
Qed.

Lemma common_stations_filter (max_meta min_meta : dict (Q * Q)) :
  common_stations max_meta min_meta =
  filter (fun p => dict_mem min_meta (fst p)) max_meta.
Proof.
  unfold common_stations. rewrite common_stations_fold.
  apply filter_ext_in. intros [k0 v0] Hin; simpl.
  assert (E : in_ids (dict_keys max_meta) k0 = true).
  { unfold in_ids. apply existsb_exists. exists k0; split; [|apply String.eqb_refl].
    unfold dict_keys. apply in_map_iff. exists (k0, v0); split; [reflexivity | exact Hin]. }
  rewrite E. apply orb_false_r.
Qed.

(** X19: after the loop of [main] that deletes stations, a station is in
    [stationid_latlons] exactly when it is in the metadata of the maxima
    and in the metadata of the minima, and its coordinates are those of
    the metadata of the maxima. *)
Theorem common_stations_lookup (max_meta min_meta : dict (Q * Q)) (k : string) :
  dict_get (common_stations max_meta min_meta) k =
  if dict_mem min_meta k then dict_get max_meta k else None.
Proof.
  rewrite common_stations_filter.
  apply (dict_get_filter_key (dict_mem min_meta)).
Qed.

(** ** The metadata of the stations *)

Lemma Qltb_lt (a b : Q) : Qltb a b = true <-> (a < b)%Q.
Proof. unfold Qltb, Qlt. apply Z.ltb_lt. Qed.

Lemma continental_usa_spec (r : station_meta) :
  continental_usa r = true <->
  py_slice (meta_id r) 0 3 = USA_COUNTRY_CODE /\
  (lat r < MAX_LAT)%Q /\ (MIN_LON < lon r)%Q.
Proof.
  unfold continental_usa.
  rewrite !andb_true_iff, !Qltb_lt, String.eqb_eq. tauto.
Qed.

Lemma mapM_all_ok {A B : Type} (f : A -> result B) (l : list A) :
  (forall x, In x l -> exists y, f x = Ok y) ->
  exists r, mapM f l = Ok r.
Proof.
  induction l as [|x l IH]; intros H; simpl; [eexists; reflexivity|].
  destruct (H x (or_introl eq_refl)) as (y & ->); cbn [bind].
  destruct (IH (fun z Hz => H z (or_intror Hz))) as (r & ->); cbn [bind].
  eexists; reflexivity.
Qed.

Lemma mapM_raise_at {A B : Type} (f : A -> result B) (e : exn) :
  forall (l : list A) (i : nat) (x : A),
  nth_error l i = Some x -> f x = Raise e ->
  (forall j y, (j < i)%nat -> nth_error l j = Some y -> exists z, f y = Ok z) ->
  mapM f l = Raise e.
Proof.
  induction l as [|a l IH]; intros i x Hi Hx Hbefore; [destruct i; discriminate|].
  destruct i as [|i]; simpl in Hi.
  - injection Hi as ->. simpl. rewrite Hx. reflexivity.
  - destruct (Hbefore O a ltac:(lia) eq_refl) as (z & Hz).
    simpl. rewrite Hz; cbn [bind].
    rewrite (IH i x Hi Hx); [reflexivity|].
    intros j y Hj Hy. apply (Hbefore (S j) y); [lia | exact Hy].
Qed.

(** X18: [get_stationid_dict] returns a dictionary exactly when every
    line of the file parses; it raises an exception exactly when that
    is the exception of the first line that does not parse.  Each key
    of the dictionary is the identifier of a line of the file; it
    starts with 425, its latitude is below 49 and its longitude above
    -130, as that line gives them.  Every line that passes these three
    tests has its station in the dictionary. *)
Theorem get_stationid_dict_continental_usa (py_float : string -> result Q)
    (lines : list string) :
  ((exists d, get_stationid_dict py_float lines = Ok d) <->
   (forall line, In line lines ->
      exists r, parse_id_lat_lon py_float line = Ok r)) /\
  (forall d, get_stationid_dict py_float lines = Ok d ->
     NoDup (dict_keys d) /\
     (forall k la lo, dict_get d k = Some (la, lo) ->
        py_slice k 0 3 = "425"%string /\ (la < 49)%Q /\ (-130 < lo)%Q /\
        exists line, In line lines /\
          parse_id_lat_lon py_float line = Ok (Meta k la lo)) /\
     (forall line r, In line lines ->
        parse_id_lat_lon py_float line = Ok r ->
        py_slice (meta_id r) 0 3 = "425"%string ->
        (lat r < 49)%Q -> (-130 < lon r)%Q ->
        dict_mem d (meta_id r) = true)) /\
  (forall e, get_stationid_dict py_float lines = Raise e <->
     exists i line, nth_error lines i = Some line /\
       parse_id_lat_lon py_float line = Raise e /\
       forall j l, (j < i)%nat -> nth_error lines j = Some l ->
         exists r, parse_id_lat_lon py_float l = Ok r).
Proof.
  unfold get_stationid_dict. split; [|split].
  - split.
    + intros (d & H). apply bind_ok in H as (rows & Hrows & _).
      intros line Hline. apply In_nth_error in Hline as (n & Hn).
      destruct (mapM_nth _ _ _ Hrows n line Hn) as (y & _ & Hy).
      exists y; exact Hy.
    + intros H. destruct (mapM_all_ok _ _ H) as (rows & ->); cbn [bind].
      eexists; reflexivity.
  - intros d H. apply bind_ok in H as (rows & Hrows & H). injection H as <-.
    split; [apply dict_of_NoDup|]. split.
    + intros k la lo Hget.
      apply dict_of_get_In in Hget.
      apply in_map_iff in Hget as (r & Hr & Hin).
      apply filter_In in Hin as (Hin & Hc).
      apply continental_usa_spec in Hc as (Hc1 & Hc2 & Hc3).
      destruct r as [k0 la0 lo0]. simpl in Hr. injection Hr as -> -> ->.
      simpl in Hc1, Hc2, Hc3.
      split; [exact Hc1|]. split; [exact Hc2|]. split; [exact Hc3|].
      apply In_nth_error in Hin as (n & Hn).
      destruct (mapM_nth_inv _ _ _ Hrows n _ Hn) as (line & Hline & Hp).
      exists line; split; [eapply nth_error_In; eauto | exact Hp].
    + intros line r Hline Hp Hc1 Hc2 Hc3.
      apply In_nth_error in Hline as (n & Hn).
      destruct (mapM_nth _ _ _ Hrows n line Hn) as (y & Hy & Hpy).
      rewrite Hp in Hpy; injection Hpy as <-.
      assert (Hin : In (meta_id r, (lat r, lon r))
                       (map (fun r => (meta_id r, (lat r, lon r)))
                            (filter continental_usa rows))).
      { apply in_map_iff. exists r. split; [reflexivity|].
        apply filter_In. split; [eapply nth_error_In; eauto|].
        apply continental_usa_spec. repeat split; assumption. }
      destruct (dict_of_In_mem _ _ _ Hin) as (v' & Hv').
      unfold dict_mem. rewrite Hv'. reflexivity.
  - intros e; split.
    + intros H.
      destruct (mapM (parse_id_lat_lon py_float) lines) as [rows|e'] eqn:E;
        cbn [bind] in H; [discriminate|]. injection H as ->.
      destruct (mapM_raise_first _ _ _ E) as (i & line & Hi & Hline & Hbefore).
      exists i, line; split; [exact Hi|]. split; [exact Hline | exact Hbefore].
    + intros (i & line & Hi & Hline & Hbefore).
      rewrite (mapM_raise_at _ e lines i line Hi Hline Hbefore). reflexivity.
Qed.

Lemma get_stationid_dict_continental_usa_witness :
  NoDup (dict_keys [("42500000001"%string, (inject_Z 45, inject_Z 100))]) /\
  (forall k la lo,
     dict_get [("42500000001"%string, (inject_Z 45, inject_Z 100))] k = Some (la, lo) ->
     py_slice k 0 3 = "425"%string /\ (la < 49)%Q /\ (-130 < lo)%Q /\
     exists line,
       In line [sample_meta_line "42500000001"; sample_meta_line "40300000002"] /\
       parse_id_lat_lon digits_float line = Ok (Meta k la lo)) /\
  (forall line r,
     In line [sample_meta_line "42500000001"; sample_meta_line "40300000002"] ->
     parse_id_lat_lon digits_float line = Ok r ->
     py_slice (meta_id r) 0 3 = "425"%string ->
     (lat r < 49)%Q -> (-130 < lon r)%Q ->
     dict_mem [("42500000001"%string, (inject_Z 45, inject_Z 100))] (meta_id r) = true).
Proof.
  apply (proj1 (proj2 (get_stationid_dict_continental_usa digits_float
                  [sample_meta_line "42500000001"; sample_meta_line "40300000002"]))).
  vm_compute; reflexivity.
Defined.

(** ** The records to cluster *)

Lemma assemble_In (mx mn : dict (list Z)) (r : station_row) :
  In r (assemble mx mn) <->
  exists v w, In (sid r, v) mx /\ dict_get mn (sid r) = Some w /\ feats r = v ++ w.
Proof.
  unfold assemble. rewrite in_flat_map. split.
  - intros ((k, v) & Hin & Hr). simpl in Hr.
    destruct (dict_get mn k) as [w|] eqn:E; [|contradiction].
    destruct Hr as [<- | []]. simpl. exists v, w. repeat split; assumption.
  - intros (v & w & Hin & Hw & Hf). exists (sid r, v). split; [exact Hin|].
    simpl. rewrite Hw. left. destruct r; simpl in *; congruence.
Qed.

Lemma assemble_sids (mx mn : dict (list Z)) :
  map sid (assemble mx mn) = filter (dict_mem mn) (dict_keys mx).
Proof.
  unfold assemble, dict_keys, dict_mem.
  induction mx as [|[k v] mx IH]; simpl; [reflexivity|].
  destruct (dict_get mn k); simpl; rewrite IH; reflexivity.
Qed.

(** X20: the records that [main] builds from the vectors of the maxima
    and of the minima.  There is one record for each station that has
    a vector in both, and no other; its features are the vector of the
    maxima followed by the vector of the minima, each the last one the
    file gave for the station; no station has two records. *)
Theorem assemble_joins (max_pairs min_pairs : list (string * list Z)) :
  NoDup (map sid (assemble (dict_of max_pairs) (dict_of min_pairs))) /\
  forall r,
    In r (assemble (dict_of max_pairs) (dict_of min_pairs)) <->
    exists v w,
      dict_get (dict_of max_pairs) (sid r) = Some v /\
      dict_get (dict_of min_pairs) (sid r) = Some w /\
      feats r = v ++ w.
Proof.
  split.
  - rewrite assemble_sids. apply NoDup_filter, dict_of_NoDup.
  - intros r. rewrite assemble_In. split.
    + intros (v & w & Hin & Hw & Hf). exists v, w.
      split; [apply dict_In_get; [apply dict_of_NoDup | exact Hin]|].
      split; assumption.
    + intros (v & w & Hv & Hw & Hf). exists v, w.
      split; [apply dict_get_In; exact Hv|]. split; assumption.
Qed.

Lemma main_data_records (py_int : string -> result Z) (py_float : string -> result Q)
    (max_inv min_inv max_dat min_dat : list string)
    (latlons : dict (Q * Q)) (data : list station_row) :
  main_data py_int py_float max_inv min_inv max_dat min_dat = Ok (latlons, data) ->
  uniform 24 data /\
  NoDup (map sid data) /\
  forall r, In r data ->
    sid r <> EmptyString /\ exists c, dict_get latlons (sid r) = Some c.
Proof.
  intros H. unfold main_data in H.
  apply bind_ok in H as (max_meta & _ & H).
  apply bind_ok in H as (min_meta & _ & H).
  apply bind_ok in H as (max_pairs & Hmax & H).
  apply bind_ok in H as (min_pairs & Hmin & H).
  injection H as <- <-.
  assert (Hrec : forall r,
            In r (assemble (dict_of max_pairs) (dict_of min_pairs)) ->
            exists v w, In (sid r, v) max_pairs /\ In (sid r, w) min_pairs /\
              feats r = v ++ w).
  { intros r Hr. apply assemble_In in Hr as (v & w & Hv & Hw & Hf).
    exists v, w. split; [|split; [apply dict_of_get_In; exact Hw | exact Hf]].
    apply dict_of_get_In. apply dict_In_get; [apply dict_of_NoDup | exact Hv]. }
  split; [|split].
  - intros r Hr. destruct (Hrec r Hr) as (v & w & Hv & Hw & ->).
    destruct (data_gen_lines_pairs _ _ _ _ Hmax _ _ Hv) as (Hlv & _).
    destruct (data_gen_lines_pairs _ _ _ _ Hmin _ _ Hw) as (Hlw & _).
    rewrite length_app, Hlv, Hlw. reflexivity.
  - rewrite assemble_sids. apply NoDup_filter, dict_of_NoDup.
  - intros r Hr. destruct (Hrec r Hr) as (v & w & Hv & _ & _).
    destruct (data_gen_lines_pairs _ _ _ _ Hmax _ _ Hv) as (_ & Hs & Hin).
    split; [exact Hs|].
    rewrite <- dict_mem_keys in Hin. unfold dict_mem in Hin.
    destruct (dict_get (common_stations max_meta min_meta) (sid r)) as [c|];
      [eexists; reflexivity | discriminate].
Qed.

(** X21: the records of [main], whatever the four files hold: every
    record has 24 features, no station has two records, and every
    station of a record has a name and coordinates in
    [stationid_latlons], so that the lookup for the output cannot
    fail. *)
Theorem main_data_well_formed (py_int : string -> result Z)
    (py_float : string -> result Q)
    (max_inv min_inv max_dat min_dat : list string)
    (latlons : dict (Q * Q)) (data : list station_row) :
  main_data py_int py_float max_inv min_inv max_dat min_dat = Ok (latlons, data) ->
  uniform 24 data /\
  NoDup (map sid data) /\
  forall r, In r data ->
    sid r <> EmptyString /\ exists c, dict_get latlons (sid r) = Some c.
Proof. apply main_data_records. Qed.

Lemma main_data_well_formed_witness :
  uniform 24
    [Row "42500000001"
       ([100; 110; 120; 130; 140; 150; 160; 170; 180; 190; 200; 210]
        ++ [100; 110; 120; 130; 140; 150; 160; 170; 180; 190; 200; 210])] /\
  NoDup (map sid
    [Row "42500000001"
       ([100; 110; 120; 130; 140; 150; 160; 170; 180; 190; 200; 210]
        ++ [100; 110; 120; 130; 140; 150; 160; 170; 180; 190; 200; 210])]) /\
  forall r,
    In r [Row "42500000001"
            ([100; 110; 120; 130; 140; 150; 160; 170; 180; 190; 200; 210]
             ++ [100; 110; 120; 130; 140; 150; 160; 170; 180; 190; 200; 210])] ->
    sid r <> EmptyString /\
    exists c,
      dict_get [("42500000001"%string, (inject_Z 45, inject_Z 100));
                ("42500000002"%string, (inject_Z 45, inject_Z 100))] (sid r) = Some c.
Proof.
  apply (main_data_well_formed digits_int digits_float
           [sample_meta_line "42500000001"; sample_meta_line "42500000002"]
           [sample_meta_line "42500000002"; sample_meta_line "42500000001"]
           sample_file sample_file).
  vm_compute; reflexivity.
Defined.

(** ** The whole run *)

Lemma iteration_indices_fit (verbose : bool) (data : list station_row) (k : nat)
    (st st' : loop_state) :
  loop_inv k st ->
  iteration verbose data k st = Ok st' ->
  indices_fit k data st'.
Proof.
  intros (_ & Hk) H. unfold iteration in H.
  apply bind_ok in H as (idx & Hidx & H).
  apply bind_ok in H as (cs & _ & H).
  assert (Hfit : indices_fit k data (Loop cs idx (printed st))).
  { destruct (find_closest_centroids_below _ _ _ Hidx) as (Hlen & Hlt).
    split; [exact Hlen|]. cbn [indices]. intros c Hc.
    apply In_nth_error in Hc as (i & Hi). specialize (Hlt i c Hi). lia. }
  destruct verbose.
  - apply bind_ok in H as (q & _ & H). injection H as <-. exact Hfit.
  - injection H as <-. exact Hfit.
Qed.

Lemma kmeans_loop_quiet_fit (d k : nat) (data : list station_row) :
  data <> [] -> uniform d data ->
  forall (t : nat) (st : loop_state),
  loop_inv k st -> indices_fit k data st ->
  exists st', kmeans_loop false data k t st = Ok st' /\
    loop_inv k st' /\ indices_fit k data st'.
Proof.
  intros Hne Hu t; induction t as [|t IH]; intros st Hinv Hfit; simpl.
  - exists st; repeat split; try assumption; apply Hinv || apply Hfit.
  - destruct (iteration_quiet_ok d k data st Hne Hu Hinv) as (st1 & Hst1).
    rewrite Hst1; cbn [bind]. apply IH.
    + eapply iteration_inv; eauto.
    + eapply iteration_indices_fit; eauto.
Qed.

Lemma kmeans_loop_quiet_final (d k : nat) (data : list station_row)
    (t : nat) (st : loop_state) :
  data <> [] -> uniform d data -> loop_inv k st ->
  exists st', kmeans_loop false data k (S t) st = Ok st' /\
    loop_inv k st' /\ indices_fit k data st'.
Proof.
  intros Hne Hu Hinv. simpl.
  destruct (iteration_quiet_ok d k data st Hne Hu Hinv) as (st1 & Hst1).
  rewrite Hst1; cbn [bind].
  apply (kmeans_loop_quiet_fit d k data Hne Hu).
  - eapply iteration_inv; eauto.
  - eapply iteration_indices_fit; eauto.
Qed.

(** X22: the run of [main] without [-v].  Whatever the four files hold,
    if the data are read without an exception and at least one station
    has a record, then for every random source the 100 iterations end
    without an exception, with between 1 and 13 centroids; every
    record has a cluster index, below 13, and coordinates, which is all
    the output needs. *)
Theorem main_clustering_completes (py_int : string -> result Z)
    (py_float : string -> result Q)
    (max_inv min_inv max_dat min_dat : list string)
    (latlons : dict (Q * Q)) (data : list station_row) (g : rng) :
  main_data py_int py_float max_inv min_inv max_dat min_dat = Ok (latlons, data) ->
  data <> [] ->
  exists st,
    run_kmeans false data g = Ok st /\
    (1 <= List.length (centroids st) <= 13)%nat /\
    List.length (indices st) = List.length data /\
    forall i r, nth_error data i = Some r ->
      exists c xy,
        nth_error (indices st) i = Some c /\ (c < 13)%nat /\
        dict_get latlons (sid r) = Some xy.
Proof.
  intros H Hne.
  destruct (main_data_records _ _ _ _ _ _ _ _ H) as (Hu & _ & Hrec).
  unfold run_kmeans, ITERATIONS.
  destruct (kmeans_loop_quiet_final 24 K data 99
              (Loop (fst (initial_centroids K g)) [] []) Hne Hu)
    as (st & Hst & (Hcs & Hk) & (Hlen & Hlt)).
  { split; cbn [centroids].
    - intros E. pose proof (initial_centroids_length K g) as Hl.
      rewrite E in Hl. discriminate.
    - rewrite initial_centroids_length. lia. }
  exists st. split; [exact Hst|].
  split; [unfold K in Hk; destruct (centroids st); [congruence | simpl in *; lia]|].
  split; [exact Hlen|].
  intros i r Hr.
  destruct (nth_error (indices st) i) as [c|] eqn:Hc.
  - destruct (Hrec r (nth_error_In _ _ Hr)) as (_ & xy & Hxy).
    exists c, xy. split; [reflexivity|]. split; [|exact Hxy].
    apply (Hlt c). eapply nth_error_In; eauto.
  - apply nth_error_None in Hc.
    assert (i < List.length data)%nat by (apply nth_error_Some; congruence). lia.
Qed.

Lemma main_clustering_completes_witness :
  exists st,
    run_kmeans false
      [Row "42500000001"
         ([100; 110; 120; 130; 140; 150; 160; 170; 180; 190; 200; 210]
          ++ [100; 110; 120; 130; 140; 150; 160; 170; 180; 190; 200; 210])]
      (draws_for [-800; 0; 800]) = Ok st /\
    (1 <= List.length (centroids st) <= 13)%nat.
Proof.
  destruct (main_clustering_completes digits_int digits_float
              [sample_meta_line "42500000001"; sample_meta_line "42500000002"]
              [sample_meta_line "42500000002"; sample_meta_line "42500000001"]
              sample_file sample_file
              [("42500000001"%string, (inject_Z 45, inject_Z 100));
               ("42500000002"%string, (inject_Z 45, inject_Z 100))]
              [Row "42500000001"
                 ([100; 110; 120; 130; 140; 150; 160; 170; 180; 190; 200; 210]
                  ++ [100; 110; 120; 130; 140; 150; 160; 170; 180; 190; 200; 210])]
              (draws_for [-800; 0; 800]))
    as (st & Hst & Hcs & _).
  - vm_compute; reflexivity.
  - discriminate.
  - exists st; split; assumption.
Defined.

(** ** The number of clusters over the iterations *)

Lemma occupied_below (data : list station_row) (idx : list nat) (k m : nat) :
  (forall i c, nth_error idx i = Some c -> (c < m)%nat) ->
  incl (occupied data idx k) (seq 0 m).
Proof.
  intros Hlt c Hc. apply occupied_In in Hc as (_ & Hc).
  destruct (members_nonempty data idx c Hc) as (i & _ & Hi).
  apply in_seq. specialize (Hlt i c Hi). lia.
Qed.

Lemma occupied_count (data : list station_row) (idx : list nat) (k m : nat)
    (unused : list nat) :
  (forall i c, nth_error idx i = Some c -> (c < m)%nat) ->
  NoDup unused ->
  (forall j, In j unused -> (j < m)%nat /\ ~ In j idx) ->
  (List.length (occupied data idx k) + List.length unused <= m)%nat.
Proof.
  intros Hlt Hnd Hun.
  assert (Hocc : NoDup (occupied data idx k)) by (apply NoDup_filter, seq_NoDup).
  assert (Hall : NoDup (occupied data idx k ++ unused)).
  { apply NoDup_app; [exact Hocc | exact Hnd |].
    intros c Hc Hu. apply occupied_In in Hc as (_ & Hc).
    destruct (Hun c Hu) as (_ & Hnot).
    apply Hc. apply members_not_in; exact Hnot. }
  assert (Hincl : incl (occupied data idx k ++ unused) (seq 0 m)).
  { intros c Hc. apply in_app_or in Hc as [Hc | Hc].
    - apply (occupied_below data idx k m Hlt); exact Hc.
    - apply in_seq. destruct (Hun c Hc). lia. }
  pose proof (NoDup_incl_length Hall Hincl) as Hlen.
  rewrite length_app, length_seq in Hlen. exact Hlen.
Qed.

Lemma iteration_centroids (d k : nat) (verbose : bool) (data : list station_row)
    (st st' : loop_state) :
  data <> [] -> uniform d data -> loop_inv k st ->
  iteration verbose data k st = Ok st' ->
  find_closest_centroids data (centroids st) = Ok (indices st') /\
  List.length (centroids st') = List.length (occupied data (indices st') k).
Proof.
  intros Hne Hu (_ & Hk) H. unfold iteration in H.
  apply bind_ok in H as (idx & Hidx & H).
  apply bind_ok in H as (cs & Hcomp & H).
  pose proof (find_closest_centroids_assignment _ _ _ k Hidx Hk) as Hbelow.
  rewrite (compute_centroids_spec d k data idx Hne Hu Hbelow) in Hcomp.
  injection Hcomp as <-.
  destruct verbose.
  - apply bind_ok in H as (q & _ & H). injection H as <-.
    split; [exact Hidx | apply length_map].
  - injection H as <-. split; [exact Hidx | apply length_map].
Qed.

Lemma iteration_no_more_centroids (d k : nat) (verbose : bool)
    (data : list station_row) (st st' : loop_state) :
  data <> [] -> uniform d data -> loop_inv k st ->
  iteration verbose data k st = Ok st' ->
  (List.length (centroids st') <= List.length (centroids st))%nat.
Proof.
  intros Hne Hu Hinv H.
  destruct (iteration_centroids d k verbose data st st' Hne Hu Hinv H) as (Hidx & ->).
  destruct (find_closest_centroids_below _ _ _ Hidx) as (_ & Hlt).
  pose proof (occupied_count data (indices st') k _ [] Hlt (NoDup_nil _)
                ltac:(intros j []) ) as Hc.
  simpl in Hc. lia.
Qed.

(** X23: the number of centroids never grows.  On a non-empty dataset
    of records of one dimension, each iteration returns at most as many
    centroids as it was given, so a cluster that was dropped never
    comes back in the rest of the run. *)
Theorem centroids_never_increase (d k : nat) (verbose : bool)
    (monthly_data : list station_row) :
  monthly_data <> [] -> uniform d monthly_data ->
  forall (t : nat) (st st' : loop_state),
  loop_inv k st ->
  kmeans_loop verbose monthly_data k t st = Ok st' ->
  (List.length (centroids st') <= List.length (centroids st))%nat.
Proof.
  intros Hne Hu t; induction t as [|t IH]; intros st st' Hinv H; simpl in H.
  - injection H as <-. lia.
  - apply bind_ok in H as (st1 & H1 & H).
    pose proof (iteration_no_more_centroids d k verbose monthly_data st st1 Hne Hu Hinv H1).
    pose proof (IH st1 st' (iteration_inv d k verbose monthly_data st st1 Hne Hu Hinv H1) H).
    lia.
Qed.

Lemma centroids_never_increase_witness :
  (List.length
     (centroids (Loop [[2; 1]; [9; 9]; [6; 1]]%Z [0; 0; 2; 1]
                      [Qmake 50 4; Qmake 5 4; Qmake 5 4]))
   <= List.length (centroids (Loop [[0; 0]; [3; 4]; [6; 0]]%Z [] [])))%nat.
Proof.
  apply (centroids_never_increase 2 3 true
           [Row "a" [0; 1]; Row "b" [3; 1]; Row "c" [6; 1]; Row "d" [9; 9]]
           ltac:(discriminate)
           ltac:(intros r [<- | [<- | [<- | [<- | []]]]]; reflexivity) 3).
  - split; [discriminate | simpl; lia].
  - vm_compute; reflexivity.
Defined.

Lemma initial_centroids_equal (k : nat) (g : rng) (i j : nat) :
  (i < k)%nat -> (j < k)%nat ->
  g i mod 1601 = g j mod 1601 ->
  exists c,
    nth_error (fst (initial_centroids k g)) i = Some c /\
    nth_error (fst (initial_centroids k g)) j = Some c.
Proof.
  intros Hi Hj E.
  exists (shifted (-800 + g i mod 1601)).
  rewrite (initial_centroids_nth k g i Hi), (initial_centroids_nth k g j Hj).
  unfold randint; cbn [fst]. rewrite !Nat.add_0_r.
  change (800 - -800 + 1) with 1601. rewrite E. split; reflexivity.
Qed.

(** X24: the starting centroids can coincide.  When two of the 13 draws
    give the same shift, the second of the two centroids gets no record
    in the first iteration and is dropped: at most 12 centroids are
    left after it, whatever the data. *)
Theorem equal_draws_lose_a_cluster (d : nat) (verbose : bool)
    (monthly_data : list station_row) (g : rng) (i j : nat) (st : loop_state) :
  monthly_data <> [] -> uniform d monthly_data ->
  (i < j)%nat -> (j < K)%nat ->
  g i mod 1601 = g j mod 1601 ->
  iteration verbose monthly_data K (Loop (fst (initial_centroids K g)) [] []) = Ok st ->
  ~ In j (indices st) /\ (List.length (centroids st) <= 12)%nat.
Proof.
  intros Hne Hu Hij Hj E H.
  assert (Hinv : loop_inv K (Loop (fst (initial_centroids K g)) [] [])).
  { split; cbn [centroids].
    - intros E0. pose proof (initial_centroids_length K g) as Hl.
      rewrite E0 in Hl. discriminate.
    - rewrite initial_centroids_length. lia. }
  destruct (iteration_centroids d K verbose monthly_data _ st Hne Hu Hinv H)
    as (Hidx & Hlen).
  cbn [centroids] in Hidx.
  destruct (initial_centroids_equal K g i j ltac:(lia) Hj E) as (c & Hci & Hcj).
  pose proof (find_closest_centroids_not_later_copy _ _ _ _ _ _ Hidx Hij Hci Hcj)
    as Hnot.
  split; [exact Hnot|].
  destruct (find_closest_centroids_below _ _ _ Hidx) as (_ & Hlt).
  rewrite initial_centroids_length in Hlt.
  pose proof (occupied_count monthly_data (indices st) K K [j] Hlt
                ltac:(constructor; [intros [] | constructor])
                ltac:(intros x [<- | []]; split; assumption)) as Hc.
  cbn [List.length] in Hc. rewrite Hlen.
  assert (HK : K = 13%nat) by reflexivity. lia.
Qed.

Lemma equal_draws_lose_a_cluster_witness :
  ~ In 1%nat (indices (Loop [base] [0%nat] [])) /\
  (List.length (centroids (Loop [base] [0] [])) <= 12)%nat.
Proof.
  apply (equal_draws_lose_a_cluster 24 false [Row "42572494000" base]
           (draws_for []) 0 1).
  - discriminate.
  - intros r [<- | []]; reflexivity.
  - lia.
  - unfold K; lia.
  - reflexivity.
  - vm_compute; reflexivity.
Defined.

(** ** The objective of the clustering *)

(** The assignment phase does at least as well as any choice of a
    centroid of the list for each record. *)
Lemma find_closest_centroids_le_any (cs : list (list Z)) (g : nat -> list Z) :
  forall (data : list station_row) (idx' idx : list nat),
  find_closest_centroids data cs = Ok idx' ->
  (List.length data <= List.length idx)%nat ->
  (forall c, In c idx -> In (g c) cs) ->
  cost data cs idx' <=
  py_sum (map (fun p => sqdist (feats (fst p)) (g (snd p))) (combine data idx)).
Proof.
  induction data as [|r data IH]; intros idx' idx H Hlen Hg.
  - unfold cost; simpl; lia.
  - destruct idx as [|c idx]; [simpl in Hlen; lia|].
    unfold find_closest_centroids in H; cbn [mapM] in H.
    apply bind_ok in H as (j & Hj & H).
    apply bind_ok in H as (js & Hjs & H).
    injection H as <-.
    rewrite cost_cons. cbn [combine map fst snd]. rewrite py_sum_cons.
    assert (IHle := IH js idx Hjs ltac:(simpl in Hlen; lia)
                      (fun c0 Hc0 => Hg c0 (or_intror Hc0))).
    assert (Hin : In (g c) cs) by (apply Hg; left; reflexivity).
    assert (Hcs : cs <> []) by (intros ->; exact Hin).
    destruct (closest_spec cs r Hcs) as (j0 & c0 & Hj0 & Hc0 & Hall).
    rewrite Hj0 in Hj; injection Hj as ->.
    apply In_nth_error in Hin as (j' & Hj').
    destruct (Hall j' (g c) Hj') as (Hle & _).
    rewrite (nth_error_nth _ _ [] Hc0). lia.
Qed.

(** X8: the objective of k-means never increases.  The objective of a
    centroid list is the sum, over the records, of the squared distance
    (an integer) from the record to the centroid that the assignment
    phase gives it.  From one centroid list to the list that the update
    phase makes of its assignment, this sum does not increase, whether
    or not clusters were dropped in between.  The integers handed to
    [math.sqrt] and to [float] are in the exact ranges. *)
Theorem objective_non_increasing (d k : nat) (monthly_data : list station_row)
    (cs cs' : list (list Z)) (idx idx' : list nat) :
  uniform d monthly_data ->
  (List.length cs <= k)%nat ->
  (forall c, In c cs -> List.length c = d) ->
  distances_in_range monthly_data cs ->
  distances_in_range monthly_data cs' ->
  sums_in_range d k monthly_data idx ->
  find_closest_centroids monthly_data cs = Ok idx ->
  compute_centroids monthly_data idx k = Ok cs' ->
  find_closest_centroids monthly_data cs' = Ok idx' ->
  cost monthly_data cs' idx' <= cost monthly_data cs idx.
Proof.
  intros Hu Hk Hdim _ _ _ Hidx Hcomp Hidx'.
  assert (Hne : monthly_data <> []) by (intros ->; discriminate).
  pose proof (find_closest_centroids_assignment _ _ _ _ Hidx (Nat.le_refl _)) as Hb.
  pose proof (find_closest_centroids_assignment _ _ _ k Hidx Hk) as Hbk.
  destruct (find_closest_centroids_below _ _ _ Hidx) as (Hlen & Hlt).
  rewrite (compute_centroids_spec d k monthly_data idx Hne Hu Hbk) in Hcomp.
  injection Hcomp as <-.
  set (M := map (fun c => cluster_mean d (members monthly_data idx c)) (seq 0 k)).
  assert (HM : forall c, (c < k)%nat ->
            nth c M [] = cluster_mean d (members monthly_data idx c)).
  { intros c Hc. apply nth_error_nth. unfold M.
    rewrite nth_error_map, nth_error_seq.
    destruct (Nat.ltb_spec c k); [reflexivity | lia]. }
  transitivity (cost monthly_data M idx).
  - apply (find_closest_centroids_le_any _ (fun c => nth c M [])
             monthly_data idx' idx Hidx'); [lia|].
    intros c Hc. apply In_nth_error in Hc as (i & Hi).
    assert (Hik : (i < List.length monthly_data)%nat).
    { rewrite <- Hlen. apply nth_error_Some; congruence. }
    specialize (Hlt i c Hi).
    rewrite HM by lia.
    apply in_map_iff. exists c; split; [reflexivity|].
    apply occupied_In; split; [lia|].
    eapply members_of_record; eauto.
  - rewrite (cost_by_cluster k M monthly_data idx Hbk),
            (cost_by_cluster k cs monthly_data idx Hbk).
    apply py_sum_map_le; intros c Hc. apply in_seq in Hc.
    rewrite HM by lia.
    destruct (members monthly_data idx c) as [|v vs] eqn:Em; [reflexivity|].
    assert (Hmne : members monthly_data idx c <> []) by (rewrite Em; discriminate).
    rewrite <- Em.
    apply cluster_mean_minimises.
    + exact Hmne.
    + apply members_uniform; exact Hu.
    + destruct (members_nonempty monthly_data idx c Hmne) as (i & Hi & Hnth).
      apply Hdim, nth_In. exact (Hlt i c Hnth).
Qed.

Lemma objective_non_increasing_witness :
  cost [Row "a" [0; 1]; Row "b" [3; 1]; Row "c" [6; 1]; Row "d" [9; 9]]
       [[0; 1]; [6; 5]; [6; 1]] [0%nat; 0%nat; 2%nat; 1%nat]
  <= cost [Row "a" [0; 1]; Row "b" [3; 1]; Row "c" [6; 1]; Row "d" [9; 9]]
       [[0; 0]; [3; 4]; [6; 0]] [0%nat; 1%nat; 2%nat; 1%nat].
Proof.
  apply (objective_non_increasing 2 3
           [Row "a" [0; 1]; Row "b" [3; 1]; Row "c" [6; 1]; Row "d" [9; 9]]
           [[0; 0]; [3; 4]; [6; 0]] [[0; 1]; [6; 5]; [6; 1]]).
  - intros r [<- | [<- | [<- | [<- | []]]]]; reflexivity.
  - simpl; lia.
  - intros c [<- | [<- | [<- | []]]]; reflexivity.
  - intros r c [<- | [<- | [<- | [<- | []]]]] [<- | [<- | [<- | []]]]; reflexivity.
  - intros r c [<- | [<- | [<- | [<- | []]]]] [<- | [<- | [<- | []]]]; reflexivity.
  - intros c j Hc Hj.
    destruct c as [|[|[|c]]]; [| | | lia];
      (destruct j as [|[|j]]; [| | lia]); reflexivity.
  - reflexivity.
  - reflexivity.
  - reflexivity.
Defined.

(** ** The run stays in the exact ranges *)

Lemma py_sum_abs_le (B : Z) (l : list Z) :
  (forall x, In x l -> Z.abs x <= B) ->
  Z.abs (py_sum l) <= Z.of_nat (List.length l) * B.
Proof.
  induction l as [|a l IH]; intros H.
  - rewrite py_sum_nil; simpl; lia.
  - rewrite py_sum_cons. cbn [List.length].
    assert (Ha : Z.abs a <= B) by (apply H; left; reflexivity).
    assert (Hl := IH (fun x Hx => H x (or_intror Hx))).
    lia.
Qed.

Lemma component_sum_bound (B : Z) (d : nat) (vs : list (list Z)) (j : nat) :
  (forall v, In v vs -> within B v) ->
  (forall v, In v vs -> List.length v = d) ->
  (j < d)%nat ->
  Z.abs (component_sum vs j) <= Z.of_nat (List.length vs) * B.
Proof.
  intros Hw Hd Hj. unfold component_sum.
  rewrite <- (length_map (fun v => nth j v 0) vs).
  apply py_sum_abs_le. intros x Hx.
  apply in_map_iff in Hx as (v & <- & Hv).
  apply (Hw v Hv). apply nth_In. rewrite (Hd v Hv). exact Hj.
Qed.

Lemma round_half_away_within (B x n : Z) :
  0 < n -> Z.abs x <= n * B -> Z.abs (round_half_away x n) <= B.
Proof.
  intros Hn Hx.
  pose proof (round_half_away_nearest x n Hn) as Hr.
  set (r := round_half_away x n) in *.
  nia.
Qed.

Lemma members_length_le (data : list station_row) (idx : list nat) (c : nat) :
  (List.length (members data idx c) <= List.length data)%nat.
Proof.
  unfold members. rewrite length_map.
  etransitivity; [apply filter_length_le|].
  rewrite length_combine. apply Nat.le_min_l.
Qed.

Lemma members_within (B : Z) (data : list station_row) (idx : list nat) (c : nat) :
  (forall r, In r data -> within B (feats r)) ->
  forall v, In v (members data idx c) -> within B v.
Proof.
  intros Hw v Hv; unfold members in Hv.
  apply in_map_iff in Hv as ((r & j) & <- & Hin).
  apply filter_In in Hin as (Hin & _).
  apply in_combine_l in Hin. apply Hw; exact Hin.
Qed.

Lemma sqdist_bound (B : Z) (u : list Z) :
  forall v, within B u -> within B v ->
  sqdist u v <= 4 * Z.of_nat (List.length u) * B ^ 2.
Proof.
  induction u as [|x u IH]; intros v Hu Hv.
  - rewrite sqdist_nil_l; simpl; lia.
  - assert (Hx : Z.abs x <= B) by (apply Hu; left; reflexivity).
    destruct v as [|y v].
    + rewrite sqdist_nil_r. cbn [List.length]. nia.
    + rewrite sqdist_cons. cbn [List.length].
      assert (Hy : Z.abs y <= B) by (apply Hv; left; reflexivity).
      assert (IHle := IH v (fun z Hz => Hu z (or_intror Hz))
                        (fun z Hz => Hv z (or_intror Hz))).
      assert ((x - y) ^ 2 <= 4 * B ^ 2) by nia.
      lia.
Qed.

Lemma distances_in_range_within (B : Z) (d : nat) (data : list station_row)
    (cs : list (list Z)) :
  uniform d data ->
  (forall r, In r data -> within B (feats r)) ->
  (forall c, In c cs -> within B c) ->
  4 * Z.of_nat d * B ^ 2 < 2 ^ 51 ->
  distances_in_range data cs.
Proof.
  intros Hu Hw Hc HB r c Hr Hin. unfold sqrt_range.
  pose proof (sqdist_bound B (feats r) c (Hw r Hr) (Hc c Hin)) as H.
  rewrite (Hu r Hr) in H. lia.
Qed.

Lemma compute_centroids_ok_inv (data : list station_row) (idx : list nat) (k : nat)
    (cs : list (list Z)) :
  compute_centroids data idx k = Ok cs ->
  data <> [] /\ assignment_below k data idx.
Proof.
  intros H. unfold compute_centroids in H.
  destruct data as [|first rest]; [discriminate|].
  change (py_get (first :: rest) 0) with (Ok first) in H; cbn [bind] in H.
  apply bind_ok in H as (sums & Hsums & _).
  destruct (foldM_fn_ok_inv _ (first :: rest) idx [] _ _ Hsums) as (Hbelow & _).
  unfold zero_sums in Hbelow; rewrite repeat_length in Hbelow.
  split; [discriminate | exact Hbelow].
Qed.

Lemma within_nonneg (B : Z) (d : nat) (data : list station_row) :
  data <> [] -> uniform d data -> (0 < d)%nat ->
  (forall r, In r data -> within B (feats r)) -> 0 <= B.
Proof.
  intros Hne Hu Hd Hw. destruct data as [|r rest]; [congruence|].
  assert (Hr : In r (r :: rest)) by (left; reflexivity).
  pose proof (Hu r Hr) as Hl.
  destruct (feats r) as [|x xs] eqn:E; [simpl in Hl; lia|].
  pose proof (Hw r Hr x) as Hx. rewrite E in Hx.
  specialize (Hx (or_introl eq_refl)). lia.
Qed.

Lemma compute_centroids_within (B : Z) (d k : nat) (data : list station_row)
    (idx : list nat) (cs : list (list Z)) :
  uniform d data ->
  (forall r, In r data -> within B (feats r)) ->
  compute_centroids data idx k = Ok cs ->
  sums_in_range_by B d data idx /\ (forall c, In c cs -> within B c).
Proof.
  intros Hu Hw Hcomp.
  assert (Hsum : sums_in_range_by B d data idx).
  { intros c j Hj. apply (component_sum_bound B d); [| |exact Hj].
    - apply members_within; exact Hw.
    - apply members_uniform; exact Hu. }
  split; [exact Hsum|].
  destruct (compute_centroids_ok_inv data idx k cs Hcomp) as (Hne & Hbelow).
  rewrite (compute_centroids_spec d k data idx Hne Hu Hbelow) in Hcomp.
  injection Hcomp as <-.
  intros c Hc x Hx.
  apply in_map_iff in Hc as (c0 & <- & Hc0).
  apply occupied_In in Hc0 as (_ & Hm).
  unfold cluster_mean in Hx. apply in_map_iff in Hx as (j & <- & Hj).
  apply in_seq in Hj.
  apply round_half_away_within; [|apply Hsum; lia].
  destruct (members data idx c0); [congruence | simpl; lia].
Qed.

Lemma sums_in_range_of_bound (B : Z) (d k : nat) (data : list station_row)
    (idx : list nat) :
  data <> [] -> uniform d data ->
  (forall r, In r data -> within B (feats r)) ->
  Z.of_nat (List.length data) * B < 2 ^ 52 ->
  sums_in_range_by B d data idx ->
  sums_in_range d k data idx.
Proof.
  intros Hne Hu Hw Hn Hsum c j _ Hj. unfold round_range.
  pose proof (Hsum c j Hj) as H1.
  pose proof (members_length_le data idx c) as H2.
  assert (0 <= B) by (apply (within_nonneg B d data); try assumption; lia).
  nia.
Qed.

(** X10: the update phase keeps the run in the exact ranges.  When
    every feature of every record is at most [B] in absolute value,
    with [len(monthly_data) * B < 2^52] and [4 * d * B^2 < 2^51], the
    sums that [compute_centroids] divides are in the range of the
    rounding, every component of every centroid it returns is at most
    [B] in absolute value again, and the distances from the records to
    these centroids are in the range of the square root. *)
Theorem compute_centroids_in_range (B : Z) (d k : nat)
    (monthly_data : list station_row) (idx : list nat) (cs : list (list Z)) :
  uniform d monthly_data ->
  (forall r, In r monthly_data -> within B (feats r)) ->
  Z.of_nat (List.length monthly_data) * B < 2 ^ 52 ->
  4 * Z.of_nat d * B ^ 2 < 2 ^ 51 ->
  compute_centroids monthly_data idx k = Ok cs ->
  sums_in_range d k monthly_data idx /\
  (forall c, In c cs -> within B c) /\
  distances_in_range monthly_data cs.
Proof.
  intros Hu Hw Hn HB Hcomp.
  destruct (compute_centroids_within B d k monthly_data idx cs Hu Hw Hcomp)
    as (Hsum & Hcs).
  destruct (compute_centroids_ok_inv monthly_data idx k cs Hcomp) as (Hne & _).
  split; [|split; [exact Hcs|]].
  - apply (sums_in_range_of_bound B); assumption.
  - apply (distances_in_range_within B d); assumption.
Qed.

Lemma compute_centroids_in_range_witness :
  sums_in_range 2 2
    [Row "a" [0; 1]; Row "b" [3; 3]; Row "c" [6; 1]] [0%nat; 1%nat; 0%nat] /\
  (forall c, In c [[3; 1]; [3; 3]] -> within 6 c) /\
  distances_in_range [Row "a" [0; 1]; Row "b" [3; 3]; Row "c" [6; 1]] [[3; 1]; [3; 3]].
Proof.
  apply (compute_centroids_in_range 6 2 2
           [Row "a" [0; 1]; Row "b" [3; 3]; Row "c" [6; 1]] [0%nat; 1%nat; 0%nat]).
  - intros r [<- | [<- | [<- | []]]]; reflexivity.
  - intros r [<- | [<- | [<- | []]]] x [<- | [<- | []]]; simpl; lia.
  - reflexivity.
  - reflexivity.
  - reflexivity.
Defined.

Lemma iteration_in_range (B : Z) (d k : nat) (verbose : bool)
    (data : list station_row) (st st' : loop_state) :
  uniform d data ->
  (forall r, In r data -> within B (feats r)) ->
  Z.of_nat (List.length data) * B < 2 ^ 52 ->
  4 * Z.of_nat d * B ^ 2 < 2 ^ 51 ->
  iteration verbose data k st = Ok st' ->
  sums_in_range d k data (indices st') /\
  (forall c, In c (centroids st') -> within B c).
Proof.
  intros Hu Hw Hn HB H. unfold iteration in H.
  apply bind_ok in H as (idx & Hidx & H).
  apply bind_ok in H as (cs & Hcomp & H).
  destruct (compute_centroids_within B d k data idx cs Hu Hw Hcomp) as (Hsum & Hcs).
  destruct (compute_centroids_ok_inv data idx k cs Hcomp) as (Hne & _).
  assert (Hs : sums_in_range d k data idx)
    by (apply (sums_in_range_of_bound B); assumption).
  destruct verbose.
  - apply bind_ok in H as (q & _ & H). injection H as <-. split; assumption.
  - injection H as <-. split; assumption.
Qed.

(** X25: a run stays in the exact ranges.  When every feature of every
    record and every component of every starting centroid is at most
    [B] in absolute value, with [len(monthly_data) * B < 2^52] and
    [4 * d * B^2 < 2^51], then after any number of iterations the
    centroids are within [B] again, every distance that the next
    assignment phase compares is in the range of the square root, and
    the sums that the last update phase divided are in the range of the
    rounding. *)
Theorem kmeans_loop_in_range (B : Z) (d k : nat) (verbose : bool)
    (monthly_data : list station_row) :
  uniform d monthly_data ->
  (forall r, In r monthly_data -> within B (feats r)) ->
  Z.of_nat (List.length monthly_data) * B < 2 ^ 52 ->
  4 * Z.of_nat d * B ^ 2 < 2 ^ 51 ->
  forall (t : nat) (st st' : loop_state),
  (forall c, In c (centroids st) -> within B c) ->
  kmeans_loop verbose monthly_data k t st = Ok st' ->
  (forall c, In c (centroids st') -> within B c) /\
  distances_in_range monthly_data (centroids st') /\
  ((0 < t)%nat -> sums_in_range d k monthly_data (indices st')).
Proof.
  intros Hu Hw Hn HB t.
  assert (Hgen : forall (t : nat) (st st' : loop_state),
            (forall c, In c (centroids st) -> within B c) ->
            kmeans_loop verbose monthly_data k t st = Ok st' ->
            (forall c, In c (centroids st') -> within B c) /\
            ((0 < t)%nat -> sums_in_range d k monthly_data (indices st'))).
  { clear t. induction t as [|t IH]; intros st st' Hst H; simpl in H.
    - injection H as <-. split; [exact Hst | lia].
    - apply bind_ok in H as (st1 & Hst1 & H).
      destruct (iteration_in_range B d k verbose monthly_data st st1 Hu Hw Hn HB Hst1)
        as (Hs1 & Hc1).
      destruct (IH st1 st' Hc1 H) as (Hc' & Hs').
      split; [exact Hc'|]. intros _.
      destruct t as [|t]; [|apply Hs'; lia].
      simpl in H. injection H as <-. exact Hs1. }
  intros st st' Hst H.
  destruct (Hgen t st st' Hst H) as (Hc & Hs).
  split; [exact Hc|]. split; [|exact Hs].
  apply (distances_in_range_within B d); assumption.
Qed.

Lemma kmeans_loop_in_range_witness :
  (forall c, In c [[2; 1]; [9; 9]; [6; 1]] -> within 9 c) /\
  distances_in_range
    [Row "a" [0; 1]; Row "b" [3; 1]; Row "c" [6; 1]; Row "d" [9; 9]]
    [[2; 1]; [9; 9]; [6; 1]] /\
  ((0 < 3)%nat ->
   sums_in_range 2 3
     [Row "a" [0; 1]; Row "b" [3; 1]; Row "c" [6; 1]; Row "d" [9; 9]]
     [0%nat; 0%nat; 2%nat; 1%nat]).
Proof.
  apply (kmeans_loop_in_range 9 2 3 false
           [Row "a" [0; 1]; Row "b" [3; 1]; Row "c" [6; 1]; Row "d" [9; 9]]
           ltac:(intros r [<- | [<- | [<- | [<- | []]]]]; reflexivity)
           ltac:(intros r [<- | [<- | [<- | [<- | []]]]] x [<- | [<- | []]]; simpl; lia)
           ltac:(reflexivity) ltac:(reflexivity)
           3%nat (Loop [[0; 0]; [3; 4]; [6; 0]] [] [])
           (Loop [[2; 1]; [9; 9]; [6; 1]] [0%nat; 0%nat; 2%nat; 1%nat] [])).
  - intros c [<- | [<- | [<- | []]]] x [<- | [<- | []]]; simpl; lia.
  - vm_compute; reflexivity.
Defined.
